(* ===== verification/_CoqProject ===== *)
-Q . S2P
Prelude.v
Model.v
Actions.v
Recent.v
Reducer.v
Selectors.v
Effects.v
Discover.v
Service.v
Presentational.v
BuyOrder.v
Invest.v
System.v
