(* ===== verification/Prelude.v ===== *)
(** * A verified model of the stake-app client

    The repository is an Ionic/Angular client (TypeScript) whose core is an
    NgRx store: one immutable [StockState] (src/src/app/store/app.state.ts),
    a closed set of actions (store/stock.actions.ts), one pure reducer
    (store/stock.reducer.ts), memoised selectors (store/stock.selectors.ts)
    and effects (store/stock.effects.ts) that call the [StockService]
    (shared/services/stock.service.ts) and feed result actions back into the
    store.  Two pages (tab-discover, tab-invest) dispatch actions, debounce
    the search box and react to the buy-order flags; the buy-order component
    (shared/components/buy-order.component.ts) builds the order the pages
    dispatch; the stock card colours a change by its sign.

    How the parts interact: a UI event dispatches an action; the reducer
    computes the next state; the selectors derive views; the effects observe
    the same actions, call the service, and dispatch one result action per
    request that is still the latest of its kind (rxjs [switchMap]); the
    pages' subscriptions to the buy-order flags schedule clears and show
    toasts.

    Files, in dependency order, and what each holds:
    - [Prelude] (this file): the scope [stake_scope] with the string test
      [=s?], the hint database [stake], the tactics shared by the files, and
      the models of the JavaScript array methods the code uses: [findIndex]
      (with its -1 sentinel, related to stdpp's [list_find] by
      [findIndex_first_match]), [splice] at one index (stdpp's [delete]),
      [slice(0,n)] ([take]) and the [||] of strings ([js_or_str]); generic
      lemmas on [fold_left] and [findIndex].
    - [Model]: the interfaces of shared/models/stock.model.ts and
      store/app.state.ts as Records with decidable equality,
      [initialStockState], and one setter per field for [{...state, f: v}].
    - [Actions]: the action creators as one Inductive [Action], plus
      [OtherAction] for the actions of other slices.
    - [Recent]: the recency-list algorithm the reducer and the service both
      run ([addToRecent]: findIndex, splice, unshift, slice(0,5)); its
      invariant and its refinement of a declarative specification; the
      history theorem for a sequence of additions.
    - [Reducer]: [stockReducer], one branch per [on(...)]; the order-merge
      arithmetic (the spec's AAPL examples), the loading-state machine, the
      frame property of failures, idempotence, the state invariant of every
      reachable state, the never-set [pendingBuyOrder], and the equity gap.
    - [Selectors]: every selector; [Array.prototype.sort] as a stable
      insertion sort proved the unique stable sorted permutation; top three
      by volume; the trending join; [createSelector] memoisation as a
      one-entry cache refining the projector.
    - [Effects]: every effect as a map from the trigger and the outcome of
      its service call to one action; [switchMap] as a per-channel
      latest-request state with fresh ids; completion of a superseded
      request dispatches nothing.
    - [Discover]: the discover page as a step function with ordered outputs,
      [trim], and the [debounceTime(300)]/[distinctUntilChanged] pipeline
      as a timed state machine; the re-search-after-clear defect.
    - [Service]: JSON values and localStorage, the constructor's shape
      check, persistence, [toFixed(2)] and the change format, the response
      mappings, the search filter and [placeOrder].
    - [Presentational]: the getters and clicks of the instrument, instrument
      type and stock card components.
    - [BuyOrder]: the buy-order component (rounding with [Math.round],
      clamps, swipe geometry, [completePurchase]); its invariant, the orders
      it can emit, and the equity drift of such an order.
    - [Invest]: the invest page as a step function.
    - [System]: store, effects, service and both pages composed
      ([sys_dispatch], [sys_step]); the end-to-end invariant by rule
      induction, the agreement of the store's and the service's recent
      lists, the order auto-clear and the search round trip.

    What the theorems show, by group: functional behaviour of every reducer
    branch and effect (C1, C2, C6-C10, C14); invariants of reachable states
    (C3, C4, C5, C26, C29, C30); the sort and the selectors (C11-C13);
    last-request-wins (C15); the search box (C16-C18); the service
    (C19-C25); the buy-order component (C26-C28, C31: the equity drift of
    its orders is the revaluation of the held position plus at most a
    cent); the composed system (C29, C30, C32: the post-success auto-clear;
    C33: the search round trip; C34: no order error is ever shown).
    Defects and divergences the models exhibit: a query cannot be searched
    again after clearing it (C18), the constructor carries a stored list
    with a repeated symbol or a sixth entry into the store (C20), a zero
    change is shown without '+' and in red (C21, C22), and placing an order
    never fails, so its error toast is never shown (C25, C34).

    Modelling choices.  JavaScript numbers are exact rationals [Q]; the
    rounding the code writes ([Math.round], [toFixed(2)]) is modelled
    exactly on them.  Strings are Rocq strings; [toLowerCase] and [trim]
    act on ASCII.  Optional fields are [option].  Time is a [nat] of
    milliseconds in the debounce pipeline; in the composed system, timers
    and HTTP answers arrive in any order, which over-approximates the fixed
    delays (100 ms, 500 ms), so invariants proved there hold for every
    timing; facts that need the real order of the delays are not claimed.
    The constructor's restore ([Service.loadRecent]) keeps the entries that
    decode to an instrument (string symbol, name and [changePercent],
    numeric price): an entry that passes the code's shape check but lacks a
    string [changePercent] or has a truthy non-string symbol or name is kept
    by the code and dropped by the model, so the theorems that start from a
    stored list speak of stored lists of instruments.  No fuel is needed: every function is structurally recursive.
    Not modelled: rendering, toasts' presentation, animations and gestures
    beyond whether they exist, routing and dependency injection, and the
    HTTP transport (its answers are inputs). *)

From stdpp Require Export base list strings decidable sets.
From Stdlib Require Export QArith ZArith Lia Lqa.

#[global] Close Scope Q_scope.

Declare Scope stake_scope.
Delimit Scope stake_scope with stake.

Create HintDb stake discriminated.

(** ** JavaScript array helpers *)

(** [Array.prototype.findIndex]: the index of the first element satisfying
    [p], or [-1] when there is none. *)
Fixpoint findIndex_from {A} (p : A -> bool) (l : list A) (i : Z) : Z :=
  match l with
  | [] => (-1)%Z
  | x :: l' => if p x then i else findIndex_from p l' (i + 1)%Z
  end.

Definition findIndex {A} (p : A -> bool) (l : list A) : Z := findIndex_from p l 0%Z.

(** The first element of [l] that satisfies [p], as stdpp's [list_find]
    states it; [findIndex] is its index or [-1]. *)
Definition first_match {A} (p : A -> bool) (l : list A) : option (nat * A) :=
  list_find (fun x => p x = true) l.

(** [a || d] on a possibly absent string: the empty string is falsy. *)
Definition js_or_str (o : option string) (d : string) : string :=
  match o with
  | Some m => if String.eqb m "" then d else m
  | None => d
  end.

Notation "a =s? b" := (String.eqb a b) (at level 70, no associativity) : stake_scope.
Open Scope stake_scope.

(** ** Tactics *)

(** Turn boolean string comparisons into propositions. *)
Ltac string_eqb_to_prop :=
  repeat match goal with
  | H : String.eqb _ _ = true |- _ => apply String.eqb_eq in H
  | H : String.eqb _ _ = false |- _ => apply String.eqb_neq in H
  end.

(** Case on a boolean string comparison in the goal. *)
Ltac case_string_eqb :=
  match goal with
  | |- context [String.eqb ?a ?b] =>
      let E := fresh "Heq" in destruct (String.eqb_spec a b) as [E|E]
  end.

(** ** Lemmas on the helpers *)

Section FindIndex.
Context {A : Type} (p : A -> bool).

Lemma findIndex_from_first_match (l : list A) (i : Z) :
  findIndex_from p l i =
    match first_match p l with
    | Some (j, _) => (i + Z.of_nat j)%Z
    | None => (-1)%Z
    end.
Proof.
  unfold first_match. revert i; induction l as [|x l IH]; intros i; [done|].
  simpl. destruct (p x) eqn:Hp.
  - rewrite decide_True by done. simpl. lia.
  - rewrite decide_False by congruence. rewrite IH.
    destruct (list_find _ l) as [[j y]|]; simpl; [lia|done].
Qed.

Lemma findIndex_first_match (l : list A) :
  findIndex p l =
    match first_match p l with
    | Some (j, _) => Z.of_nat j
    | None => (-1)%Z
    end.
Proof.
  unfold findIndex. rewrite findIndex_from_first_match.
  by destruct (first_match p l) as [[]|].
Qed.

Lemma first_match_None (l : list A) :
  first_match p l = None <-> Forall (fun x => p x = false) l.
Proof.
  unfold first_match. rewrite list_find_None, !Forall_forall.
  split; intros H x Hx; specialize (H x Hx); destruct (p x); done.
Qed.

Lemma first_match_Some (l : list A) j x :
  first_match p l = Some (j, x) ->
  l !! j = Some x /\ p x = true /\
  forall k y, (k < j)%nat -> l !! k = Some y -> p y = false.
Proof.
  unfold first_match. intros (Hl & Hp & Hbefore)%list_find_Some.
  split; [done|split; [done|]].
  intros k y Hk Hy. destruct (p y) eqn:E; [|done].
  exfalso; eapply Hbefore; eauto.
Qed.

Lemma findIndex_bounds (l : list A) :
  (-1 <= findIndex p l < Z.of_nat (length l))%Z.
Proof.
  rewrite findIndex_first_match. destruct (first_match p l) as [[j x]|] eqn:E.
  - apply first_match_Some in E as (Hl & _). apply lookup_lt_Some in Hl. lia.
  - lia.
Qed.
End FindIndex.

Lemma js_or_str_nonempty o d : d <> "" -> js_or_str o d <> "".
Proof.
  intros Hd. destruct o as [m|]; simpl; [|done].
  destruct (String.eqb_spec m ""); done.
Qed.

#[export] Hint Resolve js_or_str_nonempty : stake.

(** An invariant of the accumulator of [fold_left], when every element the
    fold consumes satisfies [Q]. *)
Lemma fold_left_invariant {A B} (P : A -> Prop) (Q : B -> Prop) (f : A -> B -> A) l a :
  (forall a b, P a -> Q b -> P (f a b)) -> Forall Q l -> P a -> P (fold_left f l a).
Proof. intros Hf Hl. revert a. induction Hl; intros a Ha; simpl; auto. Qed.

Lemma findIndex_from_fmap {A B} (p : B -> bool) (g : A -> B) (l : list A) i :
  findIndex_from p (g <$> l) i = findIndex_from (fun x => p (g x)) l i.
Proof. revert i. induction l as [|x l IH]; intros i; simpl; [done|]. by rewrite IH. Qed.

Lemma findIndex_from_ext {A} (p q : A -> bool) (l : list A) i :
  (forall x, p x = q x) -> findIndex_from p l i = findIndex_from q l i.
Proof. intros Hpq. revert i. induction l as [|x l IH]; intros i; simpl; [done|]. by rewrite Hpq, IH. Qed.
