(* ===== verification/Model.v ===== *)
(** The data model: the interfaces of src/src/app/shared/models/stock.model.ts
    and the store state of src/src/app/store/app.state.ts, as Records with
    decidable equality, the initial state, and one setter per state field
    modelling the object spread [{...state, f: v}] of the reducer. *)

From S2P Require Import Prelude.

(** Decidable equality of rationals, used by the record instances below. *)
#[global] Instance Q_eq_dec : EqDecision Q.
Proof. intros [a b] [c d]; unfold Decision; decide equality; apply decide; apply _. Defined.

Record DayRange := mkDayRange { low : Q; high : Q }.

(** [StockInstrument]: the optional [shares] field of the interface is named
    [instrShares] here, because [shares] is the field of [PortfolioHolding]
    in the same name space; no code of the repository reads it. *)
Record StockInstrument := mkStock {
  symbol : string;
  name : string;
  price : Q;
  changePercent : string;
  instrShares : option Q;
  logo : option string;
  marketCap : option Q;
  volume : option Q;
  dayRange : option DayRange
}.

Record TrendingStock := mkTrending { trending_id : Z; trending_symbol : string }.

Record PortfolioHolding := mkHolding {
  stock : StockInstrument;
  shares : Q;
  currentValue : Q
}.

Record Portfolio := mkPortfolio {
  totalEquity : Q;
  holdings : list PortfolioHolding
}.

(** The service tags the results it builds with a [searchType] the interface
    does not declare; the reducer builds untagged results. *)
Inductive SearchType := SearchTag | RecentTag.

Record SearchResult := mkSearchResult {
  result_stock : StockInstrument;
  searchType : option SearchType
}.

Inductive OrderType := Market | Limit.

Record BuyOrder := mkBuyOrder {
  order_stock : StockInstrument;
  order_shares : Q;
  orderType : OrderType;
  limitPrice : option Q;
  estimatedTotal : Q
}.

(** [app.state.ts] *)
Record LoadingState := mkLoading { isLoading : bool; error : option string }.

Record StockState := mkStockState {
  portfolio : option Portfolio;
  portfolioLoading : LoadingState;
  stocks : list StockInstrument;
  stocksLoading : LoadingState;
  trendingStocks : list TrendingStock;
  trendingLoading : LoadingState;
  searchResults : list SearchResult;
  recentSearches : list SearchResult;
  searchLoading : LoadingState;
  searchQuery : string;
  pendingBuyOrder : option BuyOrder;
  buyOrderLoading : LoadingState;
  buyOrderSuccess : bool
}.

Record AppState := mkAppState { app_stocks : StockState }.

#[global] Instance DayRange_eq_dec : EqDecision DayRange.
Proof. solve_decision. Defined.
#[global] Instance StockInstrument_eq_dec : EqDecision StockInstrument.
Proof. solve_decision. Defined.
#[global] Instance TrendingStock_eq_dec : EqDecision TrendingStock.
Proof. solve_decision. Defined.
#[global] Instance PortfolioHolding_eq_dec : EqDecision PortfolioHolding.
Proof. solve_decision. Defined.
#[global] Instance Portfolio_eq_dec : EqDecision Portfolio.
Proof. solve_decision. Defined.
#[global] Instance SearchType_eq_dec : EqDecision SearchType.
Proof. solve_decision. Defined.
#[global] Instance SearchResult_eq_dec : EqDecision SearchResult.
Proof. solve_decision. Defined.
#[global] Instance OrderType_eq_dec : EqDecision OrderType.
Proof. solve_decision. Defined.
#[global] Instance BuyOrder_eq_dec : EqDecision BuyOrder.
Proof. solve_decision. Defined.
#[global] Instance LoadingState_eq_dec : EqDecision LoadingState.
Proof. solve_decision. Defined.
#[global] Instance StockState_eq_dec : EqDecision StockState.
Proof. solve_decision. Defined.

(** The two loading values every branch of the reducer writes. *)
Definition loading_idle : LoadingState := mkLoading false None.
Definition loading_busy : LoadingState := mkLoading true None.
Definition loading_failed (e : string) : LoadingState := mkLoading false (Some e).

Definition initialStockState : StockState := {|
  portfolio := None;
  portfolioLoading := loading_idle;
  stocks := [];
  stocksLoading := loading_idle;
  trendingStocks := [];
  trendingLoading := loading_idle;
  searchResults := [];
  recentSearches := [];
  searchLoading := loading_idle;
  searchQuery := "";
  pendingBuyOrder := None;
  buyOrderLoading := loading_idle;
  buyOrderSuccess := false
|}.

(** ** The spread [{...state, f: v}], one field at a time *)

Definition set_portfolio (p : option Portfolio) (s : StockState) : StockState :=
  mkStockState p (portfolioLoading s) (stocks s) (stocksLoading s) (trendingStocks s)
    (trendingLoading s) (searchResults s) (recentSearches s) (searchLoading s)
    (searchQuery s) (pendingBuyOrder s) (buyOrderLoading s) (buyOrderSuccess s).
Definition set_portfolioLoading (l : LoadingState) (s : StockState) : StockState :=
  mkStockState (portfolio s) l (stocks s) (stocksLoading s) (trendingStocks s)
    (trendingLoading s) (searchResults s) (recentSearches s) (searchLoading s)
    (searchQuery s) (pendingBuyOrder s) (buyOrderLoading s) (buyOrderSuccess s).
Definition set_stocks (x : list StockInstrument) (s : StockState) : StockState :=
  mkStockState (portfolio s) (portfolioLoading s) x (stocksLoading s) (trendingStocks s)
    (trendingLoading s) (searchResults s) (recentSearches s) (searchLoading s)
    (searchQuery s) (pendingBuyOrder s) (buyOrderLoading s) (buyOrderSuccess s).
Definition set_stocksLoading (l : LoadingState) (s : StockState) : StockState :=
  mkStockState (portfolio s) (portfolioLoading s) (stocks s) l (trendingStocks s)
    (trendingLoading s) (searchResults s) (recentSearches s) (searchLoading s)
    (searchQuery s) (pendingBuyOrder s) (buyOrderLoading s) (buyOrderSuccess s).
Definition set_trendingStocks (x : list TrendingStock) (s : StockState) : StockState :=
  mkStockState (portfolio s) (portfolioLoading s) (stocks s) (stocksLoading s) x
    (trendingLoading s) (searchResults s) (recentSearches s) (searchLoading s)
    (searchQuery s) (pendingBuyOrder s) (buyOrderLoading s) (buyOrderSuccess s).
Definition set_trendingLoading (l : LoadingState) (s : StockState) : StockState :=
  mkStockState (portfolio s) (portfolioLoading s) (stocks s) (stocksLoading s)
    (trendingStocks s) l (searchResults s) (recentSearches s) (searchLoading s)
    (searchQuery s) (pendingBuyOrder s) (buyOrderLoading s) (buyOrderSuccess s).
Definition set_searchResults (x : list SearchResult) (s : StockState) : StockState :=
  mkStockState (portfolio s) (portfolioLoading s) (stocks s) (stocksLoading s)
    (trendingStocks s) (trendingLoading s) x (recentSearches s) (searchLoading s)
    (searchQuery s) (pendingBuyOrder s) (buyOrderLoading s) (buyOrderSuccess s).
Definition set_recentSearches (x : list SearchResult) (s : StockState) : StockState :=
  mkStockState (portfolio s) (portfolioLoading s) (stocks s) (stocksLoading s)
    (trendingStocks s) (trendingLoading s) (searchResults s) x (searchLoading s)
    (searchQuery s) (pendingBuyOrder s) (buyOrderLoading s) (buyOrderSuccess s).
Definition set_searchLoading (l : LoadingState) (s : StockState) : StockState :=
  mkStockState (portfolio s) (portfolioLoading s) (stocks s) (stocksLoading s)
    (trendingStocks s) (trendingLoading s) (searchResults s) (recentSearches s) l
    (searchQuery s) (pendingBuyOrder s) (buyOrderLoading s) (buyOrderSuccess s).
Definition set_searchQuery (q : string) (s : StockState) : StockState :=
  mkStockState (portfolio s) (portfolioLoading s) (stocks s) (stocksLoading s)
    (trendingStocks s) (trendingLoading s) (searchResults s) (recentSearches s)
    (searchLoading s) q (pendingBuyOrder s) (buyOrderLoading s) (buyOrderSuccess s).
Definition set_pendingBuyOrder (o : option BuyOrder) (s : StockState) : StockState :=
  mkStockState (portfolio s) (portfolioLoading s) (stocks s) (stocksLoading s)
    (trendingStocks s) (trendingLoading s) (searchResults s) (recentSearches s)
    (searchLoading s) (searchQuery s) o (buyOrderLoading s) (buyOrderSuccess s).
Definition set_buyOrderLoading (l : LoadingState) (s : StockState) : StockState :=
  mkStockState (portfolio s) (portfolioLoading s) (stocks s) (stocksLoading s)
    (trendingStocks s) (trendingLoading s) (searchResults s) (recentSearches s)
    (searchLoading s) (searchQuery s) (pendingBuyOrder s) l (buyOrderSuccess s).
Definition set_buyOrderSuccess (b : bool) (s : StockState) : StockState :=
  mkStockState (portfolio s) (portfolioLoading s) (stocks s) (stocksLoading s)
    (trendingStocks s) (trendingLoading s) (searchResults s) (recentSearches s)
    (searchLoading s) (searchQuery s) (pendingBuyOrder s) (buyOrderLoading s) b.

(** The key the code compares holdings, results and instruments by. *)
Definition holding_symbol (h : PortfolioHolding) : string := symbol (stock h).
Definition result_symbol (r : SearchResult) : string := symbol (result_stock r).
