(* ===== verification/Actions.v ===== *)
(** The actions of src/src/app/store/stock.actions.ts: one constructor per
    [createAction], carrying its [props].  NgRx passes every dispatched
    action to every reducer, so the actions of other feature slices are
    represented by [OtherAction], identified by their type string. *)

From S2P Require Import Prelude Model.

Inductive Action :=
  (* [Portfolio] *)
  | loadPortfolio
  | loadPortfolioSuccess (portfolio : Portfolio)
  | loadPortfolioFailure (error : string)
  (* [Stocks] trending *)
  | loadTrendingStocks
  | loadTrendingStocksSuccess (stocks : list TrendingStock)
  | loadTrendingStocksFailure (error : string)
  (* [Stocks] instruments *)
  | loadStock
  | loadStockSuccess (stocks : list StockInstrument)
  | loadStockFailure (error : string)
  (* [Search] *)
  | searchStocks (query : string)
  | searchStocksSuccess (results : list SearchResult)
  | searchStocksFailure (error : string)
  | clearSearchResults
  | loadRecentSearches
  | loadRecentSearchesSuccess (searches : list SearchResult)
  | addToRecentSearches (stock : StockInstrument)
  (* [Orders] *)
  | clearBuyOrder
  | placeOrder (order : BuyOrder)
  | placeOrderSuccess (order : BuyOrder)
  | placeOrderFailure (error : string)
  (* [UI] *)
  | setSearchQuery (query : string)
  (* an action of another slice *)
  | OtherAction (type : string).

#[global] Instance Action_eq_dec : EqDecision Action.
Proof. solve_decision. Defined.

(** The [type] string each action creator registers. *)
Definition action_type (a : Action) : string :=
  match a with
  | loadPortfolio => "[Portfolio] Load Portfolio"
  | loadPortfolioSuccess _ => "[Portfolio] Load Portfolio Success"
  | loadPortfolioFailure _ => "[Portfolio] Load Portfolio Failure"
  | loadTrendingStocks => "[Stocks] Load Trending Stocks"
  | loadTrendingStocksSuccess _ => "[Stocks] Load Trending Stocks Success"
  | loadTrendingStocksFailure _ => "[Stocks] Load Trending Stocks Failure"
  | loadStock => "[Stocks] Load Stock"
  | loadStockSuccess _ => "[Stocks] Load Stock Success"
  | loadStockFailure _ => "[Stocks] Load Stock Failure"
  | searchStocks _ => "[Search] Search Stocks"
  | searchStocksSuccess _ => "[Search] Search Stocks Success"
  | searchStocksFailure _ => "[Search] Search Stocks Failure"
  | clearSearchResults => "[Search] Clear Search Results"
  | loadRecentSearches => "[Search] Load Recent Searches"
  | loadRecentSearchesSuccess _ => "[Search] Load Recent Searches Success"
  | addToRecentSearches _ => "[Search] Add To Recent Searches"
  | clearBuyOrder => "[Orders] Clear Buy Order"
  | placeOrder _ => "[Orders] Place Order"
  | placeOrderSuccess _ => "[Orders] Place Order Success"
  | placeOrderFailure _ => "[Orders] Place Order Failure"
  | setSearchQuery _ => "[UI] Set Search Query"
  | OtherAction t => t
  end.
