(* ===== verification/Recent.v ===== *)
(** The recency list, written twice in the source with the same algorithm:
    the [addToRecentSearches] branch of src/src/app/store/stock.reducer.ts
    (lines 79-97, on [SearchResult]s keyed by [stock.symbol]) and
    [StockService.addToRecentSearches] in
    src/src/app/shared/services/stock.service.ts (lines 204-210, on
    [StockInstrument]s keyed by [symbol]).  The algorithm is modelled once,
    over any element type with a string key: findIndex, splice the match out,
    unshift the new entry, keep the first five.

    Theorems: the invariant (at most five entries, no two with the same key)
    is preserved; on a list that satisfies it the code refines the
    declarative specification [recent_spec] (drop the key, put the entry
    first, keep five); and after any sequence of additions the list is the
    five most recently added distinct keys, most recent first. *)

From S2P Require Import Prelude Model.

Section Recency.
Context {A : Type} (key : A -> string).

(** The code:
    [const existingIndex = list.findIndex(y => key(y) === key(x));
     let updated = [...list];
     if (existingIndex !== -1) updated.splice(existingIndex, 1);
     updated.unshift(x);
     return updated.slice(0, 5);] *)
Definition addToRecent (x : A) (l : list A) : list A :=
  let existingIndex := findIndex (fun y => key y =s? key x) l in
  let updated :=
    if Z.eqb existingIndex (-1) then l else delete (Z.to_nat existingIndex) l in
  take 5 (x :: updated).

(** The invariant the spec requires of the list: bounded and deduplicated. *)
Definition recent_wf (l : list A) : Prop := length l <= 5 /\ NoDup (key <$> l).

Definition without_key (k : string) (l : list A) : list A :=
  filter (fun y => key y <> k) l.

(** Declarative specification: the new entry first, then the previous
    entries with another key, at most five in all. *)
Definition recent_spec (x : A) (l : list A) : list A :=
  take 5 (x :: without_key (key x) l).

(** The distinct keys of a history, most recent first (the history lists
    the most recent addition first). *)
Fixpoint latest_distinct (h : list A) : list A :=
  match h with
  | [] => []
  | x :: h' => x :: without_key (key x) (latest_distinct h')
  end.

(** A sequence of additions, in order. *)
Definition recent_after (xs : list A) (l : list A) : list A :=
  fold_left (fun acc x => addToRecent x acc) xs l.

(** ** Helper lemmas *)

Lemma without_key_notin k l : k ∉ key <$> l -> without_key k l = l.
Proof.
  induction l as [|y l IH]; intros Hk; [done|].
  rewrite fmap_cons, not_elem_of_cons in Hk. destruct Hk as [Hy Hl].
  unfold without_key. rewrite filter_cons_True by done. f_equal. by apply IH.
Qed.

Lemma without_key_fresh k l : k ∉ key <$> without_key k l.
Proof.
  induction l as [|y l IH]; [set_solver|]. unfold without_key in *.
  rewrite filter_cons. case_decide; [|done].
  rewrite fmap_cons, not_elem_of_cons. auto.
Qed.

Lemma NoDup_keys_sublist l1 l2 :
  l1 `sublist_of` l2 -> NoDup (key <$> l2) -> NoDup (key <$> l1).
Proof. intros Hs Hn. eapply sublist_NoDup; [exact Hn|]. by apply fmap_sublist. Qed.

Lemma NoDup_without_key k l : NoDup (key <$> l) -> NoDup (key <$> without_key k l).
Proof. apply NoDup_keys_sublist, sublist_filter. Qed.

Lemma NoDup_take_keys n l : NoDup (key <$> l) -> NoDup (key <$> take n l).
Proof. apply NoDup_keys_sublist, sublist_take. Qed.

Lemma NoDup_cons_without x l :
  NoDup (key <$> l) -> NoDup (key <$> (x :: without_key (key x) l)).
Proof.
  intros H. rewrite fmap_cons. constructor; [apply without_key_fresh|].
  by apply NoDup_without_key.
Qed.

(** Splicing out the first match of a key is filtering the key out, when
    keys are unique. *)
Lemma delete_match_without_key l j y :
  NoDup (key <$> l) -> l !! j = Some y ->
  delete j l = without_key (key y) l.
Proof.
  revert j; induction l as [|z l IH]; intros j Hn Hj; [done|].
  rewrite fmap_cons in Hn. apply NoDup_cons in Hn as [Hz Hn].
  destruct j as [|j]; simpl in Hj |- *.
  - injection Hj as <-. unfold without_key. rewrite filter_cons_False by auto.
    symmetry. by apply without_key_notin.
  - unfold without_key. rewrite filter_cons_True.
    + f_equal. by apply IH.
    + intros Heq. apply Hz. rewrite Heq. apply list_elem_of_fmap_2.
      by eapply list_elem_of_lookup_2.
Qed.

Lemma without_key_all l k :
  Forall (fun y => (key y =s? k) = false) l -> without_key k l = l.
Proof.
  intros H. apply without_key_notin. intros (y & Hy & Hin)%list_elem_of_fmap.
  rewrite Forall_forall in H. specialize (H y Hin). simpl in H.
  apply String.eqb_neq in H. auto.
Qed.

(** Filtering commutes with truncation when the filtered key occurs at most
    once. *)
Lemma take_without_take n l k :
  NoDup (key <$> l) ->
  take n (without_key k (take (S n) l)) = take n (without_key k l).
Proof.
  revert n; induction l as [|y l IH]; intros n Hn; [done|].
  rewrite fmap_cons in Hn. apply NoDup_cons in Hn as [Hy Hn].
  rewrite firstn_cons. unfold without_key. rewrite !filter_cons.
  case_decide as Hk.
  - destruct n as [|n]; [done|]. simpl. f_equal. by apply IH.
  - assert (key y = k) as <- by (destruct (decide (key y = k)); tauto).
    fold (without_key (key y) (take n l)) (without_key (key y) l).
    rewrite !without_key_notin; [by rewrite take_idemp|done|].
    intros Hin. apply Hy. eapply elem_of_submseteq; [exact Hin|].
    apply sublist_submseteq, fmap_sublist, sublist_take.
Qed.

Lemma latest_distinct_NoDup h : NoDup (key <$> latest_distinct h).
Proof.
  induction h as [|x h IH]; simpl; [constructor|].
  by apply NoDup_cons_without.
Qed.

Lemma latest_distinct_id l : NoDup (key <$> l) -> latest_distinct l = l.
Proof.
  induction l as [|x l IH]; intros Hn; [done|].
  rewrite fmap_cons in Hn. apply NoDup_cons in Hn as [Hx Hn].
  simpl. rewrite IH by done. f_equal. by apply without_key_notin.
Qed.

(** ** Properties *)

(** The code refines its specification on lists with unique keys. *)
Lemma addToRecent_refines x l :
  NoDup (key <$> l) -> addToRecent x l = recent_spec x l.
Proof.
  intros Hn. unfold addToRecent, recent_spec.
  rewrite findIndex_first_match.
  destruct (first_match _ l) as [[j y]|] eqn:E.
  - apply first_match_Some in E as (Hj & Hk & _).
    rewrite Nat2Z.id. destruct (Z.eqb_spec (Z.of_nat j) (-1)) as [?|_]; [lia|].
    apply String.eqb_eq in Hk. rewrite <- Hk.
    by rewrite (delete_match_without_key _ _ y).
  - apply first_match_None in E. simpl. by rewrite without_key_all.
Qed.

Lemma recent_spec_wf x l : NoDup (key <$> l) -> recent_wf (recent_spec x l).
Proof.
  intros Hn. split.
  - unfold recent_spec. rewrite length_take. lia.
  - by apply NoDup_take_keys, NoDup_cons_without.
Qed.

Lemma addToRecent_wf x l : recent_wf l -> recent_wf (addToRecent x l).
Proof. intros [_ Hn]. rewrite addToRecent_refines by done. by apply recent_spec_wf. Qed.
End Recency.

#[export] Hint Resolve NoDup_without_key NoDup_take_keys NoDup_cons_without
  latest_distinct_NoDup recent_spec_wf : stake.

Section RecencyClaims.
Context {A : Type} (key : A -> string).

(** (C4) The recency invariant: adding an entry to a list of at most five
    entries with distinct keys gives such a list again, headed by the new
    entry, and is exactly the declarative specification. *)
Theorem addToRecent_correct (x : A) (l : list A) :
  recent_wf key l ->
  recent_wf key (addToRecent key x l) /\
  head (addToRecent key x l) = Some x /\
  addToRecent key x l = take 5 (x :: without_key key (key x) l).
Proof.
  intros [_ Hn]. rewrite (addToRecent_refines key x l Hn).
  split; [by apply recent_spec_wf|done].
Qed.

(** (C5) History: after any sequence of additions to a valid list, the
    list holds the five most recently added distinct keys, the most recent
    first (adding keeps only the last addition of each key). *)
Theorem recent_after_history (xs : list A) (l0 : list A) :
  recent_wf key l0 ->
  recent_after key xs l0 = take 5 (latest_distinct key (rev xs ++ l0)).
Proof.
  intros [Hlen Hn]. induction xs as [|x xs IH] using rev_ind.
  - simpl. rewrite latest_distinct_id by done. by rewrite take_ge.
  - unfold recent_after in *. rewrite fold_left_app. simpl. rewrite IH.
    rewrite rev_app_distr. simpl.
    rewrite addToRecent_refines by auto with stake. unfold recent_spec.
    rewrite (firstn_cons 4 x). rewrite take_without_take by auto with stake.
    done.
Qed.
End RecencyClaims.

(** Without the invariant the code and the specification part: [splice]
    removes only the first entry with the key, so a list read back with a
    duplicate keeps one copy of it after the addition. *)
Lemma addToRecent_keeps_later_duplicate :
  addToRecent (fun s : string => s) "AAPL" ["AAPL"; "AAPL"] = ["AAPL"; "AAPL"] /\
  ~ NoDup (addToRecent (fun s : string => s) "AAPL" ["AAPL"; "AAPL"]).
Proof. split; [reflexivity|]. simpl. intros H. inversion H; subst. set_solver. Qed.

(** ** Witnesses *)

Lemma addToRecent_correct_witness :
  addToRecent (fun s : string => s) "AAPL" ["MSFT"; "AAPL"; "TSLA"] = ["AAPL"; "MSFT"; "TSLA"] /\
  recent_wf (fun s : string => s) (addToRecent (fun s : string => s) "AAPL" ["MSFT"; "AAPL"; "TSLA"]).
Proof.
  assert (Hwf : recent_wf (fun s : string => s) ["MSFT"; "AAPL"; "TSLA"])
    by (split; [simpl; lia | repeat constructor; set_solver]).
  destruct (addToRecent_correct (fun s : string => s) "AAPL" _ Hwf) as (H1 & _ & H3).
  split; [rewrite H3; vm_compute; reflexivity | exact H1].
Defined.

Lemma recent_after_history_witness :
  recent_after (fun s : string => s) ["A"; "B"; "A"; "C"; "D"; "E"; "F"] [] = ["F"; "E"; "D"; "C"; "A"].
Proof.
  rewrite (recent_after_history (fun s : string => s)) by (split; [simpl; lia | constructor]).
  vm_compute. reflexivity.
Defined.
