(* ===== verification/Reducer.v ===== *)
(** The reducer of src/src/app/store/stock.reducer.ts: [stockReducer] has one
    branch per [on(...)] of [createReducer], each building the spread
    [{...state, ...}] with the setters of [Model]; actions with no [on]
    ([loadRecentSearches], actions of other slices) return the state
    unchanged, as [createReducer] does.  The [placeOrderSuccess] branch is
    split out as [applyOrderFill] because it carries the portfolio arithmetic.

    Theorems: the order-merge and new-position arithmetic, the loading-state
    machine of every resource, failure isolation, the state invariant
    (unique holding symbols, bounded deduplicated recent list) preserved by
    every action, the equity bookkeeping, and the fields no action sets. *)

From S2P Require Import Prelude Model Actions Recent.

Local Open Scope Q_scope.

(** The holding that [placeOrderSuccess] creates when the symbol is new
    (lines 142-146). *)
Definition newHolding (order : BuyOrder) : PortfolioHolding :=
  {| stock := order_stock order;
     shares := order_shares order;
     currentValue := order_shares order * price (order_stock order) |}.

(** The update of an existing holding (lines 131-139): the shares add up, the
    value is recomputed at the order's price, the [stock] record is kept. *)
Definition mergeHolding (existingHolding : PortfolioHolding) (order : BuyOrder)
    : PortfolioHolding :=
  let newTotalShares := shares existingHolding + order_shares order in
  let newCurrentValue := newTotalShares * price (order_stock order) in
  {| stock := stock existingHolding;
     shares := newTotalShares;
     currentValue := newCurrentValue |}.

(** [on(placeOrderSuccess, ...)], lines 112-166.  The index returned by
    findIndex is always in range, so the [None] case of the lookup is never
    taken (lemma [findIndex_lookup] below). *)
Definition applyOrderFill (state : StockState) (order : BuyOrder) : StockState :=
  match portfolio state with
  | None =>
      set_buyOrderSuccess true (set_buyOrderLoading loading_idle state)
  | Some p =>
      let existingHoldingIndex :=
        findIndex (fun h => holding_symbol h =s? symbol (order_stock order)) (holdings p) in
      let updatedHoldings :=
        if Z.eqb existingHoldingIndex (-1) then holdings p ++ [newHolding order]
        else
          let i := Z.to_nat existingHoldingIndex in
          match holdings p !! i with
          | Some existingHolding => <[i := mergeHolding existingHolding order]> (holdings p)
          | None => holdings p
          end in
      let updatedTotalEquity := totalEquity p + estimatedTotal order in
      let updatedPortfolio := {| totalEquity := updatedTotalEquity;
                                 holdings := updatedHoldings |} in
      set_pendingBuyOrder None
        (set_buyOrderSuccess true
          (set_buyOrderLoading loading_idle
            (set_portfolio (Some updatedPortfolio) state)))
  end.

Definition stockReducer (state : StockState) (action : Action) : StockState :=
  match action with
  | loadPortfolio => set_portfolioLoading loading_busy state
  | loadPortfolioSuccess p =>
      set_portfolioLoading loading_idle (set_portfolio (Some p) state)
  | loadPortfolioFailure e => set_portfolioLoading (loading_failed e) state
  | loadTrendingStocks => set_trendingLoading loading_busy state
  | loadTrendingStocksSuccess l =>
      set_trendingLoading loading_idle (set_trendingStocks l state)
  | loadTrendingStocksFailure e => set_trendingLoading (loading_failed e) state
  | loadStock => set_stocksLoading loading_busy state
  | loadStockSuccess l => set_stocksLoading loading_idle (set_stocks l state)
  | loadStockFailure e => set_stocksLoading (loading_failed e) state
  | searchStocks q => set_searchLoading loading_busy (set_searchQuery q state)
  | searchStocksSuccess r =>
      set_searchLoading loading_idle (set_searchResults r state)
  | searchStocksFailure e => set_searchLoading (loading_failed e) state
  | clearSearchResults => set_searchQuery "" (set_searchResults [] state)
  | loadRecentSearchesSuccess l => set_recentSearches l state
  | addToRecentSearches st =>
      set_recentSearches
        (addToRecent result_symbol {| result_stock := st; searchType := None |}
           (recentSearches state)) state
  | clearBuyOrder =>
      set_buyOrderLoading loading_idle
        (set_buyOrderSuccess false (set_pendingBuyOrder None state))
  | placeOrder _ => set_buyOrderLoading loading_busy state
  | placeOrderSuccess o => applyOrderFill state o
  | placeOrderFailure e =>
      set_buyOrderSuccess false (set_buyOrderLoading (loading_failed e) state)
  | setSearchQuery q => set_searchQuery q state
  | loadRecentSearches => state
  | OtherAction _ => state
  end.

(** NgRx calls the reducer with [undefined] before the first action; the
    state then starts from [initialStockState]. *)
Definition stockReducer_init (state : option StockState) (action : Action) : StockState :=
  stockReducer (default initialStockState state) action.

(** ** Resources and their loading slots *)

Inductive Resource := RPortfolio | RStocks | RTrending | RSearch | RBuyOrder.

#[global] Instance Resource_eq_dec : EqDecision Resource.
Proof. solve_decision. Defined.

Definition loadingOf (s : StockState) (r : Resource) : LoadingState :=
  match r with
  | RPortfolio => portfolioLoading s
  | RStocks => stocksLoading s
  | RTrending => trendingLoading s
  | RSearch => searchLoading s
  | RBuyOrder => buyOrderLoading s
  end.

Definition set_loading (r : Resource) (l : LoadingState) (s : StockState) : StockState :=
  match r with
  | RPortfolio => set_portfolioLoading l s
  | RStocks => set_stocksLoading l s
  | RTrending => set_trendingLoading l s
  | RSearch => set_searchLoading l s
  | RBuyOrder => set_buyOrderLoading l s
  end.

(** The trigger, success and failure actions of each resource. *)
Inductive triggers : Action -> Resource -> Prop :=
  | trig_portfolio : triggers loadPortfolio RPortfolio
  | trig_stocks : triggers loadStock RStocks
  | trig_trending : triggers loadTrendingStocks RTrending
  | trig_search q : triggers (searchStocks q) RSearch
  | trig_order o : triggers (placeOrder o) RBuyOrder.

Inductive succeeds : Action -> Resource -> Prop :=
  | succ_portfolio p : succeeds (loadPortfolioSuccess p) RPortfolio
  | succ_stocks l : succeeds (loadStockSuccess l) RStocks
  | succ_trending l : succeeds (loadTrendingStocksSuccess l) RTrending
  | succ_search l : succeeds (searchStocksSuccess l) RSearch
  | succ_order o : succeeds (placeOrderSuccess o) RBuyOrder.

Definition failure_action (r : Resource) (e : string) : Action :=
  match r with
  | RPortfolio => loadPortfolioFailure e
  | RStocks => loadStockFailure e
  | RTrending => loadTrendingStocksFailure e
  | RSearch => searchStocksFailure e
  | RBuyOrder => placeOrderFailure e
  end.

(** ** The state invariant *)

Definition portfolio_wf (p : Portfolio) : Prop := NoDup (holding_symbol <$> holdings p).

Definition state_wf (s : StockState) : Prop :=
  match portfolio s with Some p => portfolio_wf p | None => True end /\
  recent_wf result_symbol (recentSearches s).

(** What the invariant needs of the payloads that replace data wholesale. *)
Definition action_wf (a : Action) : Prop :=
  match a with
  | loadPortfolioSuccess p => portfolio_wf p
  | loadRecentSearchesSuccess l => recent_wf result_symbol l
  | _ => True
  end.

(** The sum of the holdings' values. *)
Definition holdings_value (hs : list PortfolioHolding) : Q :=
  fold_right (fun h acc => currentValue h + acc) 0 hs.

Definition equity_gap (p : Portfolio) : Q := totalEquity p - holdings_value (holdings p).

(** The position a fill of [sym] merges into, found as the [findIndex] of
    line 121 finds it: its shares and its value, both zero when the symbol
    is not held. *)
Definition held_position (p : Portfolio) (sym : string) : Q * Q :=
  match first_match (fun h => holding_symbol h =s? sym) (holdings p) with
  | Some (_, h) => (shares h, currentValue h)
  | None => (0, 0)
  end.

(** ** Concrete inputs used by the witnesses: the scenario of the spec's
    order-merge example (AAPL, 10 shares worth 1000, buy 5 at 110). *)
Definition demo_aapl (px : Q) : StockInstrument :=
  {| symbol := "AAPL"; name := "Apple Inc."; price := px; changePercent := "+2.50%";
     instrShares := None; logo := None; marketCap := None; volume := Some 50;
     dayRange := None |}.
Definition demo_msft : StockInstrument :=
  {| symbol := "MSFT"; name := "Microsoft"; price := 300; changePercent := "-1.00%";
     instrShares := None; logo := None; marketCap := None; volume := Some 40;
     dayRange := None |}.
Definition demo_holding : PortfolioHolding :=
  {| stock := demo_aapl 100; shares := 10; currentValue := 1000 |}.
Definition demo_portfolio : Portfolio :=
  {| totalEquity := 1000; holdings := [demo_holding] |}.
Definition demo_state : StockState := set_portfolio (Some demo_portfolio) initialStockState.
Definition demo_order (s : StockInstrument) (n total : Q) : BuyOrder :=
  {| order_stock := s; order_shares := n; orderType := Market; limitPrice := None;
     estimatedTotal := total |}.

(** ** Helper lemmas *)

(** With unique keys, the first match of a key is the element that has it. *)
Lemma first_match_key {A} (key : A -> string) (l : list A) j x :
  NoDup (key <$> l) -> l !! j = Some x ->
  first_match (fun y => key y =s? key x) l = Some (j, x).
Proof.
  intros Hn Hj. unfold first_match. apply list_find_Some.
  split; [done|split; [apply String.eqb_refl|]].
  intros k y Hk Hlt Hy. apply String.eqb_eq in Hy.
  assert (k = j); [|lia].
  eapply NoDup_lookup; [exact Hn| |]; rewrite list_lookup_fmap; [rewrite Hk|rewrite Hj]; simpl; [|done].
  by rewrite Hy.
Qed.

Lemma applyOrderFill_found s o p j h :
  portfolio s = Some p ->
  first_match (fun h => holding_symbol h =s? symbol (order_stock o)) (holdings p) = Some (j, h) ->
  applyOrderFill s o =
    set_pendingBuyOrder None (set_buyOrderSuccess true (set_buyOrderLoading loading_idle
      (set_portfolio (Some {| totalEquity := totalEquity p + estimatedTotal o;
                              holdings := <[j := mergeHolding h o]> (holdings p) |}) s))).
Proof.
  intros Hp Hm. unfold applyOrderFill. rewrite Hp, findIndex_first_match, Hm.
  destruct (Z.eqb_spec (Z.of_nat j) (-1)); [lia|].
  apply first_match_Some in Hm as (Hj & _). by rewrite Nat2Z.id, Hj.
Qed.

Lemma applyOrderFill_fresh s o p :
  portfolio s = Some p ->
  first_match (fun h => holding_symbol h =s? symbol (order_stock o)) (holdings p) = None ->
  applyOrderFill s o =
    set_pendingBuyOrder None (set_buyOrderSuccess true (set_buyOrderLoading loading_idle
      (set_portfolio (Some {| totalEquity := totalEquity p + estimatedTotal o;
                              holdings := holdings p ++ [newHolding o] |}) s))).
Proof. intros Hp Hm. unfold applyOrderFill. by rewrite Hp, findIndex_first_match, Hm. Qed.

Lemma first_match_None_neq (hs : list PortfolioHolding) k :
  first_match (fun h => holding_symbol h =s? k) hs = None <->
  Forall (fun h => holding_symbol h <> k) hs.
Proof.
  rewrite first_match_None. split; intros H; eapply Forall_impl; try exact H;
    intros h ?; cbn in *; destruct (String.eqb_spec (holding_symbol h) k); congruence.
Qed.

Lemma mergeHolding_symbol h o : holding_symbol (mergeHolding h o) = holding_symbol h.
Proof. done. Qed.

Lemma symbols_insert_merge (hs : list PortfolioHolding) j h o :
  hs !! j = Some h ->
  holding_symbol <$> <[j := mergeHolding h o]> hs = holding_symbol <$> hs.
Proof.
  intros Hj. rewrite list_fmap_insert, mergeHolding_symbol. apply list_insert_id.
  by rewrite list_lookup_fmap, Hj.
Qed.

Lemma holdings_value_app hs h :
  holdings_value (hs ++ [h]) == holdings_value hs + currentValue h.
Proof.
  induction hs as [|h' hs IH]; simpl; [ring|]. rewrite IH. ring.
Qed.

Lemma holdings_value_insert hs j h h' :
  hs !! j = Some h ->
  holdings_value (<[j := h']> hs) == holdings_value hs - currentValue h + currentValue h'.
Proof.
  revert j; induction hs as [|h0 hs IH]; intros [|j] Hj; simpl in *; try done.
  - injection Hj as ->. ring.
  - rewrite (IH j Hj). ring.
Qed.

(** The exact effect of a fill on the gap between the equity and the
    holdings' value, whatever the prices and the estimated total. *)
Lemma orderFill_gap_exact s o p :
  portfolio s = Some p ->
  exists p', portfolio (stockReducer s (placeOrderSuccess o)) = Some p' /\
    equity_gap p' == equity_gap p + estimatedTotal o + (held_position p (symbol (order_stock o))).2
                     - ((held_position p (symbol (order_stock o))).1 + order_shares o)
                       * price (order_stock o).
Proof.
  intros Hs. cbn [stockReducer]. unfold equity_gap, held_position.
  destruct (first_match (fun h => holding_symbol h =s? symbol (order_stock o)) (holdings p))
    as [[j h]|] eqn:Hm.
  - rewrite (applyOrderFill_found _ _ _ _ _ Hs Hm). eexists; split; [reflexivity|]. cbn.
    apply first_match_Some in Hm as (Hj & _).
    rewrite (holdings_value_insert _ _ _ _ Hj). cbn. ring.
  - rewrite (applyOrderFill_fresh _ _ _ Hs Hm). eexists; split; [reflexivity|]. cbn.
    rewrite holdings_value_app. cbn. ring.
Qed.

(** The fill keeps the invariant of the portfolio. *)
Lemma applyOrderFill_wf s o :
  state_wf s -> state_wf (applyOrderFill s o).
Proof.
  intros [Hp Hr]. destruct (portfolio s) as [p|] eqn:Hs.
  2:{ unfold applyOrderFill. rewrite Hs. split; simpl; [by rewrite Hs|done]. }
  destruct (first_match (fun h => holding_symbol h =s? symbol (order_stock o)) (holdings p)) as [[j h]|] eqn:Hm.
  - rewrite (applyOrderFill_found _ _ _ _ _ Hs Hm). split; [|done]. simpl.
    apply first_match_Some in Hm as (Hj & _).
    unfold portfolio_wf; simpl. by rewrite symbols_insert_merge.
  - rewrite (applyOrderFill_fresh _ _ _ Hs Hm). split; [|done]. simpl.
    unfold portfolio_wf in *; simpl. rewrite fmap_app. simpl.
    apply NoDup_app. split; [done|split; [|apply NoDup_singleton]].
    intros k Hk ->%list_elem_of_singleton.
    rewrite first_match_None_neq, Forall_forall in Hm.
    apply list_elem_of_fmap in Hk as (h & Heq & Hin). by apply (Hm h).
Qed.

#[export] Hint Resolve applyOrderFill_wf : stake.

Lemma applyOrderFill_loading s o r :
  loadingOf (applyOrderFill s o) r =
    if decide (r = RBuyOrder) then loading_idle else loadingOf s r.
Proof. unfold applyOrderFill. destruct (portfolio s), r; reflexivity. Qed.

Lemma applyOrderFill_equity s o p :
  portfolio s = Some p ->
  exists p', portfolio (applyOrderFill s o) = Some p' /\
             totalEquity p' = totalEquity p + estimatedTotal o.
Proof. intros Hp. unfold applyOrderFill. rewrite Hp. by eexists. Qed.

Lemma recent_spec_idem {A} (key : A -> string) x l :
  recent_spec key x (recent_spec key x l) = recent_spec key x l.
Proof.
  unfold recent_spec. set (W := without_key key (key x) l).
  rewrite (firstn_cons 4 x W).
  assert (without_key key (key x) (x :: take 4 W) = take 4 W) as ->.
  { unfold without_key at 1. rewrite filter_cons_False by auto.
    apply without_key_notin. intros Hin. apply (without_key_fresh key (key x) l).
    eapply elem_of_submseteq; [exact Hin|].
    apply sublist_submseteq, fmap_sublist, sublist_take. }
  by rewrite (firstn_cons 4 x), take_idemp.
Qed.

Lemma stockReducer_step_wf s a : state_wf s -> action_wf a -> state_wf (stockReducer s a).
Proof.
  intros Hs Ha. destruct a; try exact Hs;
    try (destruct Hs as [Hp Hr]; split; [exact Hp|simpl; exact Hr]).
  - destruct Hs as [_ Hr]. split; [exact Ha|exact Hr].
  - destruct Hs as [Hp Hr]. split; [exact Hp|exact Ha].
  - destruct Hs as [Hp Hr]. split; [exact Hp|].
    by apply addToRecent_wf.
  - by apply applyOrderFill_wf.
Qed.

Lemma initialStockState_wf : state_wf initialStockState.
Proof. split; [done|]. split; simpl; [lia|constructor]. Qed.

Lemma pendingBuyOrder_step s a :
  pendingBuyOrder s = None -> pendingBuyOrder (stockReducer s a) = None.
Proof.
  intros H. destruct a; simpl; try exact H; try reflexivity.
  unfold applyOrderFill. destruct (portfolio s); [reflexivity|exact H].
Qed.

#[export] Hint Resolve stockReducer_step_wf initialStockState_wf pendingBuyOrder_step : stake.

(** ** Properties of the reducer *)

(** (C1) Order merge: when the portfolio already holds the ordered symbol at
    index [j], [placeOrderSuccess] replaces that holding by one whose shares
    are the sum and whose value is the new share count times the order's
    price, leaves every other holding in place, adds [estimatedTotal] to the
    total equity, and sets the success flag, clears the pending order and the
    loading slot. *)
Theorem placeOrderSuccess_merges_holding s o p j h :
  portfolio s = Some p -> portfolio_wf p ->
  holdings p !! j = Some h -> holding_symbol h = symbol (order_stock o) ->
  let s' := stockReducer s (placeOrderSuccess o) in
  exists p', portfolio s' = Some p' /\
    totalEquity p' = totalEquity p + estimatedTotal o /\
    holdings p' !! j = Some {| stock := stock h;
                               shares := shares h + order_shares o;
                               currentValue := (shares h + order_shares o) * price (order_stock o) |} /\
    (forall k, k <> j -> holdings p' !! k = holdings p !! k) /\
    length (holdings p') = length (holdings p) /\
    buyOrderSuccess s' = true /\ pendingBuyOrder s' = None /\ buyOrderLoading s' = loading_idle.
Proof.
  intros Hs Hwf Hj Hsym. simpl.
  pose proof (first_match_key holding_symbol _ _ _ Hwf Hj) as Hm. rewrite Hsym in Hm.
  rewrite (applyOrderFill_found _ _ _ _ _ Hs Hm). eexists; split; [reflexivity|]. simpl.
  split; [done|]. split; [apply list_lookup_insert_eq; by eapply lookup_lt_Some|].
  split; [intros k Hk; by apply list_lookup_insert_ne|].
  by rewrite length_insert.
Qed.

(** (C2) New position: when no holding has the ordered symbol,
    [placeOrderSuccess] appends a holding with the order's shares valued at
    shares times price, and adds [estimatedTotal] to the total equity. *)
Theorem placeOrderSuccess_appends_holding s o p :
  portfolio s = Some p ->
  Forall (fun h => holding_symbol h <> symbol (order_stock o)) (holdings p) ->
  let s' := stockReducer s (placeOrderSuccess o) in
  portfolio s' = Some {| totalEquity := totalEquity p + estimatedTotal o;
                         holdings := holdings p ++
                           [{| stock := order_stock o; shares := order_shares o;
                               currentValue := order_shares o * price (order_stock o) |}] |} /\
  buyOrderSuccess s' = true /\ pendingBuyOrder s' = None /\ buyOrderLoading s' = loading_idle.
Proof.
  intros Hs Hnone. apply first_match_None_neq in Hnone. simpl.
  by rewrite (applyOrderFill_fresh _ _ _ Hs Hnone).
Qed.

(** (C3) Invariant: from the initial state, every sequence of actions whose
    wholesale payloads are well formed leads to a state in which the holdings
    have pairwise distinct symbols and the recent-search list has at most
    five entries with pairwise distinct symbols. *)
Theorem stockReducer_reachable_wf (acts : list Action) :
  Forall action_wf acts -> state_wf (fold_left stockReducer acts initialStockState).
Proof.
  intros Hacts. generalize initialStockState_wf. generalize initialStockState.
  induction Hacts as [|a acts Ha Hacts IH]; intros s Hs; simpl; auto with stake.
Qed.

(** (C6) Loading-state machine: a trigger action ([loadPortfolio],
    [loadStock], [loadTrendingStocks], [searchStocks], [placeOrder]) sets its
    own resource to loading with no error, a success action sets it to idle
    with no error, and neither touches the loading slot of another
    resource. *)
Theorem loading_state_machine s a r r' :
  (triggers a r ->
     loadingOf (stockReducer s a) r' = if decide (r' = r) then loading_busy else loadingOf s r') /\
  (succeeds a r ->
     loadingOf (stockReducer s a) r' = if decide (r' = r) then loading_idle else loadingOf s r').
Proof.
  split; intros H; inversion H; subst; simpl;
    try apply applyOrderFill_loading; destruct r'; reflexivity.
Qed.

(** (C7) Failure isolation: a failure action of any resource records its
    message in that resource's loading slot only; no data field (portfolio,
    instruments, trending list, search results, recent searches, query,
    pending order) and no other loading slot changes. *)
Theorem failure_isolated s r e :
  let s' := stockReducer s (failure_action r e) in
  portfolio s' = portfolio s /\ stocks s' = stocks s /\
  trendingStocks s' = trendingStocks s /\ searchResults s' = searchResults s /\
  recentSearches s' = recentSearches s /\ searchQuery s' = searchQuery s /\
  pendingBuyOrder s' = pendingBuyOrder s /\
  loadingOf s' r = loading_failed e /\
  (forall r', r' <> r -> loadingOf s' r' = loadingOf s r').
Proof.
  destruct r; simpl; repeat split; try done; intros []; done.
Qed.

(** (C8) Idempotence: on a well-formed state, dispatching any action other
    than [placeOrderSuccess] twice in a row gives the same state as
    dispatching it once (in particular [clearSearchResults]); a second
    [placeOrderSuccess] with a non-zero estimated total does change the
    state, since the equity is added again. *)
Theorem reducer_idempotent s a :
  state_wf s ->
  ((forall o, a <> placeOrderSuccess o) ->
     stockReducer (stockReducer s a) a = stockReducer s a) /\
  (forall o p, a = placeOrderSuccess o -> portfolio s = Some p -> ~ (estimatedTotal o == 0) ->
     stockReducer (stockReducer s a) a <> stockReducer s a).
Proof.
  intros [_ [_ Hr]]. split.
  - intros Hnot. destruct a; try (destruct s; reflexivity).
    + simpl. rewrite (addToRecent_refines _ _ (recentSearches s)) by done.
      rewrite addToRecent_refines by (apply recent_spec_wf; done).
      rewrite recent_spec_idem. destruct s; reflexivity.
    + by destruct (Hnot order).
  - intros o p -> Hp Hne Heq. simpl in Heq.
    destruct (applyOrderFill_equity s o p Hp) as (p1 & H1 & E1).
    destruct (applyOrderFill_equity _ o p1 H1) as (p2 & H2 & E2).
    apply (f_equal portfolio) in Heq. rewrite H1, H2 in Heq. injection Heq as ->.
    assert (totalEquity p1 + estimatedTotal o == totalEquity p1) by (rewrite <- E2; reflexivity).
    apply Hne. lra.
Qed.

(** (C9) The pending buy order is never set: no sequence of actions from the
    initial state leaves [pendingBuyOrder] other than [null]; the reducer only
    ever clears it. *)
Theorem pendingBuyOrder_always_null (acts : list Action) :
  pendingBuyOrder (fold_left stockReducer acts initialStockState) = None.
Proof.
  assert (Hinit : pendingBuyOrder initialStockState = None) by reflexivity.
  revert Hinit. generalize initialStockState.
  induction acts as [|a acts IH]; intros s Hs; simpl; auto with stake.
Qed.

(** (C10) Equity bookkeeping: the fill adds [estimatedTotal] to the equity
    and replaces the value of the position in the symbol (zero if none) by
    its new share count times the order's price, so the difference between
    the equity and the sum of the holdings' values is preserved if and only
    if the estimated total plus the old value of that position equals the
    new share count times the price.  Numbers are exact rationals. *)
Theorem orderFill_equity_consistent s o p :
  portfolio s = Some p ->
  exists p', portfolio (stockReducer s (placeOrderSuccess o)) = Some p' /\
    (equity_gap p' == equity_gap p <->
     estimatedTotal o + (held_position p (symbol (order_stock o))).2 ==
       ((held_position p (symbol (order_stock o))).1 + order_shares o) * price (order_stock o)).
Proof.
  intros Hs. destruct (orderFill_gap_exact s o p Hs) as (p' & Hp' & Hg).
  exists p'. split; [done|]. rewrite Hg.
  generalize (equity_gap p) (estimatedTotal o) ((held_position p (symbol (order_stock o))).2)
    (((held_position p (symbol (order_stock o))).1 + order_shares o) * price (order_stock o)).
  intros g e v k. split; intros; lra.
Qed.

(** ** Witnesses *)

(** The spec's example: 10 AAPL worth 1000, buy 5 at 110 for 550: the holding
    becomes 15 shares worth 1650 and the equity grows by 550. *)
Lemma placeOrderSuccess_merges_holding_witness :
  exists p', portfolio (stockReducer demo_state (placeOrderSuccess (demo_order (demo_aapl 110) 5 550))) = Some p' /\
    totalEquity p' = 1550 /\
    holdings p' !! 0%nat = Some {| stock := demo_aapl 100; shares := 15; currentValue := 1650 |}.
Proof.
  destruct (placeOrderSuccess_merges_holding demo_state (demo_order (demo_aapl 110) 5 550)
              demo_portfolio 0 demo_holding) as (p' & Hp & He & Hh & _);
    [reflexivity | cbn; apply NoDup_singleton | reflexivity | reflexivity |].
  exists p'. split; [exact Hp|]. split; [rewrite He; reflexivity|]. rewrite Hh. reflexivity.
Defined.

Lemma placeOrderSuccess_appends_holding_witness :
  portfolio (stockReducer demo_state (placeOrderSuccess (demo_order demo_msft 2 600))) =
    Some {| totalEquity := 1600;
            holdings := [demo_holding; {| stock := demo_msft; shares := 2; currentValue := 600 |}] |}.
Proof.
  destruct (placeOrderSuccess_appends_holding demo_state (demo_order demo_msft 2 600) demo_portfolio)
    as [H _]; [reflexivity | repeat constructor; cbn; discriminate |].
  exact H.
Defined.

Lemma stockReducer_reachable_wf_witness :
  let acts := [loadPortfolioSuccess demo_portfolio; addToRecentSearches (demo_aapl 100);
               addToRecentSearches demo_msft; placeOrderSuccess (demo_order demo_msft 2 600)] in
  Forall action_wf acts /\ state_wf (fold_left stockReducer acts initialStockState).
Proof.
  assert (H : Forall action_wf [loadPortfolioSuccess demo_portfolio; addToRecentSearches (demo_aapl 100);
               addToRecentSearches demo_msft; placeOrderSuccess (demo_order demo_msft 2 600)])
    by (repeat constructor; set_solver).
  split; [exact H | apply stockReducer_reachable_wf; exact H].
Defined.

Lemma loading_state_machine_witness :
  loadingOf (stockReducer demo_state loadStock) RStocks = loading_busy /\
  loadingOf (stockReducer demo_state (loadStockSuccess [demo_msft])) RStocks = loading_idle.
Proof.
  split.
  - destruct (loading_state_machine demo_state loadStock RStocks RStocks) as [H _].
    rewrite (H trig_stocks). reflexivity.
  - destruct (loading_state_machine demo_state (loadStockSuccess [demo_msft]) RStocks RStocks) as [_ H].
    rewrite (H (succ_stocks _)). reflexivity.
Defined.

Lemma reducer_idempotent_witness :
  stockReducer (stockReducer demo_state clearSearchResults) clearSearchResults =
    stockReducer demo_state clearSearchResults /\
  stockReducer (stockReducer demo_state (placeOrderSuccess (demo_order demo_msft 2 600)))
      (placeOrderSuccess (demo_order demo_msft 2 600)) <>
    stockReducer demo_state (placeOrderSuccess (demo_order demo_msft 2 600)).
Proof.
  assert (Hwf : state_wf demo_state)
    by (split; [cbn; apply NoDup_singleton | split; [simpl; lia | constructor]]).
  destruct (reducer_idempotent demo_state clearSearchResults Hwf) as [H1 _].
  destruct (reducer_idempotent demo_state (placeOrderSuccess (demo_order demo_msft 2 600)) Hwf) as [_ H2].
  split.
  - apply H1. discriminate.
  - apply (H2 _ demo_portfolio eq_refl eq_refl). vm_compute. discriminate.
Defined.

(** Buying 5 AAPL at 100 for 500 onto 10 shares worth 1000 keeps the gap;
    the same order for 501 does not. *)
Lemma orderFill_equity_consistent_witness :
  (exists p', portfolio (stockReducer demo_state (placeOrderSuccess (demo_order (demo_aapl 100) 5 500))) = Some p' /\
              equity_gap p' == equity_gap demo_portfolio) /\
  (exists p', portfolio (stockReducer demo_state (placeOrderSuccess (demo_order (demo_aapl 100) 5 501))) = Some p' /\
              ~ equity_gap p' == equity_gap demo_portfolio).
Proof.
  split.
  - destruct (orderFill_equity_consistent demo_state (demo_order (demo_aapl 100) 5 500) demo_portfolio)
      as (p' & Hp & Hiff); [reflexivity|].
    exists p'. split; [exact Hp|]. apply Hiff. vm_compute. reflexivity.
  - destruct (orderFill_equity_consistent demo_state (demo_order (demo_aapl 100) 5 501) demo_portfolio)
      as (p' & Hp & Hiff); [reflexivity|].
    exists p'. split; [exact Hp|]. rewrite Hiff. vm_compute. discriminate.
Defined.
