(* ===== verification/Selectors.v ===== *)
(** The selectors of src/src/app/store/stock.selectors.ts.

    - The projections ([selectPortfolio], [selectStocks], ...) read one field
      of the feature state [stocks] of [AppState].
    - [selectTop3StocksByVolume] filters the instruments with a volume, sorts
      them by [(b.volume || 0) - (a.volume || 0)] and keeps three.  The sort is
      [Array.prototype.sort], which ECMAScript 2019 requires to be stable; it is
      modelled by the stable insertion sort [jsSort] (a comparator result
      [<= 0] keeps the earlier element first), and [jsSort_stable_unique]
      shows that any stable sorted permutation is this one.
    - [selectTrendingStocks] joins the trending list onto the instruments by
      symbol with [find], maps misses to [null] and filters them out.
    - [selectDashboardData] and [selectSearchData] combine these.
    - [createSelector] memoises on its inputs: [memoCall] is the cache of one
      selector, and [memoCall_refines] shows it always returns what the
      projector would compute, recomputing only on a new input. *)

From S2P Require Import Prelude Model.
From Stdlib Require Import Sorting.Sorted.

Local Open Scope Q_scope.

#[global] Instance Qeq_decision (x y : Q) : Decision (x == y) := Qeq_dec x y.
#[global] Instance Qle_decision (x y : Q) : Decision (x <= y) :=
  match Qlt_le_dec y x with left H => right (Qlt_not_le _ _ H) | right H => left H end.

(** ** The feature selector and the projections *)

Definition selectStockState (s : AppState) : StockState := app_stocks s.
Definition selectPortfolio (s : AppState) : option Portfolio := portfolio (selectStockState s).
Definition selectStocks (s : AppState) : list StockInstrument := stocks (selectStockState s).
Definition selectTrendingStocksList (s : AppState) : list TrendingStock :=
  trendingStocks (selectStockState s).
Definition selectPortfolioLoading (s : AppState) : bool :=
  isLoading (portfolioLoading (selectStockState s)).
Definition selectTrendingLoading (s : AppState) : bool :=
  isLoading (trendingLoading (selectStockState s)).
Definition selectSearchResults (s : AppState) : list SearchResult :=
  searchResults (selectStockState s).
Definition selectRecentSearches (s : AppState) : list SearchResult :=
  recentSearches (selectStockState s).
Definition selectSearchLoading (s : AppState) : bool :=
  isLoading (searchLoading (selectStockState s)).
Definition selectSearchQuery (s : AppState) : string := searchQuery (selectStockState s).
Definition selectPortfolioError (s : AppState) : option string :=
  error (portfolioLoading (selectStockState s)).
Definition selectStocksLoading (s : AppState) : bool := isLoading (stocksLoading (selectStockState s)).
Definition selectStocksError (s : AppState) : option string :=
  error (stocksLoading (selectStockState s)).
Definition selectTrendingError (s : AppState) : option string :=
  error (trendingLoading (selectStockState s)).
Definition selectSearchError (s : AppState) : option string :=
  error (searchLoading (selectStockState s)).
Definition selectPendingBuyOrder (s : AppState) : option BuyOrder :=
  pendingBuyOrder (selectStockState s).
Definition selectBuyOrderLoading (s : AppState) : bool :=
  isLoading (buyOrderLoading (selectStockState s)).
Definition selectBuyOrderSuccess (s : AppState) : bool := buyOrderSuccess (selectStockState s).
Definition selectBuyOrderError (s : AppState) : option string :=
  error (buyOrderLoading (selectStockState s)).

(** ** [Array.prototype.sort] with a comparator, stable *)

Section JsSort.
Context {A : Type} (cmp : A -> A -> Q).

(** Insert [x], which precedes every element of [l] in the input, before
    the first [y] it does not sort after ([cmp x y <= 0]). *)
Fixpoint jsInsert (x : A) (l : list A) : list A :=
  match l with
  | [] => [x]
  | y :: ys => if Qle_bool (cmp x y) 0 then x :: y :: ys else y :: jsInsert x ys
  end.

Fixpoint jsSort (l : list A) : list A :=
  match l with
  | [] => []
  | x :: xs => jsInsert x (jsSort xs)
  end.
End JsSort.

(** [(b.volume || 0) - (a.volume || 0)] *)
Definition volume_or_zero (st : StockInstrument) : Q :=
  match volume st with Some v => v | None => 0 end.

Definition byVolumeDesc (a b : StockInstrument) : Q := volume_or_zero b - volume_or_zero a.

(** Lines 63-71. *)
Definition selectTop3StocksByVolume_proj (stocks : list StockInstrument) : list StockInstrument :=
  take 3 (jsSort byVolumeDesc (filter (fun st => is_Some (volume st)) stocks)).

Definition selectTop3StocksByVolume (s : AppState) : list StockInstrument :=
  selectTop3StocksByVolume_proj (selectStocks s).

(** ** The trending join *)

(** [Array.prototype.find]. *)
Fixpoint jsFind {A} (p : A -> bool) (l : list A) : option A :=
  match l with
  | [] => None
  | x :: l' => if p x then Some x else jsFind p l'
  end.

(** [.filter(stock => stock !== null)] *)
Fixpoint filter_nonnull {A} (l : list (option A)) : list A :=
  match l with
  | [] => []
  | Some x :: l' => x :: filter_nonnull l'
  | None :: l' => filter_nonnull l'
  end.

(** Lines 42-50. *)
Definition selectTrendingStocks_proj (trendingList : list TrendingStock)
    (allStocks : list StockInstrument) : list StockInstrument :=
  filter_nonnull
    (map (fun trending => jsFind (fun st => symbol st =s? trending_symbol trending) allStocks)
         trendingList).

Definition selectTrendingStocks (s : AppState) : list StockInstrument :=
  selectTrendingStocks_proj (selectTrendingStocksList s) (selectStocks s).

(** ** Combined views *)

Record DashboardData := mkDashboard {
  dash_portfolio : option Portfolio;
  dash_trendingStocks : list StockInstrument;
  dash_isLoading : bool
}.

Definition selectDashboardData (s : AppState) : DashboardData :=
  {| dash_portfolio := selectPortfolio s;
     dash_trendingStocks := selectTrendingStocks s;
     dash_isLoading := selectPortfolioLoading s || selectTrendingLoading s |}.

Record SearchData := mkSearchData {
  sd_searchResults : list SearchResult;
  sd_recentSearches : list SearchResult;
  sd_isLoading : bool;
  sd_query : string
}.

Definition selectSearchData (s : AppState) : SearchData :=
  {| sd_searchResults := selectSearchResults s;
     sd_recentSearches := selectRecentSearches s;
     sd_isLoading := selectSearchLoading s;
     sd_query := selectSearchQuery s |}.

(** ** Memoisation of [createSelector] *)

Section Memo.
Context {I O : Type} `{EqDecision I} (projector : I -> O).

(** The last input and result, if any. *)
Definition MemoCache := option (I * O).

(** One call: on the same input as last time, the cached result and no
    recomputation; otherwise the projector is run and cached.  The boolean
    says whether the projector ran. *)
Definition memoCall (c : MemoCache) (x : I) : O * bool * MemoCache :=
  match c with
  | Some (x', y) => if decide (x = x') then (y, false, c)
                    else (projector x, true, Some (x, projector x))
  | None => (projector x, true, Some (x, projector x))
  end.

Definition memo_consistent (c : MemoCache) : Prop :=
  match c with Some (x, y) => y = projector x | None => True end.
End Memo.

(** A descending comparator [key b - key a], of which [byVolumeDesc] is one. *)
Definition desc_by {A} (key : A -> Q) (a b : A) : Q := key b - key a.

(** ** Concrete inputs used by the witnesses *)
Definition fx_stock (sym : string) (vol : option Q) : StockInstrument :=
  {| symbol := sym; name := sym; price := 10; changePercent := "+1.00%";
     instrShares := None; logo := None; marketCap := None; volume := vol;
     dayRange := None |}.
Definition fx_stocks : list StockInstrument :=
  [fx_stock "AAPL" (Some 50); fx_stock "MSFT" (Some 40); fx_stock "GOOG" None;
   fx_stock "TSLA" (Some 50); fx_stock "AMZN" (Some 10)].
Definition fx_trending : list TrendingStock :=
  [{| trending_id := 1; trending_symbol := "TSLA" |};
   {| trending_id := 2; trending_symbol := "NFLX" |};
   {| trending_id := 3; trending_symbol := "AAPL" |}].

(** ** Sorting lemmas *)

Section SortFacts.
Context {A : Type} (key : A -> Q).

(** [a] may precede [b] in a descending order. *)
Definition geq_key (a b : A) : Prop := key b <= key a.

(** The elements with key [v], in order: the equivalence class of the
    comparator that stability speaks about. *)
Definition key_class (v : Q) (l : list A) : list A := filter (fun y => key y == v) l.

Lemma desc_le x y : Qle_bool (desc_by key x y) 0 = true <-> key y <= key x.
Proof. unfold desc_by. rewrite Qle_bool_iff. split; intros; lra. Qed.

Lemma desc_gt x y : Qle_bool (desc_by key x y) 0 = false -> key x < key y.
Proof.
  intros H. destruct (Qlt_le_dec (key x) (key y)) as [?|Hle]; [done|].
  apply desc_le in Hle. congruence.
Qed.

Lemma jsInsert_perm x l : jsInsert (desc_by key) x l ≡ₚ x :: l.
Proof.
  induction l as [|y l IH]; simpl; [done|].
  destruct (Qle_bool _ _); [done|]. rewrite IH. apply Permutation_swap.
Qed.

Lemma jsSort_perm l : jsSort (desc_by key) l ≡ₚ l.
Proof. induction l as [|x l IH]; simpl; [done|]. by rewrite jsInsert_perm, IH. Qed.

Lemma jsInsert_HdRel a x l :
  HdRel geq_key a l -> geq_key a x -> HdRel geq_key a (jsInsert (desc_by key) x l).
Proof.
  intros Hd Hax. destruct l as [|y l]; simpl; [by constructor|].
  destruct (Qle_bool _ _); constructor; [done|]. by inversion Hd.
Qed.

Lemma jsInsert_sorted x l : Sorted geq_key l -> Sorted geq_key (jsInsert (desc_by key) x l).
Proof.
  induction 1 as [|y l Hl IH Hd]; simpl; [by repeat constructor|].
  destruct (Qle_bool _ _) eqn:E.
  - constructor; [by constructor|]. constructor. by apply desc_le.
  - constructor; [done|]. apply jsInsert_HdRel; [done|].
    apply desc_gt in E. unfold geq_key. lra.
Qed.

Lemma jsSort_sorted l : Sorted geq_key (jsSort (desc_by key) l).
Proof. induction l; simpl; [constructor|]. by apply jsInsert_sorted. Qed.

(** Inserting an element keeps its class order: the elements it jumps over
    have a strictly larger key. *)
Lemma jsInsert_key_class v x l :
  key_class v (jsInsert (desc_by key) x l) = key_class v (x :: l).
Proof.
  induction l as [|y l IH]; simpl; [done|].
  destruct (Qle_bool _ _) eqn:E; [done|]. apply desc_gt in E.
  unfold key_class in *. rewrite filter_cons, IH, !filter_cons.
  repeat case_decide; try done. exfalso. lra.
Qed.

Lemma jsSort_key_class v l : key_class v (jsSort (desc_by key) l) = key_class v l.
Proof.
  induction l as [|x l IH]; simpl; [done|].
  rewrite jsInsert_key_class. unfold key_class in *. rewrite !filter_cons, IH. done.
Qed.

Lemma geq_key_trans : Transitive geq_key.
Proof. intros a b c H1 H2. unfold geq_key in *. lra. Qed.

Lemma sorted_head_max y l x :
  Sorted geq_key (y :: l) -> x ∈ y :: l -> key x <= key y.
Proof.
  intros Hs Hx. apply Sorted_StronglySorted in Hs; [|apply geq_key_trans].
  inversion Hs as [|? ? _ Hall]; subst. apply elem_of_cons in Hx as [->|Hx]; [lra|].
  rewrite Forall_forall in Hall. exact (Hall x Hx).
Qed.

Lemma key_class_elem v x l : key x == v -> x ∈ l -> x ∈ key_class v l.
Proof. intros Hv Hx. unfold key_class. by apply list_elem_of_filter. Qed.

Lemma key_class_elem_inv v x l : x ∈ key_class v l -> x ∈ l.
Proof. unfold key_class. by intros [_ ?]%list_elem_of_filter. Qed.

(** Two descending lists with the same classes are equal. *)
Lemma sorted_same_classes l1 l2 :
  Sorted geq_key l1 -> Sorted geq_key l2 ->
  (forall v, key_class v l1 = key_class v l2) -> l1 = l2.
Proof.
  revert l2; induction l1 as [|x l1 IH]; intros l2 H1 H2 Hc.
  - destruct l2 as [|y l2]; [done|]. exfalso.
    assert (y ∈ key_class (key y) (y :: l2)) as Hy
      by (apply key_class_elem; [reflexivity|left]).
    rewrite <- Hc in Hy. inversion Hy.
  - destruct l2 as [|y l2].
    { exfalso. assert (x ∈ key_class (key x) (x :: l1)) as Hx
        by (apply key_class_elem; [reflexivity|left]).
      rewrite Hc in Hx. inversion Hx. }
    assert (Hxy : key x == key y).
    { apply Qle_antisym.
      - apply (sorted_head_max y l2 x H2). apply (key_class_elem_inv (key x)).
        rewrite <- Hc. apply key_class_elem; [reflexivity|left].
      - apply (sorted_head_max x l1 y H1). apply (key_class_elem_inv (key y)).
        rewrite Hc. apply key_class_elem; [reflexivity|left]. }
    pose proof (Hc (key x)) as Hx. unfold key_class in Hx.
    rewrite !filter_cons_True in Hx by (try reflexivity; by rewrite Hxy).
    injection Hx as <- _. f_equal.
    apply IH; [by inversion H1|by inversion H2|].
    intros v. specialize (Hc v). unfold key_class in *. rewrite !filter_cons in Hc.
    case_decide; [by injection Hc|done].
Qed.
End SortFacts.

#[export] Hint Resolve jsSort_perm jsSort_sorted jsSort_key_class : stake.

Lemma byVolumeDesc_desc : byVolumeDesc = desc_by volume_or_zero.
Proof. reflexivity. Qed.

Lemma take_app_drop_Forall {A} (P : A -> A -> Prop) n (l : list A) :
  StronglySorted P l -> Forall (fun y => Forall (fun x => P x y) (take n l)) (drop n l).
Proof.
  revert l; induction n as [|n IH]; intros l Hs; simpl.
  - apply Forall_forall. intros. constructor.
  - destruct l as [|x l]; [constructor|]. inversion Hs as [|? ? Hs' Hall]; subst. simpl.
    specialize (IH l Hs'). rewrite Forall_forall in IH |- *. intros y Hy.
    constructor; [|by apply IH].
    rewrite Forall_forall in Hall. apply Hall.
    eapply elem_of_submseteq; [exact Hy|]. apply sublist_submseteq, sublist_drop.
Qed.

Lemma StronglySorted_take {A} (R : A -> A -> Prop) n (l : list A) :
  StronglySorted R l -> StronglySorted R (take n l).
Proof.
  revert l; induction n as [|n IH]; intros [|x l] Hs; simpl; [constructor..|].
  inversion Hs as [|? ? Hs' Hall]; subst. constructor; [by apply IH|].
  rewrite Forall_forall in Hall |- *. intros y Hy. apply Hall.
  eapply elem_of_submseteq; [exact Hy|]. apply sublist_submseteq, sublist_take.
Qed.

(** [Array.prototype.find] is the first match, as [list_find] states it. *)
Lemma jsFind_first_match {A} (p : A -> bool) (l : list A) :
  jsFind p l = snd <$> first_match p l.
Proof.
  unfold first_match. induction l as [|x l IH]; simpl; [done|].
  destruct (p x) eqn:E.
  - by rewrite decide_True.
  - rewrite decide_False by congruence. rewrite IH. by destruct (list_find _ l) as [[]|].
Qed.

Lemma filter_nonnull_app {A} (l1 l2 : list (option A)) :
  filter_nonnull (l1 ++ l2) = filter_nonnull l1 ++ filter_nonnull l2.
Proof. induction l1 as [|[x|] l1 IH]; simpl; by rewrite ?IH. Qed.

(** ** Properties of the selectors *)

(** The modelled [Array.prototype.sort] with a descending comparator
    [key b - key a] returns a list if and only if that list is sorted by
    descending key, is a permutation of the input, and keeps the input order
    among elements of equal key. *)
Lemma jsSort_stable_unique {A} (key : A -> Q) (l l' : list A) :
  (Sorted (geq_key key) l' /\ l' ≡ₚ l /\ forall v, key_class key v l' = key_class key v l) <->
  l' = jsSort (desc_by key) l.
Proof.
  split.
  - intros (Hs & _ & Hc). apply (sorted_same_classes key); [done|apply jsSort_sorted|].
    intros v. by rewrite Hc, jsSort_key_class.
  - intros ->. split; [apply jsSort_sorted|]. split; [apply jsSort_perm|].
    intros v. apply jsSort_key_class.
Qed.

(** (C11) The sort of [selectTop3StocksByVolume] (line 68), with the
    program's comparator [(b.volume || 0) - (a.volume || 0)], orders the
    instruments that have a volume by descending volume, keeping the state's
    order among equal volumes: its result is a list if and only if that list
    is sorted by descending volume, is a permutation of those instruments,
    and keeps their order within each volume. *)
Theorem selectTop3_sort_order (stocks l' : list StockInstrument) :
  let withVolume := filter (fun st => is_Some (volume st)) stocks in
  (Sorted (geq_key volume_or_zero) l' /\ l' ≡ₚ withVolume /\
   forall v, key_class volume_or_zero v l' = key_class volume_or_zero v withVolume) <->
  jsSort byVolumeDesc withVolume = l'.
Proof.
  cbv zeta. rewrite byVolumeDesc_desc, jsSort_stable_unique. split; congruence.
Qed.

(** (C12) Top three by volume: the selector returns the first
    [min 3 n] instruments of the [n] that have a volume, in descending order
    of volume, each of them an instrument of the state with a volume; every
    instrument with a volume that is left out has a volume no larger than
    any returned one, and instruments of equal volume keep their order in the
    state. *)
Theorem selectTop3_spec (stocks : list StockInstrument) :
  let withVolume := filter (fun st => is_Some (volume st)) stocks in
  let top := selectTop3StocksByVolume_proj stocks in
  length top = Nat.min 3 (length withVolume) /\
  Sorted (geq_key volume_or_zero) top /\
  Forall (fun st => is_Some (volume st) /\ st ∈ stocks) top /\
  exists rest, top ++ rest ≡ₚ withVolume /\
    Forall (fun y => Forall (fun x => volume_or_zero y <= volume_or_zero x) top) rest /\
    forall v, key_class volume_or_zero v (top ++ rest) = key_class volume_or_zero v withVolume.
Proof.
  cbv zeta. unfold selectTop3StocksByVolume_proj. rewrite byVolumeDesc_desc.
  set (W := filter _ stocks). set (S := jsSort _ W).
  assert (HS : StronglySorted (geq_key volume_or_zero) S)
    by (apply Sorted_StronglySorted; [apply geq_key_trans|apply jsSort_sorted]).
  assert (HP : S ≡ₚ W) by apply jsSort_perm.
  split; [rewrite length_take, HP; lia|].
  split; [by apply StronglySorted_Sorted, StronglySorted_take|].
  split.
  - apply Forall_forall. intros st Hst.
    assert (st ∈ W) as HW.
    { rewrite <- HP. eapply elem_of_submseteq; [exact Hst|].
      apply sublist_submseteq, sublist_take. }
    by apply list_elem_of_filter in HW.
  - exists (drop 3 S). rewrite take_drop. split; [done|].
    split; [by apply take_app_drop_Forall|]. intros v. apply jsSort_key_class.
Qed.

(** (C13) Trending join: the join of a concatenation is the concatenation of
    the joins (the output keeps the trending list's order), and one trending
    entry yields nothing when no instrument has its symbol, and otherwise
    exactly the first instrument with its symbol. *)
Theorem selectTrendingStocks_join (tl1 tl2 : list TrendingStock) (t : TrendingStock)
    (al : list StockInstrument) :
  selectTrendingStocks_proj (tl1 ++ tl2) al =
    selectTrendingStocks_proj tl1 al ++ selectTrendingStocks_proj tl2 al /\
  (selectTrendingStocks_proj [t] al = [] <->
     Forall (fun st => symbol st <> trending_symbol t) al) /\
  (forall st, selectTrendingStocks_proj [t] al = [st] <->
     exists i, al !! i = Some st /\ symbol st = trending_symbol t /\
       forall j st', (j < i)%nat -> al !! j = Some st' -> symbol st' <> trending_symbol t).
Proof.
  unfold selectTrendingStocks_proj. split; [by rewrite map_app, filter_nonnull_app|].
  simpl. rewrite jsFind_first_match. unfold first_match.
  split.
  - destruct (list_find _ al) as [[i x]|] eqn:E; simpl; split; intros H; try done.
    + exfalso. apply list_find_Some in E as (Hi & Hx & _).
      rewrite Forall_lookup in H. apply (H i x Hi). by apply String.eqb_eq.
    + apply list_find_None in E. eapply Forall_impl; [exact E|].
      intros st Hst Heq. apply Hst. by apply String.eqb_eq.
  - intros st. destruct (list_find _ al) as [[i x]|] eqn:E; simpl.
    + apply list_find_Some in E as (Hi & Hx & Hb). split.
      * intros [= ->]. exists i. split; [done|]. split; [by apply String.eqb_eq|].
        intros j st' Hj Hst' Heq. apply (Hb j st' Hst' Hj). by apply String.eqb_eq.
      * intros (i' & Hi' & Hs & Hb').
        assert (i = i') as <-.
        { destruct (Nat.lt_trichotomy i i') as [Hlt|[?|Hlt]]; [|done|].
          - exfalso. apply (Hb' i x Hlt Hi). by apply String.eqb_eq.
          - exfalso. apply (Hb i' st Hi' Hlt). by apply String.eqb_eq. }
        congruence.
    + split; [done|]. intros (i & Hi & Hs & _).
      apply list_find_None in E. rewrite Forall_forall in E. exfalso. apply (E st).
      * by eapply list_elem_of_lookup_2.
      * by apply String.eqb_eq.
Qed.

(** Memoisation refines the projector, for any projector. *)
Lemma memoCall_refines {I O} `{EqDecision I} (projector : I -> O)
    (c : MemoCache) (x : I) (y : O) (b : bool) (c' : MemoCache) :
  memo_consistent projector c -> memoCall projector c x = (y, b, c') ->
  y = projector x /\ memo_consistent projector c' /\
  (b = false <-> exists y0, c = Some (x, y0)) /\
  memoCall projector c' x = (y, false, c').
Proof.
  intros Hc Hcall. destruct c as [[x' y']|]; simpl in *.
  - case_decide as Hx; injection Hcall as <- <- <-.
    + subst x'. simpl. rewrite decide_True by done. naive_solver.
    + simpl. rewrite decide_True by done. split; [done|]. split; [done|].
      split; [|done]. split; [done|]. intros [y0 Hy0]. congruence.
  - injection Hcall as <- <- <-. simpl. rewrite decide_True by done.
    split; [done|]. split; [done|]. split; [|done]. split; [done|]. by intros [y0 ?].
Qed.

(** ** Witnesses *)

Lemma selectTop3_spec_witness :
  selectTop3StocksByVolume_proj fx_stocks =
    [fx_stock "AAPL" (Some 50); fx_stock "TSLA" (Some 50); fx_stock "MSFT" (Some 40)] /\
  length (selectTop3StocksByVolume_proj fx_stocks) = 3%nat.
Proof.
  destruct (selectTop3_spec fx_stocks) as (Hlen & _).
  split; [vm_compute; reflexivity|]. rewrite Hlen. reflexivity.
Defined.

(** The instruments with a volume in the order the selector sorts them. *)
Lemma selectTop3_sort_order_witness :
  let W := filter (fun st => is_Some (volume st)) fx_stocks in
  let L := [fx_stock "AAPL" (Some 50); fx_stock "TSLA" (Some 50); fx_stock "MSFT" (Some 40);
            fx_stock "AMZN" (Some 10)] in
  Sorted (geq_key volume_or_zero) L /\ L ≡ₚ W.
Proof.
  intros W L.
  assert (H : jsSort byVolumeDesc W = L) by (vm_compute; reflexivity).
  destruct (proj2 (selectTop3_sort_order fx_stocks L) H) as (Hs & Hp & _).
  split; [exact Hs|exact Hp].
Defined.

Lemma selectTrendingStocks_join_witness :
  selectTrendingStocks_proj fx_trending fx_stocks = [fx_stock "TSLA" (Some 50); fx_stock "AAPL" (Some 50)].
Proof.
  destruct (selectTrendingStocks_join
              [{| trending_id := 1; trending_symbol := "TSLA" |}]
              [{| trending_id := 2; trending_symbol := "NFLX" |};
               {| trending_id := 3; trending_symbol := "AAPL" |}]
              {| trending_id := 1; trending_symbol := "TSLA" |} fx_stocks) as [Happ _].
  unfold fx_trending. simpl app in Happ. rewrite Happ. vm_compute. reflexivity.
Defined.

