(* ===== verification/Effects.v ===== *)
(** The effects of src/src/app/store/stock.effects.ts.

    Each effect [createEffect(() => actions$.pipe(ofType(T), switchMap(...)))]
    is a channel.  A trigger action of the channel issues a request to the
    service; rxjs [switchMap] unsubscribes from the previous inner observable
    of the same channel, so the state [EffectsState] records, per channel,
    the one request whose completion may still dispatch.  A completion of any
    other request is dropped.  Request ids come from a counter, so they are
    fresh.

    The service's answer is an [Outcome]: a response [ApiResponse] (with its
    [success] flag and optional [message]) or an error caught by [catchError]
    (with its optional [error.message]).  The per-effect bodies
    ([loadPortfolioEffect] ... [placeOrderEffect]) map an outcome to the one
    action the effect dispatches; [addToRecentSearches$] is a [tap] with
    [dispatch: false], so it only issues a service command; and
    [clearOrderAfterSuccess$] is a channel whose request is a 100 ms timer
    that always answers [clearBuyOrder].

    Theorems: each load effect dispatches its resource's success action
    exactly when the response succeeds and otherwise its failure action with
    a non-empty message; the order effect echoes the submitted order; and
    latest-request-wins: once a newer request of a channel is issued, no
    completion of an older one ever dispatches. *)

From S2P Require Import Prelude Model Actions Reducer.

(** [ApiResponse<T>] of stock.model.ts (the [timestamp] is not modelled). *)
Record ApiResponse (T : Type) := mkResponse {
  data : T;
  success : bool;
  message : option string
}.
Arguments mkResponse {T}.
Arguments data {T}.
Arguments success {T}.
Arguments message {T}.

(** What the inner observable of an effect ends with: a response, or an
    error handed to [catchError] with its [message] property. *)
Inductive Outcome (T : Type) :=
  | Responded (r : ApiResponse T)
  | Errored (errorMessage : option string).
Arguments Responded {T}.
Arguments Errored {T}.

Inductive Channel :=
  | ChPortfolio | ChTrending | ChStocks | ChSearch | ChRecent | ChOrder | ChClearOrder.

#[global] Instance Channel_eq_dec : EqDecision Channel.
Proof. solve_decision. Defined.

(** The data type each channel's service call answers with. *)
Definition payload (c : Channel) : Type :=
  match c with
  | ChPortfolio => Portfolio
  | ChTrending => list TrendingStock
  | ChStocks => list StockInstrument
  | ChSearch => list SearchResult
  | ChRecent => list SearchResult
  | ChOrder => unit
  | ChClearOrder => unit
  end.

(** ** The effect bodies *)

(** The common shape of the load effects: [map(response => response.success
    ? success(response.data) : failure(response.message || dflt))] and
    [catchError(error => of(failure(error.message || dflt)))]. *)
Definition mapResponse {T} (ok : T -> Action) (fail : string -> Action) (dflt : string)
    (o : Outcome T) : Action :=
  match o with
  | Responded r => if success r then ok (data r) else fail (js_or_str (message r) dflt)
  | Errored m => fail (js_or_str m dflt)
  end.

Definition loadPortfolioEffect : Outcome Portfolio -> Action :=
  mapResponse loadPortfolioSuccess loadPortfolioFailure "Failed to load portfolio".
Definition loadTrendingStocksEffect : Outcome (list TrendingStock) -> Action :=
  mapResponse loadTrendingStocksSuccess loadTrendingStocksFailure "Failed to load trending stocks".
Definition loadStockEffect : Outcome (list StockInstrument) -> Action :=
  mapResponse loadStockSuccess loadStockFailure "Failed to load stocks".
Definition searchStocksEffect : Outcome (list SearchResult) -> Action :=
  mapResponse searchStocksSuccess searchStocksFailure "Failed to search stocks".

(** [loadRecentSearches$]: a failed response or an error both give the
    empty list. *)
Definition loadRecentSearchesEffect (o : Outcome (list SearchResult)) : Action :=
  match o with
  | Responded r => if success r then loadRecentSearchesSuccess (data r)
                   else loadRecentSearchesSuccess []
  | Errored _ => loadRecentSearchesSuccess []
  end.

(** [placeOrder$]: on success the submitted [order], not the server's echo. *)
Definition placeOrderEffect (order : BuyOrder) : Outcome unit -> Action :=
  mapResponse (fun _ => placeOrderSuccess order) placeOrderFailure "Failed to place order".

(** [clearOrderAfterSuccess$]: [of(clearBuyOrder()).pipe(delay(100))]. *)
Definition clearOrderAfterSuccessEffect (_ : Outcome unit) : Action := clearBuyOrder.

(** ** Channels *)

(** The channel an action triggers ([ofType]), if any. *)
Definition trigger_channel (a : Action) : option Channel :=
  match a with
  | loadPortfolio => Some ChPortfolio
  | loadTrendingStocks => Some ChTrending
  | loadStock => Some ChStocks
  | searchStocks _ => Some ChSearch
  | loadRecentSearches => Some ChRecent
  | placeOrder _ => Some ChOrder
  | placeOrderSuccess _ => Some ChClearOrder
  | _ => None
  end.

(** The action a completed request of channel [c] dispatches, from the
    trigger that issued it. *)
Definition completeAction (c : Channel) (trig : Action) : Outcome (payload c) -> Action :=
  match c return Outcome (payload c) -> Action with
  | ChPortfolio => loadPortfolioEffect
  | ChTrending => loadTrendingStocksEffect
  | ChStocks => loadStockEffect
  | ChSearch => searchStocksEffect
  | ChRecent => loadRecentSearchesEffect
  | ChOrder => fun o => match trig with
                        | placeOrder order => placeOrderEffect order o
                        | _ => placeOrderFailure "Failed to place order"
                        end
  | ChClearOrder => clearOrderAfterSuccessEffect
  end.

(** What the effects ask of the outside world. *)
Inductive Command :=
  | Request (c : Channel) (id : nat) (trig : Action)
  | ServiceAddRecent (st : StockInstrument).

Record EffectsState := mkEffects {
  next_id : nat;
  inflight : Channel -> option (nat * Action)
}.

Definition initialEffects : EffectsState := mkEffects 0 (fun _ => None).

Definition set_inflight (c : Channel) (v : option (nat * Action)) (es : EffectsState)
    : EffectsState :=
  mkEffects (next_id es) (fun c' => if decide (c' = c) then v else inflight es c').

(** The effects' reaction to a dispatched action: a trigger supersedes the
    channel's request by a fresh one; [addToRecentSearches] calls the
    service without dispatching. *)
Definition effects_on_action (es : EffectsState) (a : Action) : EffectsState * list Command :=
  match a with
  | addToRecentSearches st => (es, [ServiceAddRecent st])
  | _ =>
      match trigger_channel a with
      | Some c =>
          let n := next_id es in
          (mkEffects (S n) (inflight (set_inflight c (Some (n, a)) es)), [Request c n a])
      | None => (es, [])
      end
  end.

(** A request's completion: only the channel's current request dispatches. *)
Definition effects_on_complete (es : EffectsState) (c : Channel) (n : nat)
    (o : Outcome (payload c)) : EffectsState * option Action :=
  match inflight es c with
  | Some (m, trig) =>
      if Nat.eq_dec n m then (set_inflight c None es, Some (completeAction c trig o))
      else (es, None)
  | None => (es, None)
  end.

(** The resource whose loading slot a channel's result updates. *)
Definition channel_resource (c : Channel) : option Resource :=
  match c with
  | ChPortfolio => Some RPortfolio
  | ChTrending => Some RTrending
  | ChStocks => Some RStocks
  | ChSearch => Some RSearch
  | ChOrder => Some RBuyOrder
  | ChRecent | ChClearOrder => None
  end.

(** One step of the effect runner: an action or a completion. *)
Inductive effects_step : EffectsState -> EffectsState -> Prop :=
  | effects_step_action es a : effects_step es (fst (effects_on_action es a))
  | effects_step_complete es c n o : effects_step es (fst (effects_on_complete es c n o)).

Inductive effects_star : EffectsState -> EffectsState -> Prop :=
  | effects_star_refl es : effects_star es es
  | effects_star_step es1 es2 es3 :
      effects_step es1 es2 -> effects_star es2 es3 -> effects_star es1 es3.

(** Every request the state records was issued before the counter. *)
Definition effects_wf (es : EffectsState) : Prop :=
  forall c k t, inflight es c = Some (k, t) -> k < next_id es.

(** ** Lemmas *)

Lemma default_messages_nonempty :
  "Failed to load portfolio" <> "" /\ "Failed to load trending stocks" <> "" /\
  "Failed to load stocks" <> "" /\ "Failed to search stocks" <> "" /\
  "Failed to place order" <> "".
Proof. repeat split; discriminate. Qed.

Lemma mapResponse_cases {T} ok fail dflt (o : Outcome T) :
  dflt <> "" ->
  (exists r, o = Responded r /\ success r = true /\ mapResponse ok fail dflt o = ok (data r)) \/
  ((~ exists r, o = Responded r /\ success r = true) /\
   exists e, e <> "" /\ mapResponse ok fail dflt o = fail e).
Proof.
  intros Hd. destruct o as [r|m]; simpl.
  - destruct (success r) eqn:E; [left; by exists r|right].
    split; [intros (r' & [= <-] & Hs); congruence|]. eexists; split; [|reflexivity].
    by apply js_or_str_nonempty.
  - right. split; [by intros (r & ? & _)|]. eexists; split; [|reflexivity].
    by apply js_or_str_nonempty.
Qed.

Lemma mapResponse_result {T} r ok fail dflt (o : Outcome T) :
  dflt <> "" -> (forall x, succeeds (ok x) r) -> (forall e, fail e = failure_action r e) ->
  ((exists resp, o = Responded resp /\ success resp = true) -> succeeds (mapResponse ok fail dflt o) r) /\
  ((~ exists resp, o = Responded resp /\ success resp = true) ->
     exists e, e <> "" /\ mapResponse ok fail dflt o = failure_action r e).
Proof.
  intros Hd Hok Hfail.
  destruct (mapResponse_cases ok fail dflt o Hd) as [(resp & Ho & Hs & ->)|(Hn & e & He & ->)].
  - split; [intros _; apply Hok|intros Hn; exfalso; apply Hn; by exists resp].
  - split; [intros Hs; by exfalso|intros _; exists e; split; [done|apply Hfail]].
Qed.

(** A load effect never dispatches an order success. *)
Lemma mapResponse_not_order {T} (ok : T -> Action) fail dflt o order :
  (forall x, ok x <> placeOrderSuccess order) -> (forall e, fail e <> placeOrderSuccess order) ->
  mapResponse ok fail dflt o <> placeOrderSuccess order.
Proof. intros Hok Hf. destruct o as [[x [] m]|m]; simpl; auto. Qed.

Lemma effects_on_action_inflight es a c :
  inflight (fst (effects_on_action es a)) c =
    match a with
    | addToRecentSearches _ => inflight es c
    | _ => match trigger_channel a with
           | Some c' => if decide (c = c') then Some (next_id es, a) else inflight es c
           | None => inflight es c
           end
    end.
Proof. destruct a; simpl; try reflexivity; by destruct (decide _). Qed.

Lemma effects_on_action_next es a : next_id es <= next_id (fst (effects_on_action es a)).
Proof. destruct a; simpl; lia. Qed.

Lemma effects_on_complete_cases es c n o :
  effects_on_complete es c n o = (es, None) \/
  exists t, inflight es c = Some (n, t) /\
    effects_on_complete es c n o = (set_inflight c None es, Some (completeAction c t o)).
Proof.
  unfold effects_on_complete. destruct (inflight es c) as [[m t]|]; [|by left].
  destruct (Nat.eq_dec n m) as [->|]; [right; by exists t|by left].
Qed.

(** Once a request [m] of channel [c] has been issued, the channel only ever
    holds requests at least as new. *)
Definition newer_than (c : Channel) (m : nat) (es : EffectsState) : Prop :=
  m < next_id es /\
  match inflight es c with Some (k, _) => m <= k | None => True end.

Lemma newer_than_step c m es es' :
  newer_than c m es -> effects_step es es' -> newer_than c m es'.
Proof.
  intros [Hlt Hin] Hs. destruct Hs as [es a|es c' n o].
  - split; [pose proof (effects_on_action_next es a); lia|].
    rewrite effects_on_action_inflight.
    destruct a; try exact Hin; simpl; by destruct (decide _); [lia|].
  - destruct (effects_on_complete_cases es c' n o) as [->|(t & _ & ->)]; [by split|].
    split; [exact Hlt|]. simpl. by destruct (decide _).
Qed.

Lemma newer_than_star c m es es' :
  newer_than c m es -> effects_star es es' -> newer_than c m es'.
Proof. intros H Hs. induction Hs; eauto using newer_than_step. Qed.

Lemma effects_wf_newer es c m t :
  effects_wf es -> inflight es c = Some (m, t) -> newer_than c m es.
Proof. intros Hwf Hm. split; [by eapply Hwf|]. by rewrite Hm. Qed.

#[export] Hint Resolve newer_than_step newer_than_star effects_wf_newer : stake.

(** ** Properties of the effects *)

(** (C14) Effect results: a completed request of a load or order channel
    dispatches its resource's success action exactly when the service
    answered a response with [success = true], and otherwise its failure
    action with a non-empty message (the response's or error's message, or
    the effect's default); an order success carries the very order that was
    submitted. *)
Theorem effect_result_actions (c : Channel) (r : Resource) (trig : Action)
    (o : Outcome (payload c)) :
  channel_resource c = Some r -> trigger_channel trig = Some c ->
  let a := completeAction c trig o in
  ((exists resp, o = Responded resp /\ success resp = true) -> succeeds a r) /\
  ((~ exists resp, o = Responded resp /\ success resp = true) ->
     exists e, e <> "" /\ a = failure_action r e) /\
  (forall order, a = placeOrderSuccess order -> trig = placeOrder order).
Proof.
  intros Hr Ht. pose proof default_messages_nonempty as (D1 & D2 & D3 & D4 & D5).
  destruct c; simpl in Hr; try discriminate; injection Hr as <-; cbv zeta; simpl;
    unfold loadPortfolioEffect, loadTrendingStocksEffect, loadStockEffect,
      searchStocksEffect, placeOrderEffect.
  - destruct (mapResponse_result RPortfolio loadPortfolioSuccess loadPortfolioFailure _ o D1) as [H1 H2];
      [intros; constructor|reflexivity|].
    split; [exact H1|split; [exact H2|]]. intros ? Ha. exfalso; revert Ha.
    apply mapResponse_not_order; intros; discriminate.
  - destruct (mapResponse_result RTrending loadTrendingStocksSuccess loadTrendingStocksFailure _ o D2) as [H1 H2];
      [intros; constructor|reflexivity|].
    split; [exact H1|split; [exact H2|]]. intros ? Ha. exfalso; revert Ha.
    apply mapResponse_not_order; intros; discriminate.
  - destruct (mapResponse_result RStocks loadStockSuccess loadStockFailure _ o D3) as [H1 H2];
      [intros; constructor|reflexivity|].
    split; [exact H1|split; [exact H2|]]. intros ? Ha. exfalso; revert Ha.
    apply mapResponse_not_order; intros; discriminate.
  - destruct (mapResponse_result RSearch searchStocksSuccess searchStocksFailure _ o D4) as [H1 H2];
      [intros; constructor|reflexivity|].
    split; [exact H1|split; [exact H2|]]. intros ? Ha. exfalso; revert Ha.
    apply mapResponse_not_order; intros; discriminate.
  - destruct trig; try discriminate.
    destruct (mapResponse_result RBuyOrder (fun _ => placeOrderSuccess order) placeOrderFailure _ o D5)
      as [H1 H2]; [intros; constructor|reflexivity|].
    split; [exact H1|split; [exact H2|]].
    intros order' Ha. destruct o as [[? [] ?]|]; simpl in Ha; congruence.
Qed.

(** (C15) Latest request wins: the channel's current request dispatches
    exactly its effect's action once and leaves the channel idle, so a second
    completion of it dispatches nothing; and once a newer request of the
    channel has been issued, no completion of an older request dispatches in
    any later state. *)
Theorem latest_request_wins es c m t :
  effects_wf es -> inflight es c = Some (m, t) ->
  (forall o, effects_on_complete es c m o = (set_inflight c None es, Some (completeAction c t o))) /\
  (forall o', effects_on_complete (set_inflight c None es) c m o' =
                (set_inflight c None es, None)) /\
  (forall es' n o, n < m -> effects_star es es' -> effects_on_complete es' c n o = (es', None)).
Proof.
  intros Hwf Hm. split; [|split].
  - intros o. unfold effects_on_complete. rewrite Hm. by destruct (Nat.eq_dec m m).
  - intros o'. unfold effects_on_complete. simpl. by rewrite decide_True.
  - intros es' n o Hn Hs.
    destruct (newer_than_star c m es es') as [_ Hin]; [eauto with stake|done|].
    unfold effects_on_complete. destruct (inflight es' c) as [[k t']|]; [|done].
    destruct (Nat.eq_dec n k); [lia|done].
Qed.

Lemma initialEffects_wf : effects_wf initialEffects.
Proof. intros c k t H. discriminate. Qed.

Lemma effects_wf_step es es' : effects_wf es -> effects_step es es' -> effects_wf es'.
Proof.
  intros Hwf Hs c k t Hk. destruct Hs as [es a|es c' n o].
  - pose proof (effects_on_action_next es a).
    rewrite effects_on_action_inflight in Hk.
    destruct a; simpl in *; try (by eapply Hwf);
      destruct (decide _); try (injection Hk as <- _; lia); specialize (Hwf _ _ _ Hk); lia.
  - destruct (effects_on_complete_cases es c' n o) as [Heq|(t0 & _ & Heq)];
      rewrite Heq in Hk |- *; simpl in *; [by eapply Hwf|].
    destruct (decide _); [done|]. by eapply Hwf.
Qed.

#[export] Hint Resolve initialEffects_wf effects_wf_step : stake.

(** ** Witnesses *)

(** Two searches in a row: the first request (id 0) is superseded by the
    second (id 1); the first's late answer dispatches nothing, the second's
    dispatches the success. *)
Definition two_searches : EffectsState :=
  fst (effects_on_action (fst (effects_on_action initialEffects (searchStocks "AA"))) (searchStocks "AAPL")).

Lemma latest_request_wins_witness :
  effects_on_complete two_searches ChSearch 0 (Responded (mkResponse [] true None)) = (two_searches, None) /\
  snd (effects_on_complete two_searches ChSearch 1 (Responded (mkResponse [] true None))) =
    Some (searchStocksSuccess []).
Proof.
  assert (Hwf : effects_wf two_searches) by (intros c k t; unfold two_searches; simpl;
    repeat case_decide; intros Hk; try discriminate; injection Hk as <- _; simpl; lia).
  destruct (latest_request_wins two_searches ChSearch 1 (searchStocks "AAPL") Hwf eq_refl)
    as (Hcur & _ & Hold).
  split.
  - apply (Hold two_searches 0 _ (Nat.lt_0_succ 0) (effects_star_refl _)).
  - rewrite Hcur. reflexivity.
Defined.

Lemma effect_result_actions_witness :
  completeAction ChOrder (placeOrder (mkBuyOrder (mkStock "AAPL" "Apple" 100 "+1.00%" None None None None None) 5 Market None 500))
    (Responded (mkResponse tt true (Some "ok"))) =
    placeOrderSuccess (mkBuyOrder (mkStock "AAPL" "Apple" 100 "+1.00%" None None None None None) 5 Market None 500) /\
  exists e, e <> "" /\
    completeAction ChPortfolio loadPortfolio (Errored None) = failure_action RPortfolio e.
Proof.
  split; [reflexivity|].
  destruct (effect_result_actions ChPortfolio RPortfolio loadPortfolio (Errored None) eq_refl eq_refl)
    as (_ & Hfail & _).
  apply Hfail. intros (resp & H & _). discriminate.
Defined.
