(* ===== verification/Discover.v ===== *)
(** The discover tab, src/src/app/tab-discover/tab-discover.page.ts.

    The page keeps its own fields ([searchQuery], [showSearchResults],
    [selectedStock], [isBuyOrderModalOpen]) and a search pipeline
    [searchSubject.pipe(debounceTime(300), distinctUntilChanged(),
    takeUntil(destroy$))].  Each handler is a function from the page state
    to the next page state and the list of outputs it produces, in order:
    dispatched actions, values fed to the subject, toasts and timers.

    The pipeline is a small timed state machine [SearchPipe]: [debounceTime]
    keeps the latest value with its due time (a new value restarts the
    timer), a [Tick] at or after the due time releases it, and
    [distinctUntilChanged] drops it when it equals the last value released.
    Time is in milliseconds ([nat]).  [String.prototype.trim] is modelled on
    ASCII whitespace (tab, line feed, vertical tab, form feed, carriage
    return, space).

    Theorems: the page only ever dispatches [searchStocks] with a trimmed
    non-empty query; a burst of keystrokes less than 300 ms apart followed by
    300 ms of quiet yields exactly one search, for the last value; and the
    distinct filter remembers values across clears, so typing the same query
    again after clearing the box dispatches no search at all. *)

From S2P Require Import Prelude Model Actions Reducer.
From Stdlib Require Import Ascii.

(** ** [String.prototype.trim] *)

Definition is_ws (c : ascii) : bool :=
  match nat_of_ascii c with
  | 9 | 10 | 11 | 12 | 13 | 32 => true
  | _ => false
  end.

Fixpoint drop_ws (l : list ascii) : list ascii :=
  match l with
  | c :: l' => if is_ws c then drop_ws l' else l
  | [] => []
  end.

Definition trim (s : string) : string :=
  String.string_of_list_ascii (rev (drop_ws (rev (drop_ws (String.list_ascii_of_string s))))).

(** ** The search pipeline *)

Record SearchPipe := mkPipe {
  pending : option (string * nat);   (* debounceTime: latest value, due time *)
  lastEmitted : option string        (* distinctUntilChanged: last value let through *)
}.

Definition initialPipe : SearchPipe := mkPipe None None.

Definition debounceDue : nat := 300.

(** [searchSubject.next(v)] at time [now]. *)
Definition pipe_next (p : SearchPipe) (v : string) (now : nat) : SearchPipe :=
  mkPipe (Some (v, now + debounceDue)) (lastEmitted p).

(** Time passes up to [now]: the pending value is released if due, and let
    through unless it equals the last one let through. *)
Definition pipe_tick (p : SearchPipe) (now : nat) : SearchPipe * option string :=
  match pending p with
  | Some (v, due) =>
      if due <=? now then
        if decide (lastEmitted p = Some v) then (mkPipe None (lastEmitted p), None)
        else (mkPipe None (Some v), Some v)
      else (p, None)
  | None => (p, None)
  end.

(** The subscriber of the pipeline (lines 90-100). *)
Definition searchSubscriber (query : string) : Action :=
  let trimmedQuery := trim query in
  if String.length trimmedQuery =? 0 then clearSearchResults else searchStocks trimmedQuery.

(** ** The page *)

Inductive ToastKind := SuccessToast | ErrorToast.

Inductive PageOutput :=
  | Dispatch (a : Action)
  | ShowToast (kind : ToastKind) (msg : string)
  | ScheduleDispatch (delay : nat) (a : Action).

Record DiscoverPage := mkDiscover {
  dp_searchQuery : string;
  dp_showSearchResults : bool;
  dp_selectedStock : option StockInstrument;
  dp_isBuyOrderModalOpen : bool;
  dp_pipe : SearchPipe;
  dp_destroyed : bool
}.

Definition initialDiscover : DiscoverPage := mkDiscover "" false None false initialPipe false.

Inductive DiscoverEvent :=
  | Init
  | SearchInput (value : string) (now : nat)
  | SearchFocus
  | StockClick (st : StockInstrument)
  | RecentSearchClick (st : StockInstrument)
  | CancelSearch
  | StockCardClick (st : StockInstrument)
  | BuyOrderClose
  | OrderPlaced (order : BuyOrder)
  | Tick (now : nat)
  | BuyOrderSuccessEmits (success : bool)
  | BuyOrderErrorEmits (err : option string)
  | Destroy.

Definition set_query_show (q : string) (show : bool) (p : DiscoverPage) : DiscoverPage :=
  mkDiscover q show (dp_selectedStock p) (dp_isBuyOrderModalOpen p) (dp_pipe p) (dp_destroyed p).
Definition set_modal (st : option StockInstrument) (open : bool) (p : DiscoverPage) : DiscoverPage :=
  mkDiscover (dp_searchQuery p) (dp_showSearchResults p) st open (dp_pipe p) (dp_destroyed p).
Definition set_pipe (pp : SearchPipe) (p : DiscoverPage) : DiscoverPage :=
  mkDiscover (dp_searchQuery p) (dp_showSearchResults p) (dp_selectedStock p)
    (dp_isBuyOrderModalOpen p) pp (dp_destroyed p).

(** [onSearchInput] (lines 103-116). *)
Definition onSearchInput (p : DiscoverPage) (value : string) (now : nat)
    : DiscoverPage * list PageOutput :=
  if negb (String.length (trim value) =? 0) then
    (set_pipe (pipe_next (dp_pipe p) value now) (set_query_show value true p),
     [Dispatch (setSearchQuery value)])
  else (set_query_show value false p, [Dispatch (setSearchQuery value); Dispatch clearSearchResults]).

(** [onStockClick] (lines 130-138). *)
Definition onStockClick (p : DiscoverPage) (st : StockInstrument) : DiscoverPage * list PageOutput :=
  (set_query_show "" false p,
   [Dispatch (addToRecentSearches st); Dispatch clearSearchResults; Dispatch (setSearchQuery "")]).

(** [onRecentSearchClick] (lines 140-147) and [onCancelSearch] (149-154). *)
Definition onClearSearch (p : DiscoverPage) : DiscoverPage * list PageOutput :=
  (set_query_show "" false p, [Dispatch clearSearchResults; Dispatch (setSearchQuery "")]).

(** [onOrderPlaced] (lines 191-197): the success toast is shown when the
    order is dispatched, before any answer. *)
Definition onOrderPlaced (p : DiscoverPage) (order : BuyOrder) : DiscoverPage * list PageOutput :=
  (set_modal None false p,
   [Dispatch (placeOrder order);
    ShowToast SuccessToast (symbol (order_stock order) +:+ " successfully purchased")]).

Definition discover_step (p : DiscoverPage) (ev : DiscoverEvent) : DiscoverPage * list PageOutput :=
  match ev with
  | Init =>
      (* ngOnInit: loadDiscoverData (lines 81-85), then the subscriptions *)
      (p, [Dispatch loadRecentSearches; Dispatch loadTrendingStocks; Dispatch loadStock])
  | SearchInput v now => onSearchInput p v now
  | SearchFocus =>
      (set_query_show (dp_searchQuery p) true p,
       if String.length (trim (dp_searchQuery p)) =? 0 then [Dispatch clearSearchResults] else [])
  | StockClick st => onStockClick p st
  | RecentSearchClick _ => onClearSearch p
  | CancelSearch => onClearSearch p
  | StockCardClick st => (set_modal (Some st) true p, [])
  | BuyOrderClose => (set_modal None false p, [])
  | OrderPlaced o => onOrderPlaced p o
  | Tick now =>
      if dp_destroyed p then (p, []) else
      let '(pp, out) := pipe_tick (dp_pipe p) now in
      (set_pipe pp p, match out with Some v => [Dispatch (searchSubscriber v)] | None => [] end)
  | BuyOrderSuccessEmits b =>
      if dp_destroyed p then (p, []) else
      (p, if b then [ScheduleDispatch 100 clearBuyOrder] else [])
  | BuyOrderErrorEmits e =>
      if dp_destroyed p then (p, []) else
      (p, match e with
          | Some m => if String.eqb m "" then []
                      else [ShowToast ErrorToast ("Failed to place order: " +:+ m)]
          | None => [] end)
  | Destroy =>
      (mkDiscover (dp_searchQuery p) (dp_showSearchResults p) (dp_selectedStock p)
         (dp_isBuyOrderModalOpen p) (dp_pipe p) true, [])
  end.

(** A run of events: the final page and every output, in order. *)
Fixpoint discover_run (p : DiscoverPage) (evs : list DiscoverEvent)
    : DiscoverPage * list PageOutput :=
  match evs with
  | [] => (p, [])
  | ev :: evs' =>
      let '(p1, out1) := discover_step p ev in
      let '(p2, out2) := discover_run p1 evs' in
      (p2, out1 ++ out2)
  end.

(** The store as the page's dispatches drive it (effects aside). *)
Definition apply_outputs (s : StockState) (outs : list PageOutput) : StockState :=
  fold_left (fun s o => match o with Dispatch a => stockReducer s a | _ => s end) outs s.

(** The search queries a list of outputs dispatches. *)
Definition dispatched_searches (outs : list PageOutput) : list string :=
  omap (fun o => match o with Dispatch (searchStocks q) => Some q | _ => None end) outs.

(** Events of the pipeline alone: a value fed to the subject, or time. *)
Inductive PipeEvent := PNext (v : string) (now : nat) | PTick (now : nat).

Fixpoint pipe_run (p : SearchPipe) (evs : list PipeEvent) : SearchPipe * list string :=
  match evs with
  | [] => (p, [])
  | PNext v now :: evs' => pipe_run (pipe_next p v now) evs'
  | PTick now :: evs' =>
      let '(p1, out) := pipe_tick p now in
      let '(p2, outs) := pipe_run p1 evs' in
      (p2, option_list out ++ outs)
  end.

(** Every tick comes before the due time of the value pending at that point:
    the keystrokes form one burst. *)
Fixpoint early_ticks (due : nat) (evs : list PipeEvent) : Prop :=
  match evs with
  | [] => True
  | PNext _ now :: evs' => early_ticks (now + debounceDue) evs'
  | PTick now :: evs' => now < due /\ early_ticks due evs'
  end.

(** The value and due time pending after the events. *)
Fixpoint last_pending (vd : string * nat) (evs : list PipeEvent) : string * nat :=
  match evs with
  | [] => vd
  | PNext v now :: evs' => last_pending (v, now + debounceDue) evs'
  | PTick _ :: evs' => last_pending vd evs'
  end.

(** ** Lemmas on [trim] *)

Lemma drop_ws_split l : exists w, l = w ++ drop_ws l.
Proof.
  induction l as [|c l IH]; simpl; [by exists []|].
  destruct (is_ws c); [|by exists []]. destruct IH as [w Hw]. exists (c :: w). simpl. by f_equal.
Qed.

Lemma drop_ws_idem l : drop_ws (drop_ws l) = drop_ws l.
Proof.
  induction l as [|c l IH]; simpl; [done|]. destruct (is_ws c) eqn:E; [done|]. simpl. by rewrite E.
Qed.

(** A prefix of a list with no leading whitespace has none either. *)
Lemma drop_ws_prefix x t : drop_ws (x ++ t) = x ++ t -> drop_ws x = x.
Proof.
  destruct x as [|c x]; simpl; [done|]. destruct (is_ws c) eqn:E; [|done].
  intros H. exfalso. pose proof (f_equal length H) as Hl. simpl in Hl.
  destruct (drop_ws_split (x ++ t)) as [w Hw].
  apply (f_equal length) in Hw. rewrite (length_app w) in Hw. lia.
Qed.

Lemma trim_list_idem l :
  let f := fun l => rev (drop_ws (rev (drop_ws l))) in f (f l) = f l.
Proof.
  simpl. set (a := drop_ws l). set (b := drop_ws (rev a)).
  assert (Ha : drop_ws a = a) by apply drop_ws_idem.
  assert (Hb : drop_ws (rev b) = rev b).
  { destruct (drop_ws_split (rev a)) as [w Hw]. fold b in Hw.
    apply (drop_ws_prefix _ (rev w)). rewrite <- rev_app_distr, <- Hw, rev_involutive. done. }
  rewrite Hb, rev_involutive. unfold b at 1. by rewrite drop_ws_idem.
Qed.

Lemma trim_idem s : trim (trim s) = trim s.
Proof.
  unfold trim. rewrite String.list_ascii_of_string_of_list_ascii.
  f_equal. apply (trim_list_idem (String.list_ascii_of_string s)).
Qed.

Lemma length_zero_empty s : String.length s = 0 -> s = "".
Proof. destruct s; simpl; [done|lia]. Qed.

(** ** Lemmas on the pipeline *)

Lemma pipe_run_burst p vd evs :
  pending p = Some vd -> early_ticks (snd vd) evs ->
  pipe_run p evs = (mkPipe (Some (last_pending vd evs)) (lastEmitted p), []).
Proof.
  revert p vd; induction evs as [|[v now|now] evs IH]; intros p [v0 d0] Hp He; simpl in *.
  - destruct p; simpl in *; by subst.
  - by rewrite (IH (pipe_next p v now) (v, now + debounceDue)).
  - destruct He as [Hlt He]. unfold pipe_tick at 1. rewrite Hp.
    destruct (Nat.leb_spec d0 now); [lia|]. by rewrite (IH p (v0, d0)).
Qed.

Lemma searchSubscriber_search v q :
  searchSubscriber v = searchStocks q -> q <> "" /\ trim q = q.
Proof.
  unfold searchSubscriber. destruct (Nat.eqb_spec (String.length (trim v)) 0); [discriminate|].
  intros [= <-]. split; [|apply trim_idem]. intros Hq. rewrite Hq in *. simpl in *. lia.
Qed.

(** The searches one step dispatches all come from the pipeline's
    subscriber. *)
Lemma discover_step_searches p ev :
  Forall (fun q => exists v, searchSubscriber v = searchStocks q)
    (dispatched_searches (snd (discover_step p ev))).
Proof.
  destruct ev; cbn; unfold onSearchInput; repeat case_match; cbn; repeat constructor;
    simplify_eq; eauto.
  destruct (searchSubscriber s0) eqn:E; repeat constructor; eauto.
Qed.

Lemma dispatched_searches_app o1 o2 :
  dispatched_searches (o1 ++ o2) = dispatched_searches o1 ++ dispatched_searches o2.
Proof. unfold dispatched_searches. apply omap_app. Qed.

Lemma pipe_run_app p evs1 evs2 :
  pipe_run p (evs1 ++ evs2) =
    let '(p1, o1) := pipe_run p evs1 in let '(p2, o2) := pipe_run p1 evs2 in (p2, o1 ++ o2).
Proof.
  revert p; induction evs1 as [|[v now|now] evs1 IH]; intros p; simpl.
  - by destruct (pipe_run p evs2).
  - apply IH.
  - destruct (pipe_tick p now) as [p1 o]. rewrite IH.
    destruct (pipe_run p1 evs1) as [p2 o2]. destruct (pipe_run p2 evs2) as [p3 o3].
    by rewrite app_assoc.
Qed.

(** ** Properties of the page *)

(** (C16) Whatever the user does, every [searchStocks] the discover page
    dispatches carries a query that is non-empty and already trimmed: a
    blank box clears the results instead of searching. *)
Theorem page_searches_trimmed (p : DiscoverPage) (evs : list DiscoverEvent) :
  Forall (fun q => q <> "" /\ trim q = q) (dispatched_searches (snd (discover_run p evs))).
Proof.
  revert p; induction evs as [|ev evs IH]; intros p; simpl; [constructor|].
  pose proof (discover_step_searches p ev) as Hs.
  destruct (discover_step p ev) as [p1 out1]. specialize (IH p1).
  destruct (discover_run p1 evs) as [p2 out2]. simpl in *.
  rewrite dispatched_searches_app. apply Forall_app. split; [|done].
  eapply Forall_impl; [exact Hs|]. intros q [v Hv]. by apply (searchSubscriber_search v).
Qed.

(** (C17) Debounce: after a first keystroke, a burst of keystrokes and
    ticks in which every tick comes before the pending value is due, then a
    tick at or after the last due time, the pipeline lets through exactly one
    value, the last one typed, unless it is the value it let through last
    (then none). *)
Theorem debounce_single_emission (p : SearchPipe) (v0 : string) (t0 : nat)
    (evs : list PipeEvent) (tq : nat) :
  early_ticks (t0 + debounceDue) evs ->
  snd (last_pending (v0, t0 + debounceDue) evs) <= tq ->
  let v := fst (last_pending (v0, t0 + debounceDue) evs) in
  pipe_run p (PNext v0 t0 :: evs ++ [PTick tq]) =
    (mkPipe None (Some v), if decide (lastEmitted p = Some v) then [] else [v]).
Proof.
  intros He Hdue. simpl. rewrite pipe_run_app.
  rewrite (pipe_run_burst (pipe_next p v0 t0) (v0, t0 + debounceDue) evs eq_refl He).
  destruct (last_pending (v0, t0 + debounceDue) evs) as [v d] eqn:E. simpl in *.
  unfold pipe_tick. simpl. destruct (Nat.leb_spec d tq); [|lia].
  destruct (decide (lastEmitted p = Some v)) as [Heq|]; simpl; [|done].
  by rewrite Heq.
Qed.

(** (C18) Re-searching after a clear is suppressed: once the pipeline has
    let a query through, clearing the box ([onCancelSearch], and likewise a
    stock click) does not reset [distinctUntilChanged], so typing the same
    query again and waiting 300 ms dispatches no search; the box shows the
    query, the results panel is open, and the store's results stay empty. *)
Theorem research_after_clear_suppressed (p : DiscoverPage) (s : StockState) (q : string)
    (now : nat) :
  lastEmitted (dp_pipe p) = Some q -> trim q <> "" ->
  let '(p', outs) := discover_run p [CancelSearch; SearchInput q now; Tick (now + debounceDue)] in
  dispatched_searches outs = [] /\ dp_searchQuery p' = q /\ dp_showSearchResults p' = true /\
  searchQuery (apply_outputs s outs) = q /\ searchResults (apply_outputs s outs) = [].
Proof.
  intros Hlast Hq. simpl. unfold onSearchInput.
  destruct (Nat.eqb_spec (String.length (trim q)) 0) as [H0|_];
    [by apply length_zero_empty in H0|].
  simpl. destruct (dp_destroyed p) eqn:Hd; simpl.
  - repeat split; reflexivity.
  - unfold pipe_tick. simpl. rewrite Nat.leb_refl, Hlast. rewrite decide_True by done.
    simpl. repeat split; reflexivity.
Qed.

(** ** Witnesses *)

(** The spec's scenario: "AA" then "AAPL" 100 ms later, then quiet: one
    search, for "AAPL". *)
Lemma debounce_single_emission_witness :
  pipe_run initialPipe [PNext "AA" 0; PNext "AAPL" 100; PTick 200; PTick 400] =
    (mkPipe None (Some "AAPL"), ["AAPL"]).
Proof.
  apply (debounce_single_emission initialPipe "AA" 0 [PNext "AAPL" 100; PTick 200] 400).
  - cbn -[debounceDue]. unfold debounceDue. split; [lia|exact I].
  - cbn -[debounceDue]. unfold debounceDue. lia.
Defined.

Lemma research_after_clear_suppressed_witness :
  let '(p1, outs1) := discover_run initialDiscover [SearchInput "AAPL" 0; Tick 300] in
  dispatched_searches outs1 = ["AAPL"] /\
  let '(p2, outs2) := discover_run p1 [CancelSearch; SearchInput "AAPL" 1000; Tick 1300] in
  dispatched_searches outs2 = [] /\ searchResults (apply_outputs initialStockState outs2) = [].
Proof.
  simpl. split; [reflexivity|].
  pose proof (research_after_clear_suppressed
    (set_pipe (mkPipe None (Some "AAPL")) (set_query_show "AAPL" true initialDiscover))
    initialStockState "AAPL" 1000 eq_refl ltac:(discriminate)) as H.
  simpl in H. destruct H as (H1 & _ & _ & _ & H5). split; [exact H1|exact H5].
Defined.

Lemma page_searches_trimmed_witness :
  dispatched_searches (snd (discover_run initialDiscover
    [SearchInput "  AAPL " 0; Tick 300; SearchInput "   " 400; Tick 800])) = ["AAPL"] /\
  Forall (fun q => q <> "" /\ trim q = q) ["AAPL"].
Proof.
  split; [vm_compute; reflexivity|].
  pose proof (page_searches_trimmed initialDiscover
    [SearchInput "  AAPL " 0; Tick 300; SearchInput "   " 400; Tick 800]) as H.
  vm_compute in H. exact H.
Defined.
