(* ===== verification/Service.v ===== *)
(** [StockService], src/src/app/shared/services/stock.service.ts.

    State: the in-memory [recentSearches] list and the localStorage item under
    [app_recent_searches_v1].  The stored item is text; the model keeps the
    JSON value it parses to ([JsonText]) or text that does not parse
    ([Garbage]); [JSON.stringify]/[JSON.parse] are taken to be inverse on
    JSON values.

    Operations:
    - the constructor ([svc_init]) parses the stored list and keeps the
      entries that pass the shape check of line 29 (a [null] entry makes the
      check throw, and the whole list is then dropped by the [catch]) and
      that decode to an instrument ([decodeStock], stricter than the code:
      an entry without a string [changePercent], or with a truthy
      non-string symbol or name, is kept by the code and dropped here);
    - [svc_addToRecentSearches] updates the list with the algorithm of
      [Recent] and writes it back (a failed write keeps the in-memory list);
    - [svc_getRecentSearches] tags the list as recent results;
    - [mapPosition]/[mapStock] are the [map] bodies of [getPortfolio] and
      [getStocks], with [Number.prototype.toFixed(2)] ([toFixed2], exact on
      rationals, ties away from zero as ECMAScript prescribes for the
      magnitude) and the sign rule [x > 0 ? "+" : ""];
    - [svc_searchStocks] filters the backend's list by case-insensitive
      substring match on symbol or full name ([toLowerCase] on ASCII);
    - [svc_placeOrder] answers success unconditionally.

    Theorems: the persistence round trip, that the constructor carries any
    stored list of instruments into the store unchecked (bounded and
    deduplicated or not), the
    sign of the formatted change and the card colour it yields, the search
    filter, and the order call never failing. *)

From S2P Require Import Prelude Model Actions Recent Reducer Effects Discover.
From Stdlib Require Import Ascii DecimalString Qround.

Local Open Scope Q_scope.
Set Warnings "-register-all".
#[local] Set Warnings "-clear-no-such-hyp".

(** ** JSON values and localStorage *)

Inductive JsonValue :=
  | JNull
  | JBool (b : bool)
  | JNum (q : Q)
  | JStr (s : string)
  | JArr (items : list JsonValue)
  | JObj (fields : list (string * JsonValue)).

(** Property access [v.k]: [None] is [undefined]; a repeated key takes its
    last value, as [JSON.parse] does. *)
Definition jget (k : string) (v : JsonValue) : option JsonValue :=
  match v with
  | JObj fs => (fun ikv => ikv.2.2) <$> list_find (fun kv => kv.1 = k) (rev fs)
  | _ => None
  end.

(** [!!x] *)
Definition truthy (v : option JsonValue) : bool :=
  match v with
  | None | Some JNull => false
  | Some (JBool b) => b
  | Some (JNum q) => negb (Qeq_bool q 0)
  | Some (JStr s) => negb (String.eqb s "")
  | Some (JArr _) | Some (JObj _) => true
  end.

(** The shape check of line 29:
    [!!s.symbol && !!s.name && typeof s.price === 'number']. *)
Definition isValidCached (v : JsonValue) : bool :=
  truthy (jget "symbol" v) && truthy (jget "name" v) &&
  match jget "price" v with Some (JNum _) => true | _ => false end.

(** [parsed.filter(...)]: reading a property of [null] throws. *)
Fixpoint filterValid (l : list JsonValue) : option (list JsonValue) :=
  match l with
  | [] => Some []
  | JNull :: _ => None
  | v :: l' => (fun r => if isValidCached v then v :: r else r) <$> filterValid l'
  end.

Definition jstr (v : option JsonValue) : option string :=
  match v with Some (JStr s) => Some s | _ => None end.
Definition jnum (v : option JsonValue) : option Q :=
  match v with Some (JNum q) => Some q | _ => None end.

Definition encodeDayRange (d : DayRange) : JsonValue :=
  JObj [("low", JNum (low d)); ("high", JNum (high d))].

Definition decodeDayRange (v : option JsonValue) : option DayRange :=
  match v with
  | Some o => match jnum (jget "low" o), jnum (jget "high" o) with
              | Some l, Some h => Some (mkDayRange l h)
              | _, _ => None
              end
  | None => None
  end.

(** [JSON.stringify] of an instrument: absent optional fields are omitted. *)
Definition encodeStock (st : StockInstrument) : JsonValue :=
  JObj ([("symbol", JStr (symbol st)); ("name", JStr (name st)); ("price", JNum (price st));
         ("changePercent", JStr (changePercent st))] ++
        option_list ((fun q => ("shares", JNum q)) <$> instrShares st) ++
        option_list ((fun s => ("logo", JStr s)) <$> logo st) ++
        option_list ((fun q => ("marketCap", JNum q)) <$> marketCap st) ++
        option_list ((fun q => ("volume", JNum q)) <$> volume st) ++
        option_list ((fun d => ("dayRange", encodeDayRange d)) <$> dayRange st)).

(** An entry the rest of the code can use as a [StockInstrument]; entries
    that pass the shape check but have a truthy non-string symbol or name,
    or no string [changePercent], are outside the model. *)
Definition decodeStock (v : JsonValue) : option StockInstrument :=
  match jstr (jget "symbol" v), jstr (jget "name" v), jnum (jget "price" v),
        jstr (jget "changePercent" v) with
  | Some sy, Some nm, Some pr, Some cp =>
      Some {| symbol := sy; name := nm; price := pr; changePercent := cp;
              instrShares := jnum (jget "shares" v); logo := jstr (jget "logo" v);
              marketCap := jnum (jget "marketCap" v); volume := jnum (jget "volume" v);
              dayRange := decodeDayRange (jget "dayRange" v) |}
  | _, _, _, _ => None
  end.

(** The text under the storage key. *)
Inductive StoredText := JsonText (v : JsonValue) | Garbage.

Record ServiceState := mkService {
  svc_recentSearches : list StockInstrument;
  svc_storage : option StoredText
}.

(** The constructor (lines 23-35). *)
Definition loadRecent (cached : option StoredText) : list StockInstrument :=
  match cached with
  | Some (JsonText (JArr parsed)) =>
      match filterValid parsed with
      | Some kept => omap decodeStock kept
      | None => []
      end
  | _ => []
  end.

Definition svc_init (cached : option StoredText) : ServiceState :=
  mkService (loadRecent cached) cached.

Definition persistRecent (l : list StockInstrument) : StoredText :=
  JsonText (JArr (map encodeStock l)).

(** [addToRecentSearches] (lines 204-216); [writeOk] says whether
    [localStorage.setItem] succeeded. *)
Definition svc_addToRecentSearches (svc : ServiceState) (st : StockInstrument) (writeOk : bool)
    : ServiceState :=
  let recent := addToRecent symbol st (svc_recentSearches svc) in
  mkService recent (if writeOk then Some (persistRecent recent) else svc_storage svc).

(** [getRecentSearches] (lines 174-185), before its 100 ms delay. *)
Definition svc_getRecentSearches (svc : ServiceState) : ApiResponse (list SearchResult) :=
  mkResponse (map (fun st => {| result_stock := st; searchType := Some RecentTag |})
                  (svc_recentSearches svc)) true None.

(** ** [Number.prototype.toFixed(2)] and the change format *)

Fixpoint zeros (n : nat) : string :=
  match n with O => "" | S n' => String "0" (zeros n') end.

(** The digits of [n] with a point before the last two, at least one digit
    before the point ("0.05" for 5). *)
Definition fixed2_digits (n : N) : string :=
  let m := NilEmpty.string_of_uint (N.to_uint n) in
  let m' := if (String.length m <=? 2)%nat then zeros (3 - String.length m) +:+ m else m in
  let k := String.length m' in
  String.substring 0 (k - 2) m' +:+ "." +:+ String.substring (k - 2) 2 m'.

(** [x.toFixed(2)]: the sign, then the integer [n] closest to [100 |x|],
    the larger one on a tie. *)
Definition toFixed2 (x : Q) : string :=
  if Qlt_le_dec x 0 then "-" +:+ fixed2_digits (Z.to_N (Qfloor (- x * 100 + (1 # 2))))
  else fixed2_digits (Z.to_N (Qfloor (x * 100 + (1 # 2)))).

(** [changePercent > 0 ? `+${changePercent.toFixed(2)}%` : `${changePercent.toFixed(2)}%`]
    (lines 49, 85, 148). *)
Definition formatPercent (changePercent : Q) : string :=
  if Qlt_le_dec 0 changePercent then "+" +:+ toFixed2 changePercent +:+ "%"
  else toFixed2 changePercent +:+ "%".

(** [StockCardComponent.getChangeColor] / [getChangeIcon]
    (stock-card.component.ts lines 22-28). *)
Definition getChangeColor (st : StockInstrument) : string :=
  if String.prefix "+" (changePercent st) then "success" else "danger".
Definition getChangeIcon (st : StockInstrument) : string :=
  if String.prefix "+" (changePercent st) then "trending-up" else "trending-down".

(** ** The backend's shapes and their mappings *)

(** An element of [GET /stocks]. *)
Record RawStock := mkRawStock {
  rs_symbol : string; rs_fullName : string; rs_ask : Q; rs_open : Q; rs_close : Q;
  rs_volume : Q; rs_marketCap : Q; rs_logo : string; rs_low : Q; rs_high : Q
}.

(** The instrument [getStocks] and [searchStocks] build (lines 76-93,
    138-156); the extra [change] property of the object literal is not part
    of [StockInstrument] and is not modelled. *)
Definition mapStock (stock : RawStock) : StockInstrument :=
  let change := rs_close stock - rs_open stock in
  let changePercent := (change / rs_open stock) * 100 in
  {| symbol := rs_symbol stock; name := rs_fullName stock; price := rs_ask stock;
     changePercent := formatPercent changePercent; instrShares := None;
     logo := Some (rs_logo stock); marketCap := Some (rs_marketCap stock / 1000000);
     volume := Some (rs_volume stock);
     dayRange := Some (mkDayRange (rs_low stock) (rs_high stock)) |}.

Definition svc_getStocks (stocks : list RawStock) : ApiResponse (list StockInstrument) :=
  mkResponse (map mapStock stocks) true None.

(** [getTrendingStocks] (lines 105-115): the body is passed through. *)
Definition svc_getTrendingStocks (trendingData : list TrendingStock) : ApiResponse (list TrendingStock) :=
  mkResponse trendingData true None.

(** An element of [positions] of [GET /portfolio]. *)
Record RawPosition := mkRawPosition {
  rp_symbol : string; rp_currentPrice : Q; rp_changePercent : option Q;
  rp_quantity : Q; rp_marketValue : Q
}.
Record RawPortfolio := mkRawPortfolio { rp_totalValue : Q; rp_positions : list RawPosition }.

(** Lines 41-57: [position.changePercent || 0]; no name from this endpoint. *)
Definition mapPosition (position : RawPosition) : PortfolioHolding :=
  let changePercent := default 0 (rp_changePercent position) in
  {| stock := {| symbol := rp_symbol position; name := ""; price := rp_currentPrice position;
                 changePercent := formatPercent changePercent; instrShares := None;
                 logo := Some ""; marketCap := Some 0; volume := Some 0; dayRange := None |};
     shares := rp_quantity position; currentValue := rp_marketValue position |}.

Definition svc_getPortfolio (portfolioData : RawPortfolio) : ApiResponse Portfolio :=
  mkResponse {| totalEquity := rp_totalValue portfolioData;
                holdings := map mapPosition (rp_positions portfolioData) |} true None.

(** ** Search *)

(** [toLowerCase] on ASCII letters. *)
Definition lower_char (c : ascii) : ascii :=
  let n := nat_of_ascii c in
  if ((65 <=? n) && (n <=? 90))%nat then ascii_of_nat (n + 32) else c.

Fixpoint lower (s : string) : string :=
  match s with
  | EmptyString => EmptyString
  | String c s' => String (lower_char c) (lower s')
  end.

(** [s.includes(sub)] *)
Fixpoint includes (s sub : string) : bool :=
  String.prefix sub s ||
  match s with EmptyString => false | String _ s' => includes s' sub end.

Definition matchesQuery (query : string) (stock : RawStock) : bool :=
  includes (lower (rs_symbol stock)) (lower query) ||
  includes (lower (rs_fullName stock)) (lower query).

(** Whether [searchStocks(query)] goes to the backend ([!query.trim()] is
    false). *)
Definition search_calls_backend (query : string) : bool :=
  negb (String.eqb (trim query) "").

(** [searchStocks] (lines 121-168): a blank query answers the empty list at
    once; otherwise the backend's stocks are filtered and tagged. *)
Definition svc_searchStocks (query : string) (stocks : list RawStock)
    : ApiResponse (list SearchResult) :=
  if search_calls_backend query then
    mkResponse (map (fun stock => {| result_stock := mapStock stock; searchType := Some SearchTag |})
                    (List.filter (matchesQuery query) stocks)) true None
  else mkResponse [] true None.

(** [placeOrder] (lines 187-202): the answer after 500 ms is always a
    success; its message (built with [Number.prototype.toString]) is a
    parameter, no code reads it. *)
Definition svc_placeOrder (msg : string) (order : BuyOrder) : ApiResponse unit :=
  mkResponse tt true (Some msg).

(** ** Auxiliary predicates and fixtures *)

(** An entry the shape check keeps: non-empty symbol and name. *)
Definition valid_entry (st : StockInstrument) : Prop := symbol st <> "" /\ name st <> "".

(** A string whose first character is not a sign. *)
Definition unsigned_head (s : string) : Prop :=
  exists c rest, s = String c rest /\ c <> "+"%char /\ c <> "-"%char.

(** [sub] occurs in [s]. *)
Definition substring_of (sub s : string) : Prop := exists pre post, s = pre +:+ sub +:+ post.

Definition raw_aapl : RawStock :=
  mkRawStock "AAPL" "Apple Inc." 150 100 105 1000 2000000000 "aapl.png" 99 106.
Definition raw_flat : RawStock :=
  mkRawStock "KO" "Coca-Cola" 60 60 60 500 1000000 "ko.png" 59 61.

(** An instrument as a recent search stores it. *)
Definition cached_aapl : StockInstrument :=
  mkStock "AAPL" "Apple Inc." 150 "+1.00%" None None None None None.

(** ** Lemmas *)

Lemma decodeStock_encodeStock st : decodeStock (encodeStock st) = Some st.
Proof.
  destruct st as [sy nm pr cp sh lg mc vo dr].
  destruct sh, lg, mc, vo, dr as [[lo hi]|]; reflexivity.
Qed.

Lemma truthy_str s : truthy (Some (JStr s)) = true <-> s <> "".
Proof. simpl. destruct (String.eqb_spec s ""); naive_solver. Qed.

Lemma jget_encode_required st :
  jget "symbol" (encodeStock st) = Some (JStr (symbol st)) /\
  jget "name" (encodeStock st) = Some (JStr (name st)) /\
  jget "price" (encodeStock st) = Some (JNum (price st)).
Proof.
  destruct st as [sy nm pr cp sh lg mc vo dr].
  destruct sh, lg, mc, vo, dr; repeat split.
Qed.

Lemma isValidCached_encode st : valid_entry st -> isValidCached (encodeStock st) = true.
Proof.
  intros [Hs Hn]. unfold isValidCached.
  destruct (jget_encode_required st) as (-> & -> & ->). rewrite !(proj2 (truthy_str _)) by done. reflexivity.
Qed.

Lemma filterValid_cons v l :
  v <> JNull ->
  filterValid (v :: l) = (fun r => if isValidCached v then v :: r else r) <$> filterValid l.
Proof. destruct v; done. Qed.

Lemma filterValid_encode l :
  Forall valid_entry l -> filterValid (map encodeStock l) = Some (map encodeStock l).
Proof.
  induction 1 as [|st l Hst _ IH]; [done|].
  assert (encodeStock st <> JNull) by (destruct st; discriminate).
  cbn [map]. rewrite filterValid_cons, IH, isValidCached_encode by done. reflexivity.
Qed.

Lemma loadRecent_persist l : Forall valid_entry l -> loadRecent (Some (persistRecent l)) = l.
Proof.
  intros Hl. unfold loadRecent, persistRecent. rewrite filterValid_encode by done.
  clear Hl. induction l as [|st l IH]; [done|].
  cbn [map omap list_omap]. rewrite decodeStock_encodeStock, IH. done.
Qed.

Lemma addToRecent_Forall {A} (key : A -> string) (P : A -> Prop) x l :
  P x -> Forall P l -> Forall P (addToRecent key x l).
Proof.
  intros Hx Hl. unfold addToRecent. apply Forall_take; constructor; [done|].
  case_match; [done|]. by apply Forall_delete.
Qed.

(** Tagging the instruments as search results keeps their symbols. *)
Lemma recent_wf_tag_iff (l : list StockInstrument) t :
  recent_wf result_symbol (map (fun st => {| result_stock := st; searchType := t |}) l) <->
  recent_wf symbol l.
Proof.
  unfold recent_wf. rewrite length_map.
  assert (E : result_symbol <$> map (fun st => {| result_stock := st; searchType := t |}) l =
              symbol <$> l) by (induction l as [|x l IH]; [done|]; cbn; by f_equal).
  by rewrite E.
Qed.

(** (C19) Persistence round trip: after [addToRecentSearches] with a
    successful write, a new service built from the stored item (a restart)
    holds exactly the in-memory list, when every entry has a non-empty
    symbol and name. *)
Theorem restart_restores_recent (svc : ServiceState) (st : StockInstrument) :
  Forall valid_entry (svc_recentSearches svc) -> valid_entry st ->
  let svc' := svc_addToRecentSearches svc st true in
  svc_init (svc_storage svc') = svc'.
Proof.
  intros Hl Hst. unfold svc_addToRecentSearches, svc_init. cbn [svc_storage svc_recentSearches].
  rewrite loadRecent_persist; [done|]. by apply addToRecent_Forall.
Qed.

(** (C20) The constructor does not restore the recent-list invariant: for
    every list of instruments with a non-empty symbol and name stored under
    the key, the service restores exactly that list, and after the answer of
    [loadRecentSearches] the store satisfies the recent-list invariant if and
    only if the stored list has at most five entries with distinct symbols;
    a cache holding a repeated symbol or a sixth entry is carried into the
    store unchecked. *)
Theorem restored_cache_wf_iff (l : list StockInstrument) :
  Forall valid_entry l ->
  let svc := svc_init (Some (persistRecent l)) in
  svc_recentSearches svc = l /\
  (state_wf (stockReducer initialStockState
               (completeAction ChRecent loadRecentSearches (Responded (svc_getRecentSearches svc))))
   <-> recent_wf symbol l).
Proof.
  intros Hl. cbv zeta. unfold svc_getRecentSearches, state_wf.
  cbn [svc_init svc_recentSearches]. rewrite loadRecent_persist by done.
  split; [done|]. cbn. rewrite recent_wf_tag_iff. tauto.
Qed.

Lemma string_app_cons c s t : String c s +:+ t = String c (s +:+ t).
Proof. reflexivity. Qed.

Lemma prefix_empty s : String.prefix "" s = true.
Proof. by destruct s. Qed.

Lemma prefix_sign_app (d : ascii) s t :
  unsigned_head s -> d = "+"%char \/ d = "-"%char -> String.prefix (String d "") (s +:+ t) = false.
Proof.
  intros (c & rest & -> & Hp & Hm) Hd. rewrite string_app_cons. cbn -[ascii_dec].
  destruct (ascii_dec d c); [subst; naive_solver | reflexivity].
Qed.

Lemma prefix_sign_cons (d : ascii) s : String.prefix (String d "") (String d s) = true.
Proof. cbn -[ascii_dec]. destruct (ascii_dec d d); [apply prefix_empty | done]. Qed.

Lemma string_of_uint_head u :
  NilEmpty.string_of_uint u = "" \/ unsigned_head (NilEmpty.string_of_uint u).
Proof.
  destruct u; [left; done | right; eexists _, _; split; [reflexivity | split; discriminate] ..].
Qed.

Lemma length_zeros n : String.length (zeros n) = n.
Proof. induction n; simpl; auto. Qed.

Lemma length_string_app s t : String.length (s +:+ t) = (String.length s + String.length t)%nat.
Proof. induction s; simpl; auto. Qed.

Lemma fixed2_digits_head n : unsigned_head (fixed2_digits n).
Proof.
  unfold fixed2_digits.
  set (m := NilEmpty.string_of_uint (N.to_uint n)).
  destruct (Nat.leb_spec (String.length m) 2) as [Hle|Hgt].
  - rewrite length_string_app, length_zeros.
    replace (3 - String.length m + String.length m - 2)%nat with 1%nat by lia.
    destruct (3 - String.length m)%nat as [|k] eqn:E; [lia|].
    eexists _, _; split; [reflexivity | split; discriminate].
  - destruct (string_of_uint_head (N.to_uint n)) as [He | (c & rest & He & Hc)];
      fold m in He; rewrite He in *; simpl in *; [lia|].
    destruct (String.length rest - 1)%nat eqn:E; [lia|].
    eexists _, _; split; [reflexivity | done].
Qed.

(** [toFixed(2)] writes a ['-'] for a negative number and no sign otherwise. *)
Lemma toFixed2_head x :
  (x < 0 /\ exists r, toFixed2 x = String "-" r) \/ (0 <= x /\ unsigned_head (toFixed2 x)).
Proof.
  unfold toFixed2. destruct (Qlt_le_dec x 0) as [Hx|Hx].
  - left. split; [done|]. by eexists.
  - right. split; [done | apply fixed2_digits_head].
Qed.

Lemma formatPercent_plus q : String.prefix "+" (formatPercent q) = true <-> 0 < q.
Proof.
  unfold formatPercent. destruct (Qlt_le_dec 0 q) as [Hq|Hq].
  { split; [done | intros _]. rewrite string_app_cons. apply prefix_sign_cons. }
  destruct (toFixed2_head q) as [(Hn & r & ->) | (_ & Hu)].
  - rewrite string_app_cons. cbn -[ascii_dec]. split; [discriminate | lra].
  - rewrite prefix_sign_app by auto. split; [discriminate | lra].
Qed.

(** (C21) The sign of the formatted change: it starts with ['+'] exactly
    when the change is strictly positive and with ['-'] exactly when it is
    negative, so a zero change renders unsigned as ["0.00%"] and a small
    negative one as ["-0.00%"]. *)
Theorem formatPercent_sign (q : Q) :
  (String.prefix "+" (formatPercent q) = true <-> 0 < q) /\
  (String.prefix "-" (formatPercent q) = true <-> q < 0).
Proof.
  split; [apply formatPercent_plus|]. unfold formatPercent.
  destruct (Qlt_le_dec 0 q) as [Hq|Hq].
  { rewrite string_app_cons. cbn -[ascii_dec]. split; [discriminate | lra]. }
  destruct (toFixed2_head q) as [(Hn & r & ->) | (Hp & Hu)].
  - rewrite string_app_cons. split; [done | intros _; apply prefix_sign_cons].
  - rewrite prefix_sign_app by auto. split; [discriminate | lra].
Qed.

Lemma Q_percent_pos (a b : Q) : 0 < b -> (0 < a / b * 100 <-> 0 < a).
Proof.
  intros Hb. assert (Hi : 0 < / b) by (apply Qinv_lt_0_compat; lra).
  split; intros H.
  - assert (Ha : a == a / b * 100 * (b / 100)) by (field; lra).
    rewrite Ha. apply Qmult_lt_0_compat; [done|].
    apply Qmult_lt_0_compat; [done | reflexivity].
  - apply Qmult_lt_0_compat; [apply Qmult_lt_0_compat|reflexivity]; done.
Qed.

(** (C22) For an instrument of [GET /stocks] with a positive open price,
    the stock card shows the "success" colour exactly when the close is
    above the open. *)
Theorem stock_card_color (stock : RawStock) :
  0 < rs_open stock ->
  getChangeColor (mapStock stock) = "success" <-> rs_open stock < rs_close stock.
Proof.
  intros Ho. unfold getChangeColor. cbn [changePercent mapStock].
  assert (E : rs_open stock < rs_close stock <-> 0 < rs_close stock - rs_open stock)
    by (split; intros; lra).
  rewrite E.
  rewrite <- (Q_percent_pos (rs_close stock - rs_open stock) (rs_open stock)) by done.
  rewrite <- formatPercent_plus.
  destruct (String.prefix _ _); [done|]. split; [discriminate | lra].
Qed.

(** ** Search lemmas *)


Lemma string_app_nil_l t : "" +:+ t = t.
Proof. reflexivity. Qed.

Lemma prefix_spec p s : String.prefix p s = true <-> exists post, s = p +:+ post.
Proof.
  revert s. induction p as [|c p IH]; intros s.
  - split; [intros _; by exists s | intros _; apply prefix_empty].
  - destruct s as [|d s]; cbn -[ascii_dec].
    + split; [discriminate|]. intros [post Hp]. rewrite string_app_cons in Hp. discriminate.
    + destruct (ascii_dec c d) as [<-|Hcd].
      * rewrite IH. split; intros [post Hp]; exists post; [by rewrite Hp|].
        rewrite string_app_cons in Hp. congruence.
      * split; [discriminate|]. intros [post Hp]. rewrite string_app_cons in Hp. congruence.
Qed.

(** The substring test [includes] holds exactly when [sub] occurs in [s]
    at some position. *)
Lemma includes_spec (s sub : string) : includes s sub = true <-> substring_of sub s.
Proof.
  unfold substring_of. induction s as [|c s IH]; cbn [includes]; rewrite orb_true_iff, prefix_spec.
  - split.
    + intros [[post Hp]|]; [|done]. exists "", post. by rewrite string_app_nil_l.
    + intros ([|c pre] & post & Hp); [left; by exists post|].
      rewrite string_app_cons in Hp. discriminate.
  - rewrite IH. split.
    + intros [[post Hp] | (pre & post & Hp)]; [exists "", post; by rewrite string_app_nil_l|].
      exists (String c pre), post. by rewrite Hp, string_app_cons.
    + intros ([|d pre] & post & Hp); [left; by exists post|].
      right. rewrite string_app_cons in Hp. injection Hp as -> ->. by exists pre, post.
Qed.

Lemma drop_ws_nil l : drop_ws l = [] <-> Forall (fun c => is_ws c = true) l.
Proof.
  induction l as [|c l IH]; simpl; [split; done|].
  rewrite Forall_cons, <- IH. destruct (is_ws c).
  - split; [done | by intros [_ ?]].
  - split; [discriminate | by intros [? _]].
Qed.

Lemma trim_blank s : trim s = "" <-> Forall (fun c => is_ws c = true) (String.list_ascii_of_string s).
Proof.
  unfold trim. set (l := String.list_ascii_of_string s).
  rewrite <- drop_ws_nil.
  assert (Hs : forall x, String.string_of_list_ascii x = "" <-> x = []) by (intros [|]; done).
  assert (Hr : forall x : list ascii, rev x = [] <-> x = [])
    by (intros x; split; [|by intros ->]; intros Hx;
       apply (f_equal length) in Hx; rewrite length_rev in Hx; by destruct x).
  assert (Hf : forall x : list ascii, Forall (fun c => is_ws c = true) (rev x) <->
                                      Forall (fun c => is_ws c = true) x)
    by (intros x; split; [intros H; rewrite <- (rev_involutive x) | ]; by apply Forall_rev).
  rewrite Hs, Hr, drop_ws_nil, Hf.
  destruct (drop_ws l) as [|c l'] eqn:E; [done|]. split; [|done].
  intros Hw. apply Forall_cons in Hw as [Hc _].
  (* the head of [drop_ws l] is not whitespace *)
  clear -E Hc. induction l as [|d l IH]; simpl in E; [done|].
  destruct (is_ws d) eqn:Ed; [by apply IH | congruence].
Qed.

Lemma is_ws_lower_char c : is_ws (lower_char c) = is_ws c.
Proof. destruct c as [[] [] [] [] [] [] [] []]; reflexivity. Qed.

Lemma list_ascii_lower s :
  String.list_ascii_of_string (lower s) = map lower_char (String.list_ascii_of_string s).
Proof. induction s as [|c s IH]; simpl; [done|]. by rewrite IH. Qed.

Lemma trim_blank_lower q : trim (lower q) = "" <-> trim q = "".
Proof.
  rewrite !trim_blank, list_ascii_lower, Forall_map.
  apply Forall_iff. intros c. by rewrite is_ws_lower_char.
Qed.

Lemma search_calls_backend_lower q : search_calls_backend (lower q) = search_calls_backend q.
Proof.
  unfold search_calls_backend. f_equal.
  destruct (String.eqb_spec (trim (lower q)) ""), (String.eqb_spec (trim q) ""); try done;
    exfalso; rewrite trim_blank_lower in *; done.
Qed.

(** (C23) The results of [searchStocks(query)]: none without a backend call
    for a blank query; otherwise exactly the backend's instruments whose
    lower-cased symbol or full name contains the lower-cased query, mapped
    and tagged as search results. *)
Theorem searchStocks_results (query : string) (stocks : list RawStock) (r : SearchResult) :
  r ∈ data (svc_searchStocks query stocks) <->
  search_calls_backend query = true /\
  exists stock, stock ∈ stocks /\
    r = {| result_stock := mapStock stock; searchType := Some SearchTag |} /\
    (substring_of (lower query) (lower (rs_symbol stock)) \/
     substring_of (lower query) (lower (rs_fullName stock))).
Proof.
  unfold svc_searchStocks. destruct (search_calls_backend query); cbn [data].
  - rewrite list_elem_of_fmap. setoid_rewrite list_elem_of_In. setoid_rewrite filter_In.
    unfold matchesQuery. setoid_rewrite orb_true_iff. setoid_rewrite includes_spec.
    naive_solver.
  - split; [intros Hr; by apply elem_of_nil in Hr | intros [? _]; discriminate].
Qed.

(** (C24) The search is case-insensitive: two queries with the same
    lower-case form give the same response. *)
Theorem searchStocks_case_insensitive (q1 q2 : string) (stocks : list RawStock) :
  lower q1 = lower q2 -> svc_searchStocks q1 stocks = svc_searchStocks q2 stocks.
Proof.
  intros Hq. unfold svc_searchStocks, matchesQuery.
  rewrite <- (search_calls_backend_lower q1), <- (search_calls_backend_lower q2), Hq.
  done.
Qed.

Lemma applyOrderFill_success s o : buyOrderSuccess (applyOrderFill s o) = true.
Proof. unfold applyOrderFill. by destruct (portfolio s). Qed.

(** (C25) The order call never fails: whatever the state, after [placeOrder]
    and the completion of its request with the service's answer, the store
    has applied the fill of the submitted order, its buy-order slot is idle
    with no error and [buyOrderSuccess] is set; [placeOrderFailure] is never
    dispatched. *)
Theorem order_round_trip_succeeds (s : StockState) (order : BuyOrder) (msg : string) :
  let a := completeAction ChOrder (placeOrder order) (Responded (svc_placeOrder msg order)) in
  let s' := stockReducer (stockReducer s (placeOrder order)) a in
  a = placeOrderSuccess order /\
  s' = applyOrderFill (stockReducer s (placeOrder order)) order /\
  loadingOf s' RBuyOrder = loading_idle /\ buyOrderSuccess s' = true.
Proof.
  cbn zeta. assert (Ha : completeAction ChOrder (placeOrder order)
                          (Responded (svc_placeOrder msg order)) = placeOrderSuccess order)
    by reflexivity.
  rewrite Ha. split; [done|]. split; [reflexivity|].
  cbn [stockReducer]. rewrite applyOrderFill_loading, applyOrderFill_success. done.
Qed.

(** ** Witnesses *)

Lemma restart_restores_recent_witness :
  let svc := mkService [mapStock raw_flat] None in
  svc_init (svc_storage (svc_addToRecentSearches svc (mapStock raw_aapl) true)) =
  svc_addToRecentSearches svc (mapStock raw_aapl) true.
Proof.
  apply restart_restores_recent.
  - repeat constructor; discriminate.
  - split; discriminate.
Defined.

(** A cache holding the same instrument twice is restored as it is, and the
    store's recent list then repeats a symbol. *)
Lemma restored_cache_wf_iff_witness :
  let svc := svc_init (Some (persistRecent [cached_aapl; cached_aapl])) in
  svc_recentSearches svc = [cached_aapl; cached_aapl] /\
  ~ state_wf (stockReducer initialStockState
                (completeAction ChRecent loadRecentSearches (Responded (svc_getRecentSearches svc)))).
Proof.
  destruct (restored_cache_wf_iff [cached_aapl; cached_aapl]) as [H1 H2];
    [repeat constructor; vm_compute; discriminate |].
  split; [exact H1|]. rewrite H2. intros [_ Hn].
  apply NoDup_cons in Hn as [Hn _]. vm_compute in Hn. set_solver.
Defined.

Lemma stock_card_color_witness :
  getChangeColor (mapStock raw_aapl) = "success" <-> rs_open raw_aapl < rs_close raw_aapl.
Proof. apply stock_card_color. reflexivity. Defined.

Lemma searchStocks_case_insensitive_witness :
  svc_searchStocks "ApPl" [raw_aapl; raw_flat] = svc_searchStocks "aPPL" [raw_aapl; raw_flat].
Proof. apply searchStocks_case_insensitive. reflexivity. Defined.

(** A flat day renders as ["0.00%"] and a red card, although the change is
    not negative. *)
Example flat_day_danger :
  changePercent (mapStock raw_flat) = "0.00%" /\ getChangeColor (mapStock raw_flat) = "danger".
Proof. split; reflexivity. Qed.
