(* ===== verification/Presentational.v ===== *)
(** The presentational components of src/src/app/shared/components:
    [InstrumentComponent] (instrument.component.ts), [InstrumentTypeComponent]
    (instrument-type.component.ts) and the click of [StockCardComponent]
    (stock-card.component.ts; its colour and icon are in [Service], beside
    the format they read).  Each getter is a function of the inputs; each
    click handler returns the events it emits.  The templates are not part
    of the sources. *)

From S2P Require Import Prelude Model.

(** The inputs of [InstrumentComponent] (lines 15-24). *)
Inductive InstrumentDisplayMode := ModeHolding | ModeList | ModeCompact.
Inductive InstrumentSize := SizeSmall | SizeMedium | SizeLarge.

Record InstrumentInputs := mkInstrumentInputs {
  in_stock : StockInstrument;
  in_holding : option PortfolioHolding;
  in_mode : InstrumentDisplayMode;
  in_size : InstrumentSize;
  in_showLogo : bool;
  in_showChange : bool;
  in_showPrice : bool;
  in_clickable : bool
}.

(** The defaults of the inputs besides [stock]. *)
Definition instrument_defaults (st : StockInstrument) : InstrumentInputs :=
  mkInstrumentInputs st None ModeList SizeMedium true true true true.

(** [onInstrumentClick] (lines 28-32): the emitted stocks. *)
Definition onInstrumentClick (i : InstrumentInputs) : list StockInstrument :=
  if in_clickable i then [in_stock i] else [].

(** [get displayStock] (lines 34-36): [this.holding?.stock || this.stock]. *)
Definition displayStock (i : InstrumentInputs) : StockInstrument :=
  match in_holding i with Some h => stock h | None => in_stock i end.

(** [get shares] (lines 38-40): [this.holding?.shares || 0]; a zero share
    count is falsy and gives 0 as well. *)
Definition instrument_shares (i : InstrumentInputs) : Q :=
  match in_holding i with Some h => shares h | None => 0%Q end.

(** [InstrumentTypeComponent] (instrument-type.component.ts). *)
Inductive InstrumentType := TypeStock | TypeETF.

Definition instrumentType_text (t : InstrumentType) : string :=
  match t with TypeStock => "Stock" | TypeETF => "ETF" end.

(** [get displayText] and [get cssClass] (lines 15-21). *)
Definition displayText (t : InstrumentType) : string := instrumentType_text t.
Definition cssClass (t : InstrumentType) : string :=
  "instrument-type instrument-type--" +:+ instrumentType_text t.

(** [StockCardComponent.onCardClick] (stock-card.component.ts lines 19-21). *)
Definition onCardClick (st : StockInstrument) : list StockInstrument := [st].
