(* ===== verification/BuyOrder.v ===== *)
(** [BuyOrderComponent], src/src/app/shared/components/buy-order.component.ts.

    State: the inputs [stock] and [isOpen], the fields [amount] and [shares]
    the user edits, and whether the slide-up animation and the swipe gesture
    have been created.  Every handler is a step returning the new state and
    its outputs in order (emitted events, timers, DOM writes).

    [Math.round] is [floor (x + 1/2)] (halves go up), exact on rationals.
    The template is not part of the sources: a user edit of the amount or
    shares field is modelled as the [ngModel] write followed by the change
    handler ([onAmountChange]/[onSharesChange]); a swipe reaches the handlers
    only once the gesture exists, with the widths of the button and its
    track as parameters.

    Theorems: the amount and shares stay non-negative and consistent with
    each other to the rounding of one cent in every reachable state, a swipe
    past the threshold emits exactly the order the fields describe and
    anything shorter emits nothing, the swipe feedback stays within the
    track and the opacity within [0, 1], and an emitted order, once filled
    by the reducer, moves the gap between the equity and the holdings'
    value by the revaluation of the position already held in the symbol
    plus no more than the rounding of one cent. *)

From S2P Require Import Prelude Model Actions Reducer.
From Stdlib Require Import Qround Qabs Qminmax.

Local Open Scope Q_scope.

(** ** Rounding *)

(** [Math.round(x)] *)
Definition Math_round (x : Q) : Z := Qfloor (x + (1 # 2)).

(** [Math.round(x * 100) / 100] *)
Definition round2 (x : Q) : Q := inject_Z (Math_round (x * 100)) / 100.

(** ** The component *)

Record BuyOrderForm := mkForm {
  bo_stock : option StockInstrument;
  bo_isOpen : bool;
  amount : Q;
  bo_shares : Q;
  slideUpAnimation : bool;
  swipeGesture : bool
}.

(** The field initialisers (lines 16-25). *)
Definition initialForm : BuyOrderForm := mkForm None false 500 (855 # 100) false false.

Definition set_amount (a : Q) (f : BuyOrderForm) : BuyOrderForm :=
  mkForm (bo_stock f) (bo_isOpen f) a (bo_shares f) (slideUpAnimation f) (swipeGesture f).
Definition set_shares (s : Q) (f : BuyOrderForm) : BuyOrderForm :=
  mkForm (bo_stock f) (bo_isOpen f) (amount f) s (slideUpAnimation f) (swipeGesture f).
Definition set_inputs (st : option StockInstrument) (o : bool) (f : BuyOrderForm) : BuyOrderForm :=
  mkForm st o (amount f) (bo_shares f) (slideUpAnimation f) (swipeGesture f).
Definition set_view (anim gest : bool) (f : BuyOrderForm) : BuyOrderForm :=
  mkForm (bo_stock f) (bo_isOpen f) (amount f) (bo_shares f) anim gest.

(** [calculateShares] (lines 57-61). *)
Definition calculateShares (f : BuyOrderForm) : BuyOrderForm :=
  match bo_stock f with
  | Some st => if Qlt_le_dec 0 (price st) then set_shares (round2 (amount f / price st)) f else f
  | None => f
  end.

(** [calculateAmount] (lines 63-67). *)
Definition calculateAmount (f : BuyOrderForm) : BuyOrderForm :=
  match bo_stock f with
  | Some st => if Qlt_le_dec 0 (price st) then set_amount (round2 (bo_shares f * price st)) f else f
  | None => f
  end.

(** [onAmountChange] (lines 178-183). *)
Definition onAmountChange (f : BuyOrderForm) : BuyOrderForm :=
  calculateShares (if Qlt_le_dec (amount f) 0 then set_amount 0 f else f).

(** [onSharesChange] (lines 185-190). *)
Definition onSharesChange (f : BuyOrderForm) : BuyOrderForm :=
  calculateAmount (if Qlt_le_dec (bo_shares f) 0 then set_shares 0 f else f).

(** What the component does outside its fields. *)
Inductive FormOutput :=
  | EmitOrderPlaced (order : BuyOrder)
  | EmitOrderPlacedWithoutStock (shares estimatedTotal : Q)  (* [stock] unset: [undefined] *)
  | EmitCloseModal
  | ScheduleCloseModal (delay : nat)                          (* [setTimeout(..., 300)] *)
  | ScheduleOpen                                              (* [setTimeout(open, 0)] *)
  | PlayAnimation (reverse : bool)
  | SetButtonOffset (px : Q)                                  (* [translateX(px)] *)
  | SetTextOpacity (o : Q).

(** [close] (lines 167-176). *)
Definition close (f : BuyOrderForm) : list FormOutput :=
  if slideUpAnimation f then [PlayAnimation true; ScheduleCloseModal 300] else [EmitCloseModal].

(** [resetSwipeButton] (lines 136-149), with the swipe text present. *)
Definition resetSwipeButton : list FormOutput := [SetButtonOffset 0; SetTextOpacity 1].

(** [completePurchase] (lines 192-203). *)
Definition completePurchase (f : BuyOrderForm) : list FormOutput :=
  let emitted :=
    match bo_stock f with
    | Some st => EmitOrderPlaced {| order_stock := st; order_shares := bo_shares f;
                                    orderType := Market; limitPrice := None;
                                    estimatedTotal := amount f |}
    | None => EmitOrderPlacedWithoutStock (bo_shares f) (amount f)
    end in
  emitted :: close f ++ resetSwipeButton.

(** The geometry both swipe handlers compute (lines 98-101, 122-125). *)
Definition maxSwipeDistance (trackWidth buttonWidth : Q) : Q := trackWidth - buttonWidth - 8.
Definition swipeThreshold (trackWidth buttonWidth : Q) : Q :=
  Qmax (maxSwipeDistance trackWidth buttonWidth * (8 # 10)) 150.

(** [onSwipeMove] (lines 93-115). *)
Definition onSwipeMove (deltaX trackWidth buttonWidth : Q) (hasText : bool) : list FormOutput :=
  let maxSwipe := maxSwipeDistance trackWidth buttonWidth in
  let clampedDelta := Qmin (Qmax 0 deltaX) maxSwipe in
  SetButtonOffset clampedDelta ::
  (if hasText then [SetTextOpacity (Qmax (1 - clampedDelta / (trackWidth * (6 # 10))) 0)] else []).

(** [onSwipeEnd] (lines 117-134). *)
Definition onSwipeEnd (f : BuyOrderForm) (deltaX trackWidth buttonWidth : Q) : list FormOutput :=
  if Qle_bool (swipeThreshold trackWidth buttonWidth) deltaX then completePurchase f
  else resetSwipeButton.

(** The events the component receives. *)
Inductive FormEvent :=
  | InputsChanged (stock : option (option StockInstrument)) (isOpen : option bool)
  | FormInit
  | ViewInit (modalPresent buttonPresent : bool)
  | OpenFired (modalPresent buttonPresent : bool)
  | AmountInput (v : Q)
  | SharesInput (v : Q)
  | SwipeMove (deltaX trackWidth buttonWidth : Q) (hasText : bool)
  | SwipeEnd (deltaX trackWidth buttonWidth : Q)
  | CloseClick.

Definition form_step (f : BuyOrderForm) (ev : FormEvent) : BuyOrderForm * list FormOutput :=
  match ev with
  | InputsChanged stock isOpen =>
      (* Angular writes the changed inputs, then calls [ngOnChanges] (32-42) *)
      let f1 := set_inputs (default (bo_stock f) stock) (default (bo_isOpen f) isOpen) f in
      let opens := match isOpen with
                   | Some true => negb (bo_isOpen f)
                   | _ => false
                   end in
      let f2 := match stock with
                | Some (Some _) => calculateShares f1
                | _ => f1
                end in
      (f2, if opens then [ScheduleOpen] else [])
  | FormInit => (calculateShares f, [])
  | ViewInit modal button =>
      (* [ngAfterViewInit] (50-55) *)
      if bo_isOpen f then (set_view (slideUpAnimation f || modal) (swipeGesture f || button) f, [])
      else (f, [])
  | OpenFired modal button =>
      (* the callback of [open] (151-165) *)
      let f1 := set_view (slideUpAnimation f || modal) (swipeGesture f || button) f in
      (f1, if slideUpAnimation f1 then [PlayAnimation false] else [])
  | AmountInput v => (onAmountChange (set_amount v f), [])
  | SharesInput v => (onSharesChange (set_shares v f), [])
  | SwipeMove dx tw bw hasText =>
      (f, if swipeGesture f then onSwipeMove dx tw bw hasText else [])
  | SwipeEnd dx tw bw => (f, if swipeGesture f then onSwipeEnd f dx tw bw else [])
  | CloseClick => (f, close f)
  end.

Inductive form_reachable : BuyOrderForm -> Prop :=
  | form_reachable_init : form_reachable initialForm
  | form_reachable_step f ev : form_reachable f -> form_reachable (fst (form_step f ev)).

(** ** Invariant *)

(** The bound [Math.round] leaves between the two fields: one cent of
    shares at the price, or one cent of amount. *)
Definition cent_bound (p : Q) : Q := Qmax (p * (1 # 200)) (1 # 200).

Definition form_wf (f : BuyOrderForm) : Prop :=
  0 <= amount f /\ 0 <= bo_shares f /\
  forall st, bo_stock f = Some st -> 0 < price st ->
    Qabs (bo_shares f * price st - amount f) <= cent_bound (price st).

(** The orders a list of outputs emits through [orderPlaced]. *)
Definition emitted_orders (outs : list FormOutput) : list BuyOrder :=
  omap (fun o => match o with EmitOrderPlaced x => Some x | _ => None end) outs.

(** A stock for the examples. *)
Definition form_demo_stock : StockInstrument :=
  mkStock "AAPL" "Apple Inc." 150 "+1.50%" None None None None None.

(** The form after the page opens it on [form_demo_stock], the view is
    ready and the user types an amount of 1000. *)
Definition form_demo : BuyOrderForm :=
  fst (form_step (fst (form_step (fst (form_step initialForm
    (InputsChanged (Some (Some form_demo_stock)) (Some true)))) (ViewInit true true)))
    (AmountInput 1000)).

(** A store holding a portfolio of cash only. *)
Definition cash_state : StockState := set_portfolio (Some (mkPortfolio 1000 [])) initialStockState.

(** A portfolio holding 10 shares of [form_demo_stock] still valued at 100
    a share, below the stock's price of 150. *)
Definition stale_portfolio : Portfolio :=
  mkPortfolio 2000 [mkHolding form_demo_stock 10 1000].
Definition stale_state : StockState := set_portfolio (Some stale_portfolio) initialStockState.

(** ** Lemmas on rounding and [Math.max]/[Math.min] *)

Lemma Qmax_cases x y : (y <= x /\ Qmax x y = x) \/ (x < y /\ Qmax x y = y).
Proof.
  unfold Qmax, GenericMinMax.gmax. destruct (Qcompare x y) eqn:E.
  - left. apply Qeq_alt in E. split; [lra | done].
  - right. apply Qlt_alt in E. done.
  - left. apply Qgt_alt in E. split; [lra | done].
Qed.

Lemma Qmin_cases x y : (x <= y /\ Qmin x y = x) \/ (y < x /\ Qmin x y = y).
Proof.
  unfold Qmin, GenericMinMax.gmin. destruct (Qcompare x y) eqn:E.
  - left. apply Qeq_alt in E. split; [lra | done].
  - left. apply Qlt_alt in E. split; [lra | done].
  - right. apply Qgt_alt in E. done.
Qed.

Lemma Math_round_bound x : x - (1 # 2) < inject_Z (Math_round x) <= x + (1 # 2).
Proof.
  unfold Math_round. pose proof (Qfloor_le (x + (1 # 2))) as H1.
  pose proof (Qlt_floor (x + (1 # 2))) as H2. rewrite inject_Z_plus in H2.
  change (inject_Z 1) with 1 in H2. split; lra.
Qed.

Lemma round2_bound x : Qabs (round2 x - x) <= 1 # 200.
Proof.
  apply Qabs_Qle_condition. unfold round2.
  pose proof (Math_round_bound (x * 100)) as [H1 H2].
  set (r := inject_Z (Math_round (x * 100))) in *.
  assert (E : r / 100 - x == (r - x * 100) / 100) by field.
  rewrite E. split.
  - apply Qle_shift_div_l; [reflexivity | lra].
  - apply Qle_shift_div_r; [reflexivity | lra].
Qed.

Lemma round2_nonneg x : 0 <= x -> 0 <= round2 x.
Proof.
  intros Hx. unfold round2, Math_round.
  assert (H : (Qfloor 0 <= Qfloor (x * 100 + (1 # 2)))%Z) by (apply Qfloor_resp_le; lra).
  change (Qfloor 0) with 0%Z in H. apply Qle_shift_div_l; [reflexivity|].
  rewrite Qmult_0_l. change 0 with (inject_Z 0). by rewrite <- Zle_Qle.
Qed.

#[local] Hint Resolve round2_nonneg : stake.

Lemma cent_bound_ge p : p * (1 # 200) <= cent_bound p /\ 1 # 200 <= cent_bound p.
Proof. unfold cent_bound. destruct (Qmax_cases (p * (1 # 200)) (1 # 200)) as [[? ->]|[? ->]]; lra. Qed.

(** ** The invariant, operation by operation *)

Lemma form_wf_ext f g :
  bo_stock g = bo_stock f -> amount g = amount f -> bo_shares g = bo_shares f ->
  form_wf f -> form_wf g.
Proof. unfold form_wf. intros -> -> ->. done. Qed.

(** Shares computed from the amount are a cent of shares away from it. *)
Lemma shares_from_amount a p : 0 < p -> Qabs (round2 (a / p) * p - a) <= p * (1 # 200).
Proof.
  intros Hp. assert (E : round2 (a / p) * p - a == (round2 (a / p) - a / p) * p) by (field; lra).
  rewrite E, Qabs_Qmult, (Qabs_pos p), (Qmult_comm p (1 # 200)) by lra.
  apply Qmult_le_compat_r; [apply round2_bound | lra].
Qed.

Lemma amount_from_shares s p : Qabs (s * p - round2 (s * p)) <= 1 # 200.
Proof.
  assert (E : s * p - round2 (s * p) == - (round2 (s * p) - s * p)) by ring.
  rewrite E, Qabs_opp. apply round2_bound.
Qed.

Lemma Qdiv_nonneg a p : 0 <= a -> 0 < p -> 0 <= a / p.
Proof. intros Ha Hp. apply Qle_shift_div_l; [done | lra]. Qed.

Lemma calculateShares_wf f : 0 <= amount f -> 0 <= bo_shares f -> form_wf (calculateShares f).
Proof.
  intros Ha Hs. unfold calculateShares.
  destruct (bo_stock f) as [st|] eqn:Est; [destruct (Qlt_le_dec 0 (price st)) as [Hp|Hp]|].
  - repeat split; simpl; [done | apply round2_nonneg, Qdiv_nonneg; done |].
    intros st' Hst' _. rewrite Est in Hst'. injection Hst' as <-. eapply Qle_trans; [apply shares_from_amount; done | apply cent_bound_ge].
  - repeat split; [done..|]. intros st' Hst' Hp'. rewrite Est in Hst'. simplify_eq. lra.
  - repeat split; [done..|]. intros st' Hst'. congruence.
Qed.

Lemma calculateAmount_wf f : 0 <= amount f -> 0 <= bo_shares f -> form_wf (calculateAmount f).
Proof.
  intros Ha Hs. unfold calculateAmount.
  destruct (bo_stock f) as [st|] eqn:Est; [destruct (Qlt_le_dec 0 (price st)) as [Hp|Hp]|].
  - repeat split; simpl; [apply round2_nonneg, Qmult_le_0_compat; lra | done |].
    intros st' Hst' _. rewrite Est in Hst'. injection Hst' as <-. eapply Qle_trans; [apply amount_from_shares | apply cent_bound_ge].
  - repeat split; [done..|]. intros st' Hst' Hp'. rewrite Est in Hst'. simplify_eq. lra.
  - repeat split; [done..|]. intros st' Hst'. congruence.
Qed.

Lemma form_step_wf f ev : form_wf f -> form_wf (fst (form_step f ev)).
Proof.
  intros Hf. pose proof Hf as (Ha & Hs & _).
  destruct ev as [stock isOpen| | modal button | modal button | v | v | | |]; cbn [form_step fst].
  - destruct stock as [[st|]|].
    + by apply calculateShares_wf.
    + repeat split; [done..|]. intros st' Hst'. discriminate.
    + by apply (form_wf_ext f).
  - by apply calculateShares_wf.
  - destruct (bo_isOpen f); [by apply (form_wf_ext f) | done].
  - by apply (form_wf_ext f).
  - unfold onAmountChange. destruct (Qlt_le_dec _ 0); apply calculateShares_wf; simpl in *; lra.
  - unfold onSharesChange. destruct (Qlt_le_dec _ 0); apply calculateAmount_wf; simpl in *; lra.
  - done.
  - done.
  - done.
Qed.

Lemma initialForm_wf : form_wf initialForm.
Proof. repeat split; [done | done |]. intros st Hst. discriminate. Qed.

Lemma swipeThreshold_ge tw bw : 150 <= swipeThreshold tw bw.
Proof. unfold swipeThreshold. destruct (Qmax_cases (maxSwipeDistance tw bw * (8 # 10)) 150) as [[? ->]|[? ->]]; lra. Qed.

Lemma emitted_orders_app o1 o2 : emitted_orders (o1 ++ o2) = emitted_orders o1 ++ emitted_orders o2.
Proof. apply omap_app. Qed.

Lemma close_reset_no_orders f : emitted_orders (close f ++ resetSwipeButton) = [].
Proof. unfold close. by destruct (slideUpAnimation f). Qed.

Lemma onSwipeMove_no_orders dx tw bw t : emitted_orders (onSwipeMove dx tw bw t) = [].
Proof. unfold onSwipeMove. by destruct t. Qed.

Lemma completePurchase_orders f :
  emitted_orders (completePurchase f) =
    match bo_stock f with
    | Some st => [{| order_stock := st; order_shares := bo_shares f; orderType := Market;
                     limitPrice := None; estimatedTotal := amount f |}]
    | None => []
    end.
Proof.
  unfold completePurchase. destruct (bo_stock f);
    change (emitted_orders (?x :: ?l)) with (emitted_orders [x] ++ emitted_orders l);
    by rewrite close_reset_no_orders, app_nil_r.
Qed.

(** The invariant holds in every reachable state. *)
Lemma form_reachable_inv f : form_reachable f -> form_wf f.
Proof. induction 1; [apply initialForm_wf | by apply form_step_wf]. Qed.

(** What an emitted order is, in a state satisfying the invariant. *)
Lemma emitted_order_spec (f : BuyOrderForm) (ev : FormEvent) (o : BuyOrder) :
  form_wf f -> o ∈ emitted_orders (snd (form_step f ev)) ->
  (exists dx tw bw, ev = SwipeEnd dx tw bw /\ swipeGesture f = true /\
     150 <= swipeThreshold tw bw <= dx) /\
  bo_stock f = Some (order_stock o) /\
  o = {| order_stock := order_stock o; order_shares := bo_shares f; orderType := Market;
         limitPrice := None; estimatedTotal := amount f |} /\
  0 <= order_shares o /\ 0 <= estimatedTotal o /\
  (0 < price (order_stock o) ->
   Qabs (order_shares o * price (order_stock o) - estimatedTotal o)
     <= cent_bound (price (order_stock o))).
Proof.
  intros (Ha & Hs & Hc) Ho.
  destruct ev as [stock isOpen| | modal button | modal button | v | v | dx tw bw t | dx tw bw |];
    cbn [form_step snd] in Ho; try (repeat case_match; set_solver).
  - case_match; [rewrite onSwipeMove_no_orders in Ho|]; set_solver.
  - destruct (swipeGesture f) eqn:Eg; [|set_solver].
    unfold onSwipeEnd in Ho. destruct (Qle_bool _ dx) eqn:Ed; [|set_solver].
    rewrite completePurchase_orders in Ho.
    destruct (bo_stock f) as [st|] eqn:Est; [|set_solver].
    apply list_elem_of_singleton in Ho as ->. cbn.
    split; [|split; [done|split; [done|split; [done|split; [done|]]]]].
    + exists dx, tw, bw. split; [done|]. split; [done|].
      split; [apply swipeThreshold_ge | by apply Qle_bool_iff].
    + by apply Hc.
  - unfold close in Ho. case_match; set_solver.
Qed.

(** ** The equity drift of an order *)

(** ** Properties *)

(** (C26) In every state the component reaches, the amount and the shares
    are non-negative, and for a stock of positive price the shares times
    the price differ from the amount by at most one cent of shares at that
    price or one cent of amount, whichever is larger. *)
Theorem form_reachable_wf (f : BuyOrderForm) : form_reachable f -> form_wf f.
Proof.
  induction 1; [apply initialForm_wf | by apply form_step_wf].
Qed.

(** (C27) The component emits an order only on the end of a swipe of at
    least the threshold (never under 150 px) once the gesture exists, and
    the order is a market order for the selected stock with the fields'
    shares and amount as estimated total, both non-negative and within the
    rounding bound of each other. *)
Theorem form_orders_sound (f : BuyOrderForm) (ev : FormEvent) (o : BuyOrder) :
  form_reachable f -> o ∈ emitted_orders (snd (form_step f ev)) ->
  (exists dx tw bw, ev = SwipeEnd dx tw bw /\ swipeGesture f = true /\
     150 <= swipeThreshold tw bw <= dx) /\
  bo_stock f = Some (order_stock o) /\
  o = {| order_stock := order_stock o; order_shares := bo_shares f; orderType := Market;
         limitPrice := None; estimatedTotal := amount f |} /\
  0 <= order_shares o /\ 0 <= estimatedTotal o /\
  (0 < price (order_stock o) ->
   Qabs (order_shares o * price (order_stock o) - estimatedTotal o)
     <= cent_bound (price (order_stock o))).
Proof. intros Hr. apply emitted_order_spec. by apply form_reachable_inv. Qed.

(** (C28) The swipe feedback: on a track at least as wide as the button and
    its margin, the button moves between 0 and the maximal distance, and the
    text opacity stays within [0, 1]. *)
Theorem swipe_move_bounds (dx tw bw : Q) :
  0 <= maxSwipeDistance tw bw -> 0 < tw ->
  exists c o, onSwipeMove dx tw bw true = [SetButtonOffset c; SetTextOpacity o] /\
    0 <= c <= maxSwipeDistance tw bw /\ 0 <= o <= 1.
Proof.
  intros Hm Ht. unfold onSwipeMove.
  set (c := Qmin (Qmax 0 dx) (maxSwipeDistance tw bw)).
  assert (Hc : 0 <= c <= maxSwipeDistance tw bw).
  { unfold c. destruct (Qmax_cases 0 dx) as [[? ->]|[? ->]];
      [destruct (Qmin_cases 0 (maxSwipeDistance tw bw)) as [[? ->]|[? ->]]
      |destruct (Qmin_cases dx (maxSwipeDistance tw bw)) as [[? ->]|[? ->]]]; lra. }
  assert (Hq : 0 <= c / (tw * (6 # 10))) by (apply Qdiv_nonneg; lra).
  eexists _, _. split; [reflexivity|]. split; [done|].
  destruct (Qmax_cases (1 - c / (tw * (6 # 10))) 0) as [[? ->]|[? ->]]; lra.
Qed.

(** (C31) The drift the spec's open question anticipates comes from two
    sources only: an order the buy-order form emits from a reachable state,
    for a stock of positive price, changes the gap between the total equity
    and the holdings' value by the revaluation of the position already held
    in the symbol (its value minus its shares at the order's price, zero
    when the symbol is new) plus a rounding error of at most one cent of
    shares at that price or one cent of amount. *)
Theorem form_order_equity_drift (f : BuyOrderForm) (ev : FormEvent) (o : BuyOrder)
    (s : StockState) (p : Portfolio) :
  form_reachable f -> o ∈ emitted_orders (snd (form_step f ev)) ->
  0 < price (order_stock o) -> portfolio s = Some p ->
  exists p', portfolio (stockReducer s (placeOrderSuccess o)) = Some p' /\
    Qabs (equity_gap p' - equity_gap p
          - ((held_position p (symbol (order_stock o))).2
             - (held_position p (symbol (order_stock o))).1 * price (order_stock o)))
      <= cent_bound (price (order_stock o)).
Proof.
  intros Hf Ho Hpr Hs.
  destruct (emitted_order_spec f ev o (form_reachable_inv f Hf) Ho) as (_ & _ & _ & _ & _ & Hb).
  destruct (orderFill_gap_exact s o p Hs) as (p' & Hp' & Hgap).
  exists p'. split; [done|]. rewrite Hgap.
  set (v := (held_position p (symbol (order_stock o))).2).
  set (k := (held_position p (symbol (order_stock o))).1).
  assert (E : equity_gap p + estimatedTotal o + v - (k + order_shares o) * price (order_stock o)
              - equity_gap p - (v - k * price (order_stock o))
              == - (order_shares o * price (order_stock o) - estimatedTotal o)) by ring.
  rewrite E, Qabs_opp. by apply Hb.
Qed.

(** ** Witnesses *)

Lemma form_demo_reachable : form_reachable form_demo.
Proof. unfold form_demo. repeat apply form_reachable_step. apply form_reachable_init. Qed.

Lemma form_reachable_wf_witness : form_wf form_demo.
Proof. apply form_reachable_wf, form_demo_reachable. Defined.

(** A swipe of 200 px on a 300 px track with a 50 px button buys 6.67
    shares for 1000. *)
Lemma form_orders_sound_witness :
  let o := {| order_stock := form_demo_stock; order_shares := 667 # 100; orderType := Market;
              limitPrice := None; estimatedTotal := 1000 |} in
  o ∈ emitted_orders (snd (form_step form_demo (SwipeEnd 200 300 50))) /\
  bo_stock form_demo = Some (order_stock o) /\ 0 <= estimatedTotal o.
Proof.
  cbv zeta.
  assert (H : {| order_stock := form_demo_stock; order_shares := 667 # 100; orderType := Market;
                 limitPrice := None; estimatedTotal := 1000 |}
              ∈ emitted_orders (snd (form_step form_demo (SwipeEnd 200 300 50))))
    by (vm_compute; left).
  split; [exact H|].
  destruct (form_orders_sound _ _ _ form_demo_reachable H) as (_ & Hs & _ & _ & Ht & _).
  split; [exact Hs | exact Ht].
Defined.

Lemma swipe_move_bounds_witness :
  exists c o, onSwipeMove 100 300 50 true = [SetButtonOffset c; SetTextOpacity o] /\
    0 <= c <= maxSwipeDistance 300 50 /\ 0 <= o <= 1.
Proof. apply swipe_move_bounds; vm_compute; [discriminate | reflexivity]. Defined.

(** The form's order of 6.67 shares for 1000 at 150 onto 10 shares valued
    at 1000: the gap moves by the revaluation of -500 and a rounding error
    of 0.5, within the bound of 0.75. *)
Lemma form_order_equity_drift_witness :
  exists p', portfolio (stockReducer stale_state
                 (placeOrderSuccess {| order_stock := form_demo_stock; order_shares := 667 # 100;
                                       orderType := Market; limitPrice := None;
                                       estimatedTotal := 1000 |})) = Some p' /\
    (Qabs (equity_gap p' - equity_gap stale_portfolio - (1000 - 10 * 150)) <= cent_bound 150)%Q.
Proof.
  apply (form_order_equity_drift form_demo (SwipeEnd 200 300 50)).
  - apply form_demo_reachable.
  - vm_compute. left.
  - reflexivity.
  - reflexivity.
Defined.
