(* ===== verification/Invest.v ===== *)
(** [TabInvestPage], src/src/app/tab-invest/tab-invest.page.ts.

    State: [selectedStock], [isBuyOrderModalOpen] and whether [destroy$]
    has fired.  Each handler and each subscription callback is a step
    returning the new page and its outputs in order, with the output type of
    the discover page ([Dispatch], [ShowToast], [ScheduleDispatch]).  The
    observables [portfolio$], [trendingStocks$] and [isLoading$] are the
    selectors of [Selectors]; the refresher's [complete()] after 1000 ms and
    the [console.log] calls only touch the view and are not modelled. *)

From S2P Require Import Prelude Model Actions Discover.

Record InvestPage := mkInvest {
  ip_selectedStock : option StockInstrument;
  ip_isBuyOrderModalOpen : bool;
  ip_destroyed : bool
}.

Definition initialInvest : InvestPage := mkInvest None false false.

Inductive InvestEvent :=
  | IInit
  | IRefresh
  | IStockClick (st : StockInstrument)
  | IStockCardClick (st : StockInstrument)
  | IBuyOrderClose
  | IOrderPlaced (order : BuyOrder)
  | IBuyOrderSuccessEmits (success : bool)
  | IBuyOrderErrorEmits (err : option string)
  | IDestroy.

(** [loadDashboardData] (lines 78-82). *)
Definition loadDashboardData : list PageOutput :=
  [Dispatch loadStock; Dispatch loadPortfolio; Dispatch loadTrendingStocks].

(** [onBuyOrderClose] (lines 101-104). *)
Definition invest_close (p : InvestPage) : InvestPage := mkInvest None false (ip_destroyed p).

Definition invest_step (p : InvestPage) (ev : InvestEvent) : InvestPage * list PageOutput :=
  match ev with
  | IInit => (p, loadDashboardData)                              (* ngOnInit, 49-71 *)
  | IRefresh => (p, loadDashboardData)                           (* onRefresh, 84-89 *)
  | IStockClick _ => (p, [])                                     (* onStockClick, 91-93 *)
  | IStockCardClick st => (mkInvest (Some st) true (ip_destroyed p), [])  (* 95-99 *)
  | IBuyOrderClose => (invest_close p, [])
  | IOrderPlaced order =>                                        (* onOrderPlaced, 126-132 *)
      (invest_close p,
       [Dispatch (placeOrder order);
        ShowToast SuccessToast (symbol (order_stock order) +:+ " successfully purchased")])
  | IBuyOrderSuccessEmits b =>                                   (* lines 52-61 *)
      if ip_destroyed p then (p, []) else
      (p, if b then [ScheduleDispatch 100 clearBuyOrder] else [])
  | IBuyOrderErrorEmits e =>                                     (* lines 63-70 *)
      if ip_destroyed p then (p, []) else
      (p, match e with
          | Some m => if String.eqb m "" then []
                      else [ShowToast ErrorToast ("Failed to place order: " +:+ m)]
          | None => [] end)
  | IDestroy => (mkInvest (ip_selectedStock p) (ip_isBuyOrderModalOpen p) true, [])
  end.
