(* ===== verification/System.v ===== *)
(** The running application: the store, the effect runner, the service and
    the two pages wired together as in src/src/app (app.module.ts registers
    [stockReducer] under [stocks] and [StockEffects]; the pages inject the
    store).

    State ([System]): the store's [StockState], the effects' per-channel
    requests, the service, the answers the service fixed when a request was
    made (the recent-searches snapshot of [getRecentSearches], built before
    its [delay(100)]), both pages with whether their [ngOnInit]
    subscriptions are live, the pending [setTimeout] callbacks, the toasts
    shown, and whether [localStorage] accepts writes.

    [sys_dispatch] is [store.dispatch]: the reducer, then the effects on the
    action (service calls and new requests), then the store subscriptions
    of the pages on [selectBuyOrderSuccess]/[selectBuyOrderError], which
    emit only on a change ([store.select] is distinct).  A step is a user
    event of a page (its outputs processed in order), a timer firing, or the
    answer of a request: HTTP answers carry the backend's body or an error
    and go through the service's mapping; the recent-search answer is the
    snapshot; the order answer is [placeOrder]'s success.  Timers and
    answers may come in any order, which over-approximates the fixed delays;
    the theorems are therefore invariants and per-step facts, which hold a
    fortiori for the real schedule.  (In that schedule the 100 ms answer of
    the recent-search load precedes any pick from search results, which
    needs a 300 ms debounce and a backend answer, so the disagreement that
    the any-order model lets a late recent answer cause is not claimed.)
    The subscribers of the two pages are notified discover page first.

    Theorems: the end-to-end invariant (holdings with distinct symbols,
    recent lists bounded and deduplicated in the store and in the service)
    given a well-formed stored list and a backend that lists each position
    once; the store's recent list and the service's stay equal except when
    a recent-search answer arrives, which restores agreement exactly when
    its snapshot is current; the post-success auto-clear of an order; and the
    search round trip from the backend's answer to the store's results;
    and that no order error is ever recorded or shown.  The preservation
    arguments share one Section ([PagePreservation]): a property kept by
    the pages' view updates, by their side outputs and by dispatching what
    they dispatch is kept by every page event. *)

From S2P Require Import Prelude Model Actions Recent Reducer Effects Discover Service BuyOrder Invest.

Record System := mkSystem {
  sys_store : StockState;
  sys_effects : EffectsState;
  sys_service : ServiceState;
  sys_snapshots : list (nat * ApiResponse (list SearchResult));
  sys_discover : DiscoverPage;
  sys_discover_live : bool;
  sys_invest : InvestPage;
  sys_invest_live : bool;
  sys_timers : list Action;
  sys_toasts : list (ToastKind * string);
  sys_writable : bool
}.

Definition sys_init (stored : option StoredText) (writable : bool) : System :=
  mkSystem initialStockState initialEffects (svc_init stored) [] initialDiscover false
    initialInvest false [] [] writable.

(** ** Field updates *)

Definition set_core (st : StockState) (es : EffectsState) (svc : ServiceState)
    (snaps : list (nat * ApiResponse (list SearchResult))) (s : System) : System :=
  mkSystem st es svc snaps (sys_discover s) (sys_discover_live s) (sys_invest s)
    (sys_invest_live s) (sys_timers s) (sys_toasts s) (sys_writable s).
Definition set_ui (dp : DiscoverPage) (dl : bool) (ip : InvestPage) (il : bool) (s : System)
    : System :=
  mkSystem (sys_store s) (sys_effects s) (sys_service s) (sys_snapshots s) dp dl ip il
    (sys_timers s) (sys_toasts s) (sys_writable s).
Definition set_timers (ts : list Action) (s : System) : System :=
  mkSystem (sys_store s) (sys_effects s) (sys_service s) (sys_snapshots s) (sys_discover s)
    (sys_discover_live s) (sys_invest s) (sys_invest_live s) ts (sys_toasts s) (sys_writable s).
Definition add_toast (t : ToastKind * string) (s : System) : System :=
  mkSystem (sys_store s) (sys_effects s) (sys_service s) (sys_snapshots s) (sys_discover s)
    (sys_discover_live s) (sys_invest s) (sys_invest_live s) (sys_timers s)
    (sys_toasts s ++ [t]) (sys_writable s).

(** ** Dispatch *)

(** What the effects ask of the service during a dispatch. *)
Definition run_command (s : System) (c : Command) : System :=
  match c with
  | ServiceAddRecent st =>
      set_core (sys_store s) (sys_effects s)
        (svc_addToRecentSearches (sys_service s) st (sys_writable s)) (sys_snapshots s) s
  | Request ChRecent n _ =>
      set_core (sys_store s) (sys_effects s) (sys_service s)
        ((n, svc_getRecentSearches (sys_service s)) :: sys_snapshots s) s
  | Request _ _ _ => s
  end.

(** The outputs of a subscription callback: toasts and timers. *)
Definition side_output (s : System) (o : PageOutput) : System :=
  match o with
  | ShowToast k m => add_toast (k, m) s
  | ScheduleDispatch _ a => set_timers (sys_timers s ++ [a]) s
  | Dispatch _ => s
  end.

Definition side_outputs (s : System) (outs : list PageOutput) : System :=
  fold_left side_output outs s.

(** The live subscribers of the discover page, then of the invest page,
    receive a value. *)
Definition deliver (dev : DiscoverEvent) (iev : InvestEvent) (s : System) : System :=
  let s1 :=
    if sys_discover_live s then
      let '(dp, outs) := discover_step (sys_discover s) dev in
      side_outputs (set_ui dp true (sys_invest s) (sys_invest_live s) s) outs
    else s in
  if sys_invest_live s1 then
    let '(ip, outs) := invest_step (sys_invest s1) iev in
    side_outputs (set_ui (sys_discover s1) (sys_discover_live s1) ip true s1) outs
  else s1.

(** The distinct [store.select] subscriptions after a state change. *)
Definition notify (old new : StockState) (s : System) : System :=
  let s1 := if bool_decide (buyOrderSuccess old = buyOrderSuccess new) then s
            else deliver (BuyOrderSuccessEmits (buyOrderSuccess new))
                         (IBuyOrderSuccessEmits (buyOrderSuccess new)) s in
  if bool_decide (error (buyOrderLoading old) = error (buyOrderLoading new)) then s1
  else deliver (BuyOrderErrorEmits (error (buyOrderLoading new)))
               (IBuyOrderErrorEmits (error (buyOrderLoading new))) s1.

(** [store.dispatch(a)] *)
Definition sys_dispatch (s : System) (a : Action) : System :=
  let old := sys_store s in
  let new := stockReducer old a in
  let '(es, cmds) := effects_on_action (sys_effects s) a in
  let s1 := fold_left run_command cmds
              (set_core new es (sys_service s) (sys_snapshots s) s) in
  notify old new s1.

(** The outputs of a page handler, in order. *)
Definition page_output (s : System) (o : PageOutput) : System :=
  match o with
  | Dispatch a => sys_dispatch s a
  | _ => side_output s o
  end.

Definition page_outputs (s : System) (outs : list PageOutput) : System :=
  fold_left page_output outs s.

(** ** Steps *)

(** The discover page's own events; its subscription callbacks are driven
    by [notify] only. *)
Definition discover_user (ev : DiscoverEvent) : bool :=
  match ev with BuyOrderSuccessEmits _ | BuyOrderErrorEmits _ => false | _ => true end.
Definition invest_user (ev : InvestEvent) : bool :=
  match ev with IBuyOrderSuccessEmits _ | IBuyOrderErrorEmits _ => false | _ => true end.

(** [ngOnInit] subscribes after its dispatches; [store.select] then emits
    the current values to the new subscriber. *)
Definition discover_event (s : System) (ev : DiscoverEvent) : System :=
  let '(dp, outs) := discover_step (sys_discover s) ev in
  let live := match ev with Destroy => false | _ => sys_discover_live s end in
  let s1 := page_outputs (set_ui dp live (sys_invest s) (sys_invest_live s) s) outs in
  match ev with
  | Init =>
      let st := sys_store s1 in
      let '(dp1, o1) := discover_step (sys_discover s1) (BuyOrderSuccessEmits (buyOrderSuccess st)) in
      let s2 := side_outputs (set_ui dp1 true (sys_invest s1) (sys_invest_live s1) s1) o1 in
      let '(dp2, o2) := discover_step (sys_discover s2) (BuyOrderErrorEmits (error (buyOrderLoading st))) in
      side_outputs (set_ui dp2 true (sys_invest s2) (sys_invest_live s2) s2) o2
  | _ => s1
  end.

Definition invest_event (s : System) (ev : InvestEvent) : System :=
  let '(ip, outs) := invest_step (sys_invest s) ev in
  let live := match ev with IDestroy => false | _ => sys_invest_live s end in
  let s1 := page_outputs (set_ui (sys_discover s) (sys_discover_live s) ip live s) outs in
  match ev with
  | IInit =>
      let st := sys_store s1 in
      let '(ip1, o1) := invest_step (sys_invest s1) (IBuyOrderSuccessEmits (buyOrderSuccess st)) in
      let s2 := side_outputs (set_ui (sys_discover s1) (sys_discover_live s1) ip1 true s1) o1 in
      let '(ip2, o2) := invest_step (sys_invest s2) (IBuyOrderErrorEmits (error (buyOrderLoading st))) in
      side_outputs (set_ui (sys_discover s2) (sys_discover_live s2) ip2 true s2) o2
  | _ => s1
  end.

(** The answer of request [n] of channel [c]: the effect runner decides
    whether it dispatches. *)
Definition sys_complete (s : System) (c : Channel) (n : nat) (o : Outcome (payload c)) : System :=
  let '(es, oa) := effects_on_complete (sys_effects s) c n o in
  let s1 := set_core (sys_store s) es (sys_service s) (sys_snapshots s) s in
  match oa with Some a => sys_dispatch s1 a | None => s1 end.

(** An HTTP answer: the body through the service's mapping, or an error. *)
Definition http_outcome {B T} (map_body : B -> ApiResponse T) (r : B + option string) : Outcome T :=
  match r with inl body => Responded (map_body body) | inr m => Errored m end.

(** The answer [getRecentSearches] fixed for request [n]. *)
Definition snapshot_of (s : System) (n : nat) : option (ApiResponse (list SearchResult)) :=
  (fun inr => inr.2.2) <$> list_find (fun nr => nr.1 = n) (sys_snapshots s).

Inductive SysEvent :=
  | DiscoverUser (ev : DiscoverEvent)
  | InvestUser (ev : InvestEvent)
  | FireTimer (i : nat)
  | PortfolioReply (n : nat) (r : RawPortfolio + option string)
  | StocksReply (n : nat) (r : list RawStock + option string)
  | TrendingReply (n : nat) (r : list TrendingStock + option string)
  | SearchReply (n : nat) (r : list RawStock + option string)
  | RecentReply (n : nat)
  | OrderReply (n : nat) (msg : string)
  | ClearReply (n : nat).

Definition sys_step (s : System) (ev : SysEvent) : System :=
  match ev with
  | DiscoverUser dev => if discover_user dev then discover_event s dev else s
  | InvestUser iev => if invest_user iev then invest_event s iev else s
  | FireTimer i =>
      match sys_timers s !! i with
      | Some a => sys_dispatch (set_timers (delete i (sys_timers s)) s) a
      | None => s
      end
  | PortfolioReply n r => sys_complete s ChPortfolio n (http_outcome svc_getPortfolio r)
  | StocksReply n r => sys_complete s ChStocks n (http_outcome svc_getStocks r)
  | TrendingReply n r => sys_complete s ChTrending n (http_outcome svc_getTrendingStocks r)
  | SearchReply n r =>
      match inflight (sys_effects s) ChSearch with
      | Some (_, searchStocks q) =>
          sys_complete s ChSearch n (http_outcome (svc_searchStocks q) r)
      | _ => s
      end
  | RecentReply n =>
      match snapshot_of s n with
      | Some r => sys_complete s ChRecent n (Responded r)
      | None => s
      end
  | OrderReply n msg =>
      match inflight (sys_effects s) ChOrder with
      | Some (_, placeOrder order) =>
          sys_complete s ChOrder n (Responded (svc_placeOrder msg order))
      | _ => s
      end
  | ClearReply n => sys_complete s ChClearOrder n (Responded (mkResponse tt true None))
  end.

Fixpoint sys_run (s : System) (evs : list SysEvent) : System :=
  match evs with [] => s | ev :: evs' => sys_run (sys_step s ev) evs' end.

(** ** Reachability and the invariant *)

(** What the backend must satisfy: each portfolio lists a symbol once. *)
Definition event_ok (ev : SysEvent) : Prop :=
  match ev with
  | PortfolioReply _ (inl raw) => NoDup (rp_symbol <$> rp_positions raw)
  | _ => True
  end.

Inductive sys_reachable (stored : option StoredText) (writable : bool) : System -> Prop :=
  | sys_reachable_init : sys_reachable stored writable (sys_init stored writable)
  | sys_reachable_step s ev :
      sys_reachable stored writable s -> event_ok ev ->
      sys_reachable stored writable (sys_step s ev).

Definition snapshot_wf (nr : nat * ApiResponse (list SearchResult)) : Prop :=
  success nr.2 = true /\ recent_wf result_symbol (data nr.2).

(** The actions a page dispatches or schedules: never a data load result. *)
Definition page_action (a : Action) : Prop :=
  match a with loadPortfolioSuccess _ | loadRecentSearchesSuccess _ => False | _ => True end.

Definition sys_wf (s : System) : Prop :=
  state_wf (sys_store s) /\ recent_wf symbol (svc_recentSearches (sys_service s)) /\
  Forall snapshot_wf (sys_snapshots s) /\ Forall page_action (sys_timers s).

(** The store's recent list shows the service's. *)
Definition recent_sync (s : System) : Prop :=
  result_stock <$> recentSearches (sys_store s) = svc_recentSearches (sys_service s).

(** The stock of the examples. *)
Definition sys_demo_stock : StockInstrument := mapStock raw_aapl.

(** Actions other than an order failure. *)
Definition no_order_failure (a : Action) : Prop :=
  match a with placeOrderFailure _ => False | _ => True end.

(** The outputs of a page that neither fail an order nor show an error. *)
Definition quiet_output (o : PageOutput) : Prop :=
  match o with
  | Dispatch a | ScheduleDispatch _ a => page_action a /\ no_order_failure a
  | ShowToast k _ => k = SuccessToast
  end.

(** The events a page receives while no order error is recorded. *)
Definition quiet_discover (ev : DiscoverEvent) : Prop :=
  match ev with BuyOrderErrorEmits e => e = None | _ => True end.
Definition quiet_invest (ev : InvestEvent) : Prop :=
  match ev with IBuyOrderErrorEmits e => e = None | _ => True end.

(** No order error recorded, no error toast shown, no failure scheduled. *)
Definition no_error_shown (s : System) : Prop :=
  error (buyOrderLoading (sys_store s)) = None /\
  Forall (fun t => t.1 = SuccessToast) (sys_toasts s) /\
  Forall (fun a => page_action a /\ no_order_failure a) (sys_timers s).

(** The outputs of the pages that respect the store invariant's needs. *)
Definition output_wf (o : PageOutput) : Prop :=
  match o with Dispatch a | ScheduleDispatch _ a => page_action a | ShowToast _ _ => True end.

(** ** Lemmas: the pages' outputs *)

Lemma discover_step_outputs_wf p ev : Forall output_wf (snd (discover_step p ev)).
Proof.
  destruct ev; simpl; repeat (case_match; simpl); repeat constructor.
  all: unfold onSearchInput, searchSubscriber; repeat case_match; simpl; repeat constructor.
Qed.

Lemma invest_step_outputs_wf p ev : Forall output_wf (snd (invest_step p ev)).
Proof. destruct ev; simpl; repeat (case_match; simpl); repeat constructor. Qed.

(** ** Preservation through the pages' outputs *)

(** A property of the system kept by the pages' view updates and by the
    side outputs in [O], and by dispatching the actions in [O], is kept by
    every page event whose outputs are in [O]; [DE] and [IE] say which
    events of the discover and invest pages may occur. *)
Section PagePreservation.
Variable P : System -> Prop.
Variable O : PageOutput -> Prop.
Variable DE : DiscoverEvent -> Prop.
Variable IE : InvestEvent -> Prop.
Hypothesis DE_out : forall p ev, DE ev -> Forall O (snd (discover_step p ev)).
Hypothesis IE_out : forall p ev, IE ev -> Forall O (snd (invest_step p ev)).
Hypothesis P_set_ui : forall dp dl ip il s, P s -> P (set_ui dp dl ip il s).
Hypothesis P_side : forall s o, P s -> O o -> P (side_output s o).

Lemma side_outputs_pres s outs : P s -> Forall O outs -> P (side_outputs s outs).
Proof. intros Hs Ho. unfold side_outputs. eapply fold_left_invariant; [apply P_side | done | done]. Qed.

Lemma discover_side_pres s ev b :
  P s -> DE ev ->
  P (let '(dp, o) := discover_step (sys_discover s) ev in
     side_outputs (set_ui dp b (sys_invest s) (sys_invest_live s) s) o).
Proof.
  intros Hs He. generalize (DE_out (sys_discover s) ev He).
  destruct (discover_step _ _). intros Ho. apply side_outputs_pres; [by apply P_set_ui | done].
Qed.

Lemma invest_side_pres s ev b :
  P s -> IE ev ->
  P (let '(ip, o) := invest_step (sys_invest s) ev in
     side_outputs (set_ui (sys_discover s) (sys_discover_live s) ip b s) o).
Proof.
  intros Hs He. generalize (IE_out (sys_invest s) ev He).
  destruct (invest_step _ _). intros Ho. apply side_outputs_pres; [by apply P_set_ui | done].
Qed.

Lemma deliver_pres dev iev s : DE dev -> IE iev -> P s -> P (deliver dev iev s).
Proof.
  intros Hd Hi Hs. unfold deliver.
  assert (Hs1 : P (if sys_discover_live s then
                     let '(dp, outs) := discover_step (sys_discover s) dev in
                     side_outputs (set_ui dp true (sys_invest s) (sys_invest_live s) s) outs
                   else s)) by (case_match; [by apply discover_side_pres | done]).
  revert Hs1. generalize (if sys_discover_live s then
                            let '(dp, outs) := discover_step (sys_discover s) dev in
                            side_outputs (set_ui dp true (sys_invest s) (sys_invest_live s) s) outs
                          else s) as s1. intros s1 Hs1.
  case_match; [by apply invest_side_pres | done].
Qed.

Lemma notify_pres old new s :
  DE (BuyOrderSuccessEmits (buyOrderSuccess new)) ->
  IE (IBuyOrderSuccessEmits (buyOrderSuccess new)) ->
  (error (buyOrderLoading old) <> error (buyOrderLoading new) ->
   DE (BuyOrderErrorEmits (error (buyOrderLoading new))) /\
   IE (IBuyOrderErrorEmits (error (buyOrderLoading new)))) ->
  P s -> P (notify old new s).
Proof.
  intros Hd Hi He Hs. unfold notify.
  assert (Hs1 : P (if bool_decide (buyOrderSuccess old = buyOrderSuccess new) then s
                   else deliver (BuyOrderSuccessEmits (buyOrderSuccess new))
                                (IBuyOrderSuccessEmits (buyOrderSuccess new)) s))
    by (case_match; [done | by apply deliver_pres]).
  revert Hs1. generalize (if bool_decide (buyOrderSuccess old = buyOrderSuccess new) then s
                          else deliver (BuyOrderSuccessEmits (buyOrderSuccess new))
                                       (IBuyOrderSuccessEmits (buyOrderSuccess new)) s) as s1.
  intros s1 Hs1. case_bool_decide as Hq; [done|]. destruct (He Hq). by apply deliver_pres.
Qed.

Hypothesis P_dispatch : forall s a, P s -> O (Dispatch a) -> P (sys_dispatch s a).
Hypothesis DE_init : forall s, P s ->
  DE (BuyOrderSuccessEmits (buyOrderSuccess (sys_store s))) /\
  DE (BuyOrderErrorEmits (error (buyOrderLoading (sys_store s)))).
Hypothesis IE_init : forall s, P s ->
  IE (IBuyOrderSuccessEmits (buyOrderSuccess (sys_store s))) /\
  IE (IBuyOrderErrorEmits (error (buyOrderLoading (sys_store s)))).

Lemma page_outputs_pres s outs : P s -> Forall O outs -> P (page_outputs s outs).
Proof.
  intros Hs Ho. unfold page_outputs. eapply fold_left_invariant; [|done | done].
  intros s' [] ? Ho'; [by apply P_dispatch | by apply P_side ..].
Qed.

Lemma discover_event_pres s ev : P s -> DE ev -> P (discover_event s ev).
Proof.
  intros Hs He. unfold discover_event.
  generalize (DE_out (sys_discover s) ev He).
  destruct (discover_step (sys_discover s) ev) as [dp outs]. intros Hd.
  assert (Hs1 : forall l, P (page_outputs (set_ui dp l (sys_invest s) (sys_invest_live s) s) outs))
    by (intros; apply page_outputs_pres; [by apply P_set_ui | done]).
  destruct ev; cbn zeta; try apply Hs1.
  set (s1 := page_outputs _ outs).
  destruct (DE_init s1 (Hs1 _)) as [Hsucc Herr].
  match goal with |- context [discover_step ?p ?e] =>
    generalize (DE_out p e Hsucc); destruct (discover_step p e) as [dp1 o1]; intros H1 end.
  apply discover_side_pres; [|done].
  apply side_outputs_pres; [apply P_set_ui, Hs1 | exact H1].
Qed.

Lemma invest_event_pres s ev : P s -> IE ev -> P (invest_event s ev).
Proof.
  intros Hs He. unfold invest_event.
  generalize (IE_out (sys_invest s) ev He).
  destruct (invest_step (sys_invest s) ev) as [ip outs]. intros Hd.
  assert (Hs1 : forall l, P (page_outputs (set_ui (sys_discover s) (sys_discover_live s) ip l s) outs))
    by (intros; apply page_outputs_pres; [by apply P_set_ui | done]).
  destruct ev; cbn zeta; try apply Hs1.
  set (s1 := page_outputs _ outs).
  destruct (IE_init s1 (Hs1 _)) as [Hsucc Herr].
  match goal with |- context [invest_step ?p ?e] =>
    generalize (IE_out p e Hsucc); destruct (invest_step p e) as [ip1 o1]; intros H1 end.
  apply invest_side_pres; [|done].
  apply side_outputs_pres; [apply P_set_ui, Hs1 | exact H1].
Qed.
End PagePreservation.

(** The instance the invariants below use: every output well-formed, every
    event possible. *)
Section PagePreservationAll.
Variable P : System -> Prop.
Hypothesis P_set_ui : forall dp dl ip il s, P s -> P (set_ui dp dl ip il s).
Hypothesis P_side : forall s o, P s -> output_wf o -> P (side_output s o).

Lemma notify_pres_all old new s : P s -> P (notify old new s).
Proof.
  eapply notify_pres with (O := output_wf) (DE := fun _ => True) (IE := fun _ => True);
    auto using discover_step_outputs_wf, invest_step_outputs_wf.
Qed.

Hypothesis P_dispatch : forall s a, P s -> page_action a -> P (sys_dispatch s a).

Lemma discover_event_pres_all s ev : P s -> P (discover_event s ev).
Proof.
  intros Hs. eapply discover_event_pres with (O := output_wf) (DE := fun _ => True);
    auto using discover_step_outputs_wf.
Qed.

Lemma invest_event_pres_all s ev : P s -> P (invest_event s ev).
Proof.
  intros Hs. eapply invest_event_pres with (O := output_wf) (IE := fun _ => True);
    auto using invest_step_outputs_wf.
Qed.
End PagePreservationAll.

(** ** The invariant *)

Ltac sys_wf_split := split; [|split; [|split]].

Lemma page_action_wf a : page_action a -> action_wf a.
Proof. by destruct a. Qed.

Lemma side_output_wf s o : sys_wf s -> output_wf o -> sys_wf (side_output s o).
Proof.
  intros (H1 & H2 & H3 & H4) Ho. destruct o; try done.
  sys_wf_split; try done. simpl. apply Forall_app; split; [done | by constructor].
Qed.

Lemma recent_wf_tagged (l : list StockInstrument) t :
  recent_wf symbol l ->
  recent_wf result_symbol ((fun st => {| result_stock := st; searchType := t |}) <$> l).
Proof.
  intros [Hl Hn]. split; [by rewrite length_fmap|].
  by rewrite <- list_fmap_compose.
Qed.

Lemma run_command_wf s c : sys_wf s -> sys_wf (run_command s c).
Proof.
  intros (H1 & H2 & H3 & H4). destruct c as [[] n trig | st]; try done.
  - sys_wf_split; try done. constructor; [|done]. split; [done|]. by apply recent_wf_tagged.
  - sys_wf_split; try done. by apply addToRecent_wf.
Qed.

Lemma sys_dispatch_wf s a : sys_wf s -> action_wf a -> sys_wf (sys_dispatch s a).
Proof.
  intros Hs Ha. unfold sys_dispatch. destruct (effects_on_action _ _) as [es cmds].
  apply notify_pres_all; [done | apply side_output_wf |].
  eapply (fold_left_invariant _ (fun _ => True));
    [intros; by apply run_command_wf | by apply Forall_true |].
  destruct Hs as (H1 & H2 & H3 & H4). sys_wf_split; try done.
  by apply stockReducer_step_wf.
Qed.

Lemma discover_event_wf s ev : sys_wf s -> sys_wf (discover_event s ev).
Proof.
  apply discover_event_pres_all; [done | apply side_output_wf |].
  intros; by apply sys_dispatch_wf, page_action_wf.
Qed.

Lemma invest_event_wf s ev : sys_wf s -> sys_wf (invest_event s ev).
Proof.
  apply invest_event_pres_all; [done | apply side_output_wf |].
  intros; by apply sys_dispatch_wf, page_action_wf.
Qed.

Lemma sys_complete_wf s c n o :
  sys_wf s -> (forall trig, action_wf (completeAction c trig o)) -> sys_wf (sys_complete s c n o).
Proof.
  intros Hs Ha. unfold sys_complete, effects_on_complete.
  repeat case_match; simplify_eq; try done. by apply sys_dispatch_wf.
Qed.

(** The actions the load and order effects dispatch need nothing of the
    invariant, except the portfolio and recent-search results. *)
Lemma mapResponse_shape {T} ok fail dflt (o : Outcome T) :
  (exists x, mapResponse ok fail dflt o = ok x) \/ (exists e, mapResponse ok fail dflt o = fail e).
Proof. destruct o as [r|m]; simpl; [case_match|]; eauto. Qed.

Lemma completeAction_wf c trig o :
  c <> ChPortfolio -> c <> ChRecent -> action_wf (completeAction c trig o).
Proof.
  intros Hp Hr. destruct c; try congruence; cbn [completeAction];
    unfold loadTrendingStocksEffect, loadStockEffect, searchStocksEffect, placeOrderEffect;
    [| | | destruct trig; try done | done];
    match goal with |- action_wf (mapResponse ?ok ?f ?d ?o) =>
      destruct (mapResponse_shape ok f d o) as [[? ->] | [? ->]]; done end.
Qed.

Lemma portfolio_reply_wf trig r :
  event_ok (PortfolioReply 0 r) ->
  action_wf (completeAction ChPortfolio trig (http_outcome svc_getPortfolio r)).
Proof.
  destruct r as [raw | m]; cbn; [|done]. intros Hn. unfold portfolio_wf. cbn.
  by rewrite <- list_fmap_compose.
Qed.

Lemma recent_reply_wf trig r : snapshot_wf (0, r) -> action_wf (completeAction ChRecent trig (Responded r)).
Proof. intros [_ Hr]. cbn. case_match; [done|]. split; [cbn; lia | constructor]. Qed.

Lemma sys_step_wf s ev : sys_wf s -> event_ok ev -> sys_wf (sys_step s ev).
Proof.
  intros Hs Hev. destruct ev; cbn [sys_step].
  - case_match; [by apply discover_event_wf | done].
  - case_match; [by apply invest_event_wf | done].
  - destruct (sys_timers s !! i) as [a|] eqn:Ei; [|done].
    destruct Hs as (H1 & H2 & H3 & H4). apply sys_dispatch_wf.
    + sys_wf_split; try done. by apply Forall_delete.
    + rewrite Forall_lookup in H4. by apply page_action_wf, (H4 i).
  - apply sys_complete_wf; [done|]. intros. by apply portfolio_reply_wf.
  - apply sys_complete_wf; [done|]. intros. by apply completeAction_wf.
  - apply sys_complete_wf; [done|]. intros. by apply completeAction_wf.
  - repeat case_match; try done. apply sys_complete_wf; [done|]. intros. by apply completeAction_wf.
  - unfold snapshot_of. destruct (list_find _ _) as [[j [m r]]|] eqn:Ef; cbn; [|done].
    apply sys_complete_wf; [done|]. intros trig. apply (recent_reply_wf _ _).
    apply list_find_Some in Ef as (Hj & _). destruct Hs as (_ & _ & H3 & _).
    rewrite Forall_lookup in H3. apply (H3 j _ Hj).
  - repeat case_match; try done. apply sys_complete_wf; [done|]. intros. by apply completeAction_wf.
  - apply sys_complete_wf; [done|]. intros. by apply completeAction_wf.
Qed.

Lemma sys_init_wf stored w :
  recent_wf symbol (loadRecent stored) -> sys_wf (sys_init stored w).
Proof. intros Hr. sys_wf_split; [apply initialStockState_wf | done | constructor | constructor]. Qed.

(** ** The store's recent list and the service's *)

(** The recency update commutes with a map that preserves the key. *)
Lemma addToRecent_fmap {A B} (kA : A -> string) (kB : B -> string) (g : A -> B) x l :
  (forall y, kB (g y) = kA y) ->
  g <$> addToRecent kA x l = addToRecent kB (g x) (g <$> l).
Proof.
  intros Hk. unfold addToRecent, findIndex. rewrite findIndex_from_fmap.
  assert (E : findIndex_from (fun y => kB (g y) =s? kB (g x)) l 0 =
              findIndex_from (fun y => kA y =s? kA x) l 0)
    by (apply findIndex_from_ext; intros; by rewrite !Hk).
  cbn beta. rewrite E.
  rewrite fmap_take, fmap_cons.
  case_match; [done|]. by rewrite list_fmap_delete.
Qed.

Lemma stockReducer_recent s a :
  (forall st, a <> addToRecentSearches st) -> (forall l, a <> loadRecentSearchesSuccess l) ->
  recentSearches (stockReducer s a) = recentSearches s.
Proof.
  intros H1 H2. destruct a; try done; try (exfalso; by eapply H1); try (exfalso; by eapply H2).
  cbn. unfold applyOrderFill. by destruct (portfolio s).
Qed.

Lemma effects_on_action_requests es a :
  (forall st, a <> addToRecentSearches st) ->
  Forall (fun c => exists ch n t, c = Request ch n t) (snd (effects_on_action es a)).
Proof.
  intros Ha. unfold effects_on_action.
  destruct a; try (exfalso; by eapply Ha); case_match; repeat econstructor.
Qed.

Lemma side_output_sync s o : recent_sync s -> recent_sync (side_output s o).
Proof. by destruct o. Qed.

Lemma sys_dispatch_sync s a :
  recent_sync s -> (forall l, a <> loadRecentSearchesSuccess l) -> recent_sync (sys_dispatch s a).
Proof.
  intros Hs Ha. unfold sys_dispatch.
  destruct (effects_on_action (sys_effects s) a) as [es cmds] eqn:Ee.
  apply notify_pres_all; [done | intros; by apply side_output_sync |].
  assert (Hcase : (exists st, a = addToRecentSearches st) \/ (forall st, a <> addToRecentSearches st))
    by (destruct a; try (left; eauto; fail); right; intros ? ?; discriminate).
  destruct Hcase as [[st ->]|Hn].
  - cbn in Ee. injection Ee as <- <-. unfold recent_sync in *. cbn -[addToRecent].
    rewrite (addToRecent_fmap result_symbol symbol result_stock) by done. by rewrite Hs.
  - assert (Hc := effects_on_action_requests (sys_effects s) a Hn).
    rewrite Ee in Hc. cbn in Hc.
    eapply (fold_left_invariant recent_sync); [|exact Hc|].
    + intros s' c Hs' (ch & n & t & ->). by destruct ch.
    + unfold recent_sync in *. cbn. by rewrite stockReducer_recent.
Qed.

Lemma completeAction_not_recent c trig o l :
  c <> ChRecent -> completeAction c trig o <> loadRecentSearchesSuccess l.
Proof.
  intros Hr. destruct c; try congruence; cbn [completeAction];
    unfold loadPortfolioEffect, loadTrendingStocksEffect, loadStockEffect, searchStocksEffect,
      placeOrderEffect;
    [| | | | destruct trig; try done | done];
    match goal with |- mapResponse ?ok ?f ?d ?o <> _ =>
      destruct (mapResponse_shape ok f d o) as [[? ->] | [? ->]]; done end.
Qed.

Lemma sys_complete_sync s c n o :
  c <> ChRecent -> recent_sync s -> recent_sync (sys_complete s c n o).
Proof.
  intros Hc Hs. unfold sys_complete, effects_on_complete.
  repeat case_match; simplify_eq; try done.
  apply sys_dispatch_sync; [done|]. intros l. by apply completeAction_not_recent.
Qed.

Lemma page_action_not_recent a l : page_action a -> a <> loadRecentSearchesSuccess l.
Proof. by intros Ha ->. Qed.

(** Dispatching a load result replaces the store's recent list and leaves
    the service alone. *)
Lemma sys_dispatch_recent_load s l :
  recentSearches (sys_store (sys_dispatch s (loadRecentSearchesSuccess l))) = l /\
  sys_service (sys_dispatch s (loadRecentSearchesSuccess l)) = sys_service s.
Proof.
  unfold sys_dispatch. cbn [effects_on_action trigger_channel fold_left].
  apply (notify_pres_all (fun s' => recentSearches (sys_store s') = l /\ sys_service s' = sys_service s));
    [done | intros ? [] ? ?; done | done].
Qed.

(** ** The store and the effects through a dispatch *)

Lemma sys_dispatch_core s a :
  sys_store (sys_dispatch s a) = stockReducer (sys_store s) a /\
  sys_effects (sys_dispatch s a) = fst (effects_on_action (sys_effects s) a).
Proof.
  unfold sys_dispatch. destruct (effects_on_action (sys_effects s) a) as [es cmds].
  apply (notify_pres_all (fun s' => sys_store s' = stockReducer (sys_store s) a /\ sys_effects s' = es));
    [done | intros ? [] ? ?; done |].
  apply (fold_left_invariant
           (fun s' => sys_store s' = stockReducer (sys_store s) a /\ sys_effects s' = es)
           (fun _ => True)); [| by apply Forall_true | done].
  intros s' [[] n t | st] Hs' _; done.
Qed.

(** The completion of the current request of a channel dispatches the
    effect's action on the system where the channel is idle. *)
Lemma sys_complete_current s c n trig o :
  inflight (sys_effects s) c = Some (n, trig) ->
  sys_complete s c n o =
    sys_dispatch (set_core (sys_store s) (set_inflight c None (sys_effects s)) (sys_service s)
                   (sys_snapshots s) s) (completeAction c trig o).
Proof.
  intros Hin. unfold sys_complete, effects_on_complete. rewrite Hin.
  by destruct (Nat.eq_dec n n).
Qed.

(** ** No order error is ever shown *)

Lemma discover_step_quiet p ev : quiet_discover ev -> Forall quiet_output (snd (discover_step p ev)).
Proof.
  destruct ev; simpl; intros He; repeat (case_match; simpl); subst; repeat constructor.
  all: unfold onSearchInput, searchSubscriber; repeat case_match; simpl; repeat constructor.
  all: discriminate.
Qed.

Lemma invest_step_quiet p ev : quiet_invest ev -> Forall quiet_output (snd (invest_step p ev)).
Proof. destruct ev; simpl; intros He; repeat (case_match; simpl); subst; repeat constructor; discriminate. Qed.

Lemma side_output_quiet s o : no_error_shown s -> quiet_output o -> no_error_shown (side_output s o).
Proof.
  intros (H1 & H2 & H3) Ho. destruct o; simpl in *; try done; (split; [done | split]); simpl;
    try (apply Forall_app; split; [done | by constructor]); done.
Qed.

Lemma stockReducer_no_error st a :
  error (buyOrderLoading st) = None -> no_order_failure a ->
  error (buyOrderLoading (stockReducer st a)) = None.
Proof.
  intros He Ha. destruct a; try done. cbn [stockReducer].
  change (buyOrderLoading (applyOrderFill st order)) with (loadingOf (applyOrderFill st order) RBuyOrder).
  by rewrite applyOrderFill_loading.
Qed.

Lemma sys_dispatch_quiet s a : no_error_shown s -> no_order_failure a -> no_error_shown (sys_dispatch s a).
Proof.
  intros Hs Ha. unfold sys_dispatch. destruct (effects_on_action (sys_effects s) a) as [es cmds].
  pose proof (stockReducer_no_error _ _ (proj1 Hs) Ha) as Hn.
  eapply notify_pres with (O := quiet_output) (DE := quiet_discover) (IE := quiet_invest);
    [apply discover_step_quiet | apply invest_step_quiet | done | apply side_output_quiet
    | done | done | intros He; exfalso; apply He; by rewrite (proj1 Hs), Hn |].
  apply (fold_left_invariant _ (fun _ => True)); [| by apply Forall_true |].
  - intros s' [[] n t | st] Hs' _; done.
  - destruct Hs as (_ & H2 & H3). done.
Qed.

Lemma completeAction_no_failure c trig o : c <> ChOrder -> no_order_failure (completeAction c trig o).
Proof.
  intros Hc. destruct c; try congruence; cbn [completeAction];
    unfold loadPortfolioEffect, loadTrendingStocksEffect, loadStockEffect, searchStocksEffect,
      loadRecentSearchesEffect; try done;
    [..| repeat case_match; done];
    match goal with |- no_order_failure (mapResponse ?ok ?f ?d ?o) =>
      destruct (mapResponse_shape ok f d o) as [[? ->] | [? ->]]; done end.
Qed.

Lemma sys_complete_quiet s c n o :
  no_error_shown s ->
  (forall trig, inflight (sys_effects s) c = Some (n, trig) -> no_order_failure (completeAction c trig o)) ->
  no_error_shown (sys_complete s c n o).
Proof.
  intros Hs Ho. destruct (inflight (sys_effects s) c) as [[m trig]|] eqn:Hin.
  - destruct (decide (n = m)) as [<-|Hnm].
    + rewrite (sys_complete_current _ _ _ _ _ Hin). apply sys_dispatch_quiet; [done | by apply Ho].
    + unfold sys_complete, effects_on_complete. rewrite Hin.
      by destruct (Nat.eq_dec n m).
  - unfold sys_complete, effects_on_complete. by rewrite Hin.
Qed.

Lemma sys_step_quiet s ev : no_error_shown s -> no_error_shown (sys_step s ev).
Proof.
  intros Hs. destruct ev; cbn [sys_step].
  - case_match; [|done].
    eapply discover_event_pres with (O := quiet_output) (DE := quiet_discover);
      [apply discover_step_quiet | done | apply side_output_quiet
      | intros ? ? ? []; by apply sys_dispatch_quiet | intros ? [He _]; by split | done |].
    by destruct ev.
  - case_match; [|done].
    eapply invest_event_pres with (O := quiet_output) (IE := quiet_invest);
      [apply invest_step_quiet | done | apply side_output_quiet
      | intros ? ? ? []; by apply sys_dispatch_quiet | intros ? [He _]; by split | done |].
    by destruct ev.
  - destruct (sys_timers s !! i) as [a|] eqn:Ei; [|done].
    destruct Hs as (H1 & H2 & H3). rewrite Forall_lookup in H3.
    destruct (H3 i a Ei) as [_ Ha].
    apply sys_dispatch_quiet; [|done]. split; [done | split; [done|]].
    apply Forall_delete. by rewrite Forall_lookup.
  - apply sys_complete_quiet; [done|]. intros. by apply completeAction_no_failure.
  - apply sys_complete_quiet; [done|]. intros. by apply completeAction_no_failure.
  - apply sys_complete_quiet; [done|]. intros. by apply completeAction_no_failure.
  - repeat case_match; try done. apply sys_complete_quiet; [done|]. intros. by apply completeAction_no_failure.
  - case_match; [|done]. apply sys_complete_quiet; [done|]. intros. by apply completeAction_no_failure.
  - destruct (inflight (sys_effects s) ChOrder) as [[m [] ]|] eqn:Hin; try done.
    apply sys_complete_quiet; [done|]. intros trig Ht. rewrite Hin in Ht. by injection Ht as -> <-.
  - apply sys_complete_quiet; [done|]. intros. by apply completeAction_no_failure.
Qed.

(** ** Properties *)

(** (C29) End-to-end invariant: when the stored recent list is bounded and
    deduplicated and the backend lists each position once, every state the
    application reaches has a portfolio with distinct symbols and, in the
    store and in the service alike, a recent list of at most five entries
    with distinct symbols. *)
Theorem sys_reachable_wf (stored : option StoredText) (writable : bool) (s : System) :
  recent_wf symbol (loadRecent stored) -> sys_reachable stored writable s ->
  state_wf (sys_store s) /\ recent_wf symbol (svc_recentSearches (sys_service s)).
Proof.
  intros Hr Hs. enough (H : sys_wf s) by (destruct H as (? & ? & _); done).
  induction Hs; [by apply sys_init_wf | by apply sys_step_wf].
Qed.

(** (C30) The store's recent list mirrors the service's: every event
    except the answer of a recent-search request keeps them equal, and that
    answer, when current, leaves them equal exactly when its snapshot is
    the service's list at the time of the answer. *)
Theorem recent_lists_agree (s : System) :
  Forall page_action (sys_timers s) ->
  (forall ev, (forall n, ev <> RecentReply n) -> recent_sync s -> recent_sync (sys_step s ev)) /\
  (forall n r t, snapshot_of s n = Some r -> success r = true ->
     inflight (sys_effects s) ChRecent = Some (n, t) ->
     (recent_sync (sys_step s (RecentReply n)) <->
      result_stock <$> data r = svc_recentSearches (sys_service s))).
Proof.
  intros Ht. split.
  - intros ev Hev Hs. destruct ev; cbn [sys_step].
    + case_match; [|done]. apply discover_event_pres_all; [done | by intros ? [] | | done].
      intros; apply sys_dispatch_sync; [done|]. intros l. by apply page_action_not_recent.
    + case_match; [|done]. apply invest_event_pres_all; [done | by intros ? [] | | done].
      intros; apply sys_dispatch_sync; [done|]. intros l. by apply page_action_not_recent.
    + destruct (sys_timers s !! i) as [a|] eqn:Ei; [|done].
      apply sys_dispatch_sync; [done|]. intros l. apply page_action_not_recent.
      rewrite Forall_lookup in Ht. by apply (Ht i).
    + by apply sys_complete_sync.
    + by apply sys_complete_sync.
    + by apply sys_complete_sync.
    + repeat case_match; try done. by apply sys_complete_sync.
    + exfalso. by apply (Hev n).
    + repeat case_match; try done. by apply sys_complete_sync.
    + by apply sys_complete_sync.
  - intros n r t Hr Hsucc Hin. cbn [sys_step]. rewrite Hr.
    unfold sys_complete, effects_on_complete. rewrite Hin.
    destruct (Nat.eq_dec n n) as [_|]; [|done]. cbn [completeAction loadRecentSearchesEffect].
    rewrite Hsucc. unfold recent_sync.
    destruct (sys_dispatch_recent_load
                (set_core (sys_store s) (set_inflight ChRecent None (sys_effects s))
                   (sys_service s) (sys_snapshots s) s) (data r)) as [-> ->].
    done.
Qed.

(** (C32) The post-success auto-clear: when the current order request is
    answered, the store records the success and the clear effect has a
    request in flight, and the answer of that request resets the success
    flag and leaves the buy-order slot idle without error. *)
Theorem order_success_then_cleared (s : System) (n : nat) (order : BuyOrder) (msg : string) :
  inflight (sys_effects s) ChOrder = Some (n, placeOrder order) ->
  let s1 := sys_step s (OrderReply n msg) in
  buyOrderSuccess (sys_store s1) = true /\
  exists k, inflight (sys_effects s1) ChClearOrder = Some (k, placeOrderSuccess order) /\
    let s2 := sys_step s1 (ClearReply k) in
    buyOrderSuccess (sys_store s2) = false /\ loadingOf (sys_store s2) RBuyOrder = loading_idle.
Proof.
  intros Hin. cbv zeta. cbn [sys_step]. rewrite Hin, (sys_complete_current _ _ _ _ _ Hin).
  change (completeAction ChOrder (placeOrder order) (Responded (svc_placeOrder msg order)))
    with (placeOrderSuccess order).
  set (s0 := set_core _ _ _ _ _).
  destruct (sys_dispatch_core s0 (placeOrderSuccess order)) as [Hst Hef].
  split; [rewrite Hst; apply applyOrderFill_success|].
  exists (next_id (sys_effects s0)). split.
  { rewrite Hef, effects_on_action_inflight. done. }
  assert (Hin' : inflight (sys_effects (sys_dispatch s0 (placeOrderSuccess order))) ChClearOrder =
                 Some (next_id (sys_effects s0), placeOrderSuccess order))
    by (rewrite Hef, effects_on_action_inflight; done).
  rewrite (sys_complete_current _ _ _ _ _ Hin').
  match goal with |- context [sys_store (sys_dispatch ?x ?a)] =>
    destruct (sys_dispatch_core x a) as [Hst2 _]; rewrite Hst2 end.
  done.
Qed.

(** (C33) The search round trip: when the backend answers the current search
    request for [q] with its list of stocks, the store's results become
    exactly the service's filtered and tagged list for [q] and the search
    slot turns idle; an answer to any other request changes nothing in the
    store. *)
Theorem search_round_trip (s : System) (n m : nat) (q : string) (stocks : list RawStock) :
  inflight (sys_effects s) ChSearch = Some (n, searchStocks q) ->
  let s1 := sys_step s (SearchReply n (inl stocks)) in
  searchResults (sys_store s1) = data (svc_searchStocks q stocks) /\
  searchLoading (sys_store s1) = loading_idle /\
  (m <> n -> sys_store (sys_step s (SearchReply m (inl stocks))) = sys_store s).
Proof.
  intros Hin. cbv zeta. cbn [sys_step]. rewrite Hin.
  assert (E : sys_store (sys_complete s ChSearch n (http_outcome (svc_searchStocks q) (inl stocks))) =
              stockReducer (sys_store s) (searchStocksSuccess (data (svc_searchStocks q stocks)))).
  { rewrite (sys_complete_current _ _ _ _ _ Hin), (proj1 (sys_dispatch_core _ _)).
    unfold svc_searchStocks. by destruct (search_calls_backend q). }
  rewrite E. split; [done | split; [done|]].
  intros Hm. unfold sys_complete, effects_on_complete. rewrite Hin.
  by destruct (Nat.eq_dec m n).
Qed.

(** (C34) The order-failure path is dead in the running application:
    whatever happens, the store never records a buy-order error and no page
    ever shows the "Failed to place order" toast, because [placeOrder]
    always answers success. *)
Theorem order_error_never_shown (stored : option StoredText) (writable : bool) (s : System) :
  sys_reachable stored writable s ->
  error (buyOrderLoading (sys_store s)) = None /\
  Forall (fun t => t.1 = SuccessToast) (sys_toasts s).
Proof.
  intros Hs. enough (H : no_error_shown s) by (destruct H as (? & ? & _); done).
  induction Hs; [done | by apply sys_step_quiet].
Qed.

(** ** Witnesses *)


(** A stored list with one stock; the discover page opens and the user
    picks that stock again. *)
Lemma sys_reachable_wf_witness :
  let stored := Some (persistRecent [sys_demo_stock]) in
  let s := sys_step (sys_step (sys_init stored true) (DiscoverUser Init))
                    (DiscoverUser (StockClick sys_demo_stock)) in
  state_wf (sys_store s) /\ recent_wf symbol (svc_recentSearches (sys_service s)).
Proof.
  cbv zeta. apply (sys_reachable_wf (Some (persistRecent [sys_demo_stock])) true).
  - split; [vm_compute; lia | apply (bool_decide_unpack _); vm_compute; reflexivity].
  - repeat apply sys_reachable_step; try exact I. apply sys_reachable_init.
Defined.

Lemma recent_lists_agree_witness :
  let s := sys_init None true in
  (forall ev, (forall n, ev <> RecentReply n) -> recent_sync s -> recent_sync (sys_step s ev)) /\
  (forall n r t, snapshot_of s n = Some r -> success r = true ->
     inflight (sys_effects s) ChRecent = Some (n, t) ->
     (recent_sync (sys_step s (RecentReply n)) <->
      result_stock <$> data r = svc_recentSearches (sys_service s))).
Proof. apply recent_lists_agree. constructor. Defined.

(** The discover page dispatches an order of 6.67 shares; its request is the
    first of the application. *)
Lemma order_success_then_cleared_witness :
  let o := {| order_stock := sys_demo_stock; order_shares := 667 # 100; orderType := Market;
              limitPrice := None; estimatedTotal := 1000 |} in
  let s := sys_step (sys_init None true) (DiscoverUser (OrderPlaced o)) in
  inflight (sys_effects s) ChOrder = Some (0, placeOrder o) /\
  let s1 := sys_step s (OrderReply 0 "ok") in
  buyOrderSuccess (sys_store s1) = true /\
  exists k, inflight (sys_effects s1) ChClearOrder = Some (k, placeOrderSuccess o) /\
    let s2 := sys_step s1 (ClearReply k) in
    buyOrderSuccess (sys_store s2) = false /\ loadingOf (sys_store s2) RBuyOrder = loading_idle.
Proof.
  cbv zeta. assert (H : inflight (sys_effects (sys_step (sys_init None true) (DiscoverUser (OrderPlaced
    {| order_stock := sys_demo_stock; order_shares := 667 # 100; orderType := Market;
       limitPrice := None; estimatedTotal := 1000 |})))) ChOrder =
    Some (0, placeOrder {| order_stock := sys_demo_stock; order_shares := 667 # 100;
                           orderType := Market; limitPrice := None; estimatedTotal := 1000 |}))
    by reflexivity.
  split; [exact H | exact (order_success_then_cleared _ _ _ "ok" H)].
Defined.

(** The discover page searches "app" 300 ms after the keystroke; the
    backend's answer is filtered to Apple. *)
Lemma search_round_trip_witness :
  let s := sys_run (sys_init None true) [DiscoverUser Init; DiscoverUser (SearchInput "app" 0);
                                         DiscoverUser (Tick 300)] in
  inflight (sys_effects s) ChSearch = Some (3, searchStocks "app") /\
  let s1 := sys_step s (SearchReply 3 (inl [raw_aapl; raw_flat])) in
  searchResults (sys_store s1) = data (svc_searchStocks "app" [raw_aapl; raw_flat]) /\
  searchLoading (sys_store s1) = loading_idle /\
  (2 <> 3 -> sys_store (sys_step s (SearchReply 2 (inl [raw_aapl; raw_flat]))) = sys_store s).
Proof.
  cbv zeta.
  assert (H : inflight (sys_effects (sys_run (sys_init None true)
                [DiscoverUser Init; DiscoverUser (SearchInput "app" 0); DiscoverUser (Tick 300)]))
                ChSearch = Some (3, searchStocks "app")) by reflexivity.
  split; [exact H | exact (search_round_trip _ 3 2 "app" [raw_aapl; raw_flat] H)].
Defined.

(** An order placed on the discover page and answered: only the success
    toast is shown. *)
Lemma order_error_never_shown_witness :
  let o := {| order_stock := sys_demo_stock; order_shares := 1; orderType := Market;
              limitPrice := None; estimatedTotal := 165 |} in
  let s := sys_run (sys_init None true)
             [DiscoverUser Init; DiscoverUser (OrderPlaced o); OrderReply 3 "ok"] in
  error (buyOrderLoading (sys_store s)) = None /\
  Forall (fun t => t.1 = SuccessToast) (sys_toasts s).
Proof.
  cbv zeta. apply (order_error_never_shown None true).
  repeat apply sys_reachable_step; try exact I. apply sys_reachable_init.
Defined.
